(** * solartimes: Julian days, solar ephemeris and sunrise/sunset times

    A shallow embedding of [sunrise_sunset.c].  A C [double] is Rocq's
    primitive binary64 [float] (round to nearest even, one NaN), a C [int] or
    [long] is a [Z] (C leaves signed overflow undefined; the model computes
    the exact integer).  Every [double] expression is evaluated operation by
    operation in binary64, in the order C's grammar gives it, without fused
    multiply-add and without excess precision. *)

From Stdlib Require Import ZArith Bool Lia List.
From Stdlib Require Import Floats Uint63.
From Stdlib Require Import Reals Lra.
From Stdlib Require Import String Ascii DecimalString.

Set Warnings "-inexact-float".

(** ** The C primitives on [double] the source relies on *)

Module CDouble.

Local Open Scope float_scope.

(** Conversion of an [int] or [long] to [double]. *)
Definition double_of_Z (z : Z) : float :=
  if (z <? 0)%Z then - of_uint63 (Uint63.of_Z (- z)) else of_uint63 (Uint63.of_Z z).

(** [floor] of <math.h>: the largest integral value not above [x]; zeros,
    infinities and NaN are returned unchanged. *)
Definition floor (x : float) : float :=
  match Prim2SF x with
  | S754_finite s m e =>
      if (0 <=? e)%Z then x
      else
        let q := (Z.pos m / 2 ^ (- e))%Z in
        if s then
          (if (Z.pos m mod 2 ^ (- e) =? 0)%Z then x else double_of_Z (- (q + 1)))
        else double_of_Z q
  | _ => x
  end.

(** [trunc] of <math.h>: [x] rounded toward zero to an integral value. *)
Definition trunc (x : float) : float :=
  match Prim2SF x with
  | S754_finite s m e =>
      if (0 <=? e)%Z then x
      else
        let q := (Z.pos m / 2 ^ (- e))%Z in
        if s then (if (q =? 0)%Z then neg_zero else double_of_Z (- q))
        else double_of_Z q
  | _ => x
  end.

(** The integer a finite [double] truncates to (toward zero). *)
Definition Z_of_double (x : float) : option Z :=
  match Prim2SF x with
  | S754_zero _ => Some 0%Z
  | S754_finite s m e =>
      let q := (if (0 <=? e)%Z then Z.pos m * 2 ^ e else Z.pos m / 2 ^ (- e))%Z in
      Some (if s then (- q)%Z else q)
  | _ => None
  end.

(** Conversion of a [double] to a signed integer type of [bits] bits: the
    value truncated toward zero; C leaves the conversion undefined when that
    value is not representable, which is [None] here. *)
Definition signed_of_double (bits : Z) (x : float) : option Z :=
  match Z_of_double x with
  | Some q =>
      if ((- 2 ^ (bits - 1) <=? q) && (q <? 2 ^ (bits - 1)))%Z then Some q else None
  | None => None
  end.

Definition int_of_double : float -> option Z := signed_of_double 32.
Definition long_of_double : float -> option Z := signed_of_double 64.

(** [M_PI] of <math.h>, 3.14159265358979323846 as a [double]. *)
Definition M_PI : float := 0x1.921fb54442d18p+1.

End CDouble.

Import CDouble.

(** The functions of <math.h> whose results the C standard does not fix bit
    for bit: they are parameters of the embedding. *)
Class Libm : Type := {
  sin : float -> float;
  cos : float -> float;
  tan : float -> float;
  asin : float -> float;
  acos : float -> float
}.

(** C99 Annex F.9.1.1: [acos(x)] returns a NaN (and raises the invalid
    floating-point exception, which the program never reads) for |x| > 1. *)
Class LibmC99 (L : Libm) : Prop := {
  acos_domain : forall x : float,
    (x <? -1)%float = true \/ (1 <? x)%float = true -> acos x = nan
}.

(** ** Arithmetic of a [double], read in binary64 or in the real numbers

    The three leaf functions below use only [+ - * /], [<] and literals with
    an integral value.  [Arith_double] is what the executable computes;
    [Arith_real] is the same text read in exact real arithmetic. *)

Class Arith (D : Type) : Type := {
  Dlit : Z -> D;
  Dadd : D -> D -> D;
  Dsub : D -> D -> D;
  Dmul : D -> D -> D;
  Ddiv : D -> D -> D;
  Dltb : D -> D -> bool
}.

Declare Scope arith_scope.
Delimit Scope arith_scope with A.
Infix "+" := Dadd : arith_scope.
Infix "-" := Dsub : arith_scope.
Infix "*" := Dmul : arith_scope.
Infix "/" := Ddiv : arith_scope.
Infix "<?" := Dltb : arith_scope.

#[export] Instance Arith_double : Arith float := {
  Dlit := double_of_Z;
  Dadd := PrimFloat.add;
  Dsub := PrimFloat.sub;
  Dmul := PrimFloat.mul;
  Ddiv := PrimFloat.div;
  Dltb := PrimFloat.ltb
}.

#[export] Instance Arith_real : Arith R := {
  Dlit := IZR;
  Dadd := Rplus;
  Dsub := Rminus;
  Dmul := Rmult;
  Ddiv := Rdiv;
  Dltb := fun x y => if Rlt_dec x y then true else false
}.

Section LeafFunctions.

Context {D : Type} {AD : Arith D}.
Local Open Scope arith_scope.

(** [#define DAYS_IN_CENTURY (36525.0)] and [#define JAN_1_2000_JD (2451545.0)] *)
Definition DAYS_IN_CENTURY : D := Dlit 36525.
Definition JAN_1_2000_JD : D := Dlit 2451545.

Definition JulianCenturyFromJulianDay (jd : D) : D :=
  (jd - JAN_1_2000_JD) / DAYS_IN_CENTURY.

Definition JulianDayFromJulianCentury (centuryTime : D) : D :=
  centuryTime * DAYS_IN_CENTURY + JAN_1_2000_JD.

(** [while (degrees > 360.0) { degrees -= 360.0; }]: [fuel] bounds the number
    of times the loop condition is evaluated; [None] means the loop is still
    running when the fuel is spent. *)
Fixpoint NormalizeDegrees_while_gt (fuel : nat) (degrees : D) : option D :=
  match fuel with
  | O => None
  | S fuel' =>
      if Dlit 360 <? degrees
      then NormalizeDegrees_while_gt fuel' (degrees - Dlit 360)
      else Some degrees
  end.

(** [while (degrees < 0.0) { degrees += 360.0; }] *)
Fixpoint NormalizeDegrees_while_lt (fuel : nat) (degrees : D) : option D :=
  match fuel with
  | O => None
  | S fuel' =>
      if degrees <? Dlit 0
      then NormalizeDegrees_while_lt fuel' (degrees + Dlit 360)
      else Some degrees
  end.

Definition NormalizeDegrees (fuel : nat) (degrees : D) : option D :=
  match NormalizeDegrees_while_gt fuel degrees with
  | Some degrees' => NormalizeDegrees_while_lt fuel degrees'
  | None => None
  end.

End LeafFunctions.

(** ** The solar ephemeris and the hour-angle solver, in binary64 *)

Section Ephemeris.

Context {libm : Libm}.
Local Open Scope float_scope.

(** [#define RADEG ( 180.0 / M_PI )] and [#define DEGRAD ( M_PI / 180.0 )] *)
Definition RADEG : float := 180.0 / M_PI.
Definition DEGRAD : float := M_PI / 180.0.

(** [#define MIN_PER_DEG (4.0)] and [#define MIN_PER_DAY (1440.0)] *)
Definition MIN_PER_DEG : float := 4.0.
Definition MIN_PER_DAY : float := 1440.0.

Definition kRiseOrSet : float := 90.833.
Definition kCivilTwilight : float := 96.00.
Definition kNauticalTwilight : float := 102.00.
Definition kAstronomicalTwilight : float := 108.00.

(** [#define sind(x) sin(x*DEGRAD)] and [#define tand(x) tan(x*DEGRAD)] *)
Definition sind (x : float) : float := sin (x * DEGRAD).
Definition tand (x : float) : float := tan (x * DEGRAD).

(** [#define DEG2RAD(x) ((x)*DEGRAD)], [#define RAD2DEG(x) ((x)*RADEG)] and
    [#define DEG2MIN(x) ((x)*MIN_PER_DEG)] *)
Definition DEG2RAD (x : float) : float := x * DEGRAD.
Definition RAD2DEG (x : float) : float := x * RADEG.
Definition DEG2MIN (x : float) : float := x * MIN_PER_DEG.

Definition MeanObliquityEcliptic (centuryTime : float) : float :=
  let arcSeconds := 21.448 - centuryTime *
      (46.8150 + centuryTime *
       (0.00059 - centuryTime * 0.001813)) in
  let degrees := 23.0 + (26.0 + (arcSeconds / 60.0)) / 60.0 in
  degrees.

Definition GeometricMeanLongitudeSun (centuryTime : float) : float :=
  let l0 := 280.46646 + centuryTime * (36000.76983 + centuryTime * 0.0003032) in
  l0.

Definition GeometricMeanAnomalySun (centuryTime : float) : float :=
  let m := 357.52911 + centuryTime * (35999.05029 - centuryTime * 0.0001537) in
  m.

Definition EccentricityEarth (centuryTime : float) : float :=
  0.016708634 - centuryTime * (0.000042037 + centuryTime * 0.0000001267).

(** [mrad += mrad] is executed twice, so the argument of the third sine is
    four times the mean anomaly. *)
Definition EquationOfCenterSunEx (centuryTime meanAnomalySun : float) : float :=
  let mrad := DEG2RAD meanAnomalySun in
  let sinm := sin mrad in
  let mrad := mrad + mrad in
  let sin2m := sin mrad in
  let mrad := mrad + mrad in
  let sin3m := sin mrad in
  let c := (1.914602 - centuryTime * (0.004817 + centuryTime * 0.000014)) * sinm +
      (0.019993 - 0.000101 * centuryTime) * sin2m +
      0.000289 * sin3m in
  c.

Definition EquationOfCenterSun (centuryTime : float) : float :=
  let meanAnomalySun := GeometricMeanAnomalySun centuryTime in
  EquationOfCenterSunEx centuryTime meanAnomalySun.

Definition TrueLongitudeSun (centuryTime : float) : float :=
  let l0 := GeometricMeanLongitudeSun centuryTime in
  let c := EquationOfCenterSun centuryTime in
  l0 + c.

Definition TrueAnomalySun (centuryTime : float) : float :=
  let mdeg := GeometricMeanAnomalySun centuryTime in
  let c := EquationOfCenterSunEx centuryTime mdeg in
  mdeg + c.

Definition Omega (centuryTime : float) : float :=
  125.04 - 1934.136 * centuryTime.

Definition OmegaRad (centuryTime : float) : float :=
  DEG2RAD (Omega centuryTime).

Definition ApparentLongitudeSunEx (centuryTime omegaRad : float) : float :=
  let trueLongitude := TrueLongitudeSun centuryTime in
  trueLongitude - 0.000569 - 0.00478 * sin omegaRad.

Definition ApparentLongitudeSun (centuryTime : float) : float :=
  ApparentLongitudeSunEx centuryTime (OmegaRad centuryTime).

Definition ObliquityCorrectionEx (centuryTime omegaRad : float) : float :=
  let moe := MeanObliquityEcliptic centuryTime in
  moe + 0.00256 * cos omegaRad.

Definition ObliquityCorrection (centuryTime : float) : float :=
  ObliquityCorrectionEx centuryTime (OmegaRad centuryTime).

Definition SunDeclinationRad (centuryTime : float) : float :=
  let omegaRad := OmegaRad centuryTime in
  let oc := ObliquityCorrectionEx centuryTime omegaRad in
  let al := ApparentLongitudeSunEx centuryTime omegaRad in
  asin (sind oc * sind al).

Definition SunDeclination (centuryTime : float) : float :=
  RAD2DEG (SunDeclinationRad centuryTime).

Definition EquationOfTime (centuryTime : float) : float :=
  let epsilon := ObliquityCorrection centuryTime in
  let y := tand (epsilon / 2.0) in
  let y := y * y in
  let l0 := GeometricMeanLongitudeSun centuryTime in
  let e := EccentricityEarth centuryTime in
  let m := GeometricMeanAnomalySun centuryTime in
  let l0 := DEG2RAD l0 in
  let l0x2 := l0 + l0 in
  let l0x4 := l0x2 + l0x2 in
  let m := DEG2RAD m in
  let sinm := sin m in
  let mx2 := m + m in
  let ex2 := e + e in
  let eRad := y * sin l0x2 - ex2 * sinm + 2 * ex2 * y * sinm * cos l0x2 -
      0.5 * y * y * sin l0x4 - 1.25 * e * e * sin mx2 in
  DEG2MIN (RAD2DEG eRad).

(** The quotient handed to [acos]: the cosine of the hour angle. *)
Definition cosHA (latitudeRad declinationRad angleRad : float) : float :=
  (cos angleRad - sin latitudeRad * sin declinationRad) /
  (cos latitudeRad * cos declinationRad).

(** The range test is compiled out ([#if 0]): the quotient goes to [acos]
    unchecked. *)
Definition LocalHourAngleSunRad (latitudeRad declinationRad angleRad : float) : float :=
  let cosHA := cosHA latitudeRad declinationRad angleRad in
  acos cosHA.

(** [rise] is a C [int] used as a truth value. *)
Definition UTCForSolarAngleAux (rise : Z) (jd latitudeRad angleRad : float) : float :=
  let centuryTime := JulianCenturyFromJulianDay jd in
  let equationOfTime := EquationOfTime centuryTime in
  let sunDeclinationRad := SunDeclinationRad centuryTime in
  let hourAngle := LocalHourAngleSunRad latitudeRad sunDeclinationRad angleRad in
  let hourAngle := if (rise =? 0)%Z then - hourAngle else hourAngle in
  720.0 - (4.0 * RAD2DEG hourAngle) - equationOfTime.

Definition UTCForSolarAngle (rise : Z) (jd latitude angle : float) : float :=
  let latitudeRad := DEG2RAD latitude in
  let angleRad := DEG2RAD angle in
  let firstTime := UTCForSolarAngleAux rise jd latitudeRad angleRad in
  let secondTime := UTCForSolarAngleAux rise (jd + firstTime / MIN_PER_DAY)
                                        latitudeRad angleRad in
  secondTime.

End Ephemeris.

(** ** Calendar date to Julian Day, and degrees to degrees/minutes/seconds *)

Section Calendar.

Local Open Scope float_scope.

(** The local flag [JulianDay] of [JulianDayEx] after the calendar test:
    [true] while the date is taken as a Julian-calendar date. *)
Definition JulianDayEx_flag (y m : Z) (dayFrac : float) : bool :=
  if (y >? 1582)%Z then false
  else if (y =? 1582)%Z then
    if (m >? 11)%Z then false
    else if (m =? 10)%Z then
      if 15.0 <=? dayFrac then false else true
    else true
  else true.

(** [if (m <= 2) { --y; m += 12; }] *)
Definition JulianDayEx_shift (y m : Z) : Z * Z :=
  if (m <=? 2)%Z then ((y - 1)%Z, (m + 12)%Z) else (y, m).

(** The century correction [b]; [/] on [int] truncates toward zero. *)
Definition JulianDayEx_b (y m : Z) (dayFrac : float) : Z :=
  let JulianDay := JulianDayEx_flag y m dayFrac in
  let '(y, m) := JulianDayEx_shift y m in
  let a := (y ÷ 100)%Z in
  if JulianDay then 0%Z else (2 - a + a ÷ 4)%Z.

Definition JulianDayEx (y m : Z) (dayFrac : float) : float :=
  let b := JulianDayEx_b y m dayFrac in
  let '(y, m) := JulianDayEx_shift y m in
  floor (365.25 * double_of_Z (y + 4716)) + floor (30.6001 * double_of_Z (m + 1)) +
  dayFrac + double_of_Z b - 1524.5.

Definition JulianDay (year month day hour minute second : Z) : float :=
  let dayFrac := double_of_Z day + (double_of_Z hour / 24.0) +
                 (double_of_Z minute / MIN_PER_DAY) +
                 (double_of_Z second / (MIN_PER_DAY * 60.0)) in
  JulianDayEx year month dayFrac.

(** [D2DMS] writes through three pointers; the model returns the three
    values.  [None] is the undefined conversion of an out-of-range or NaN
    [double] to [int] or [long]. *)
Definition D2DMS (degreesFrac : float) : option (Z * Z * float) :=
  match int_of_double (trunc degreesFrac) with
  | None => None
  | Some degrees =>
      let fraction := degreesFrac - double_of_Z degrees in
      let fraction := fraction * double_of_Z (3600 * 1000) in
      match long_of_double fraction with
      | None => None
      | Some milliSeconds =>
          let minutes := (milliSeconds ÷ (60 * 1000))%Z in
          let milliSeconds := (milliSeconds - minutes * 60 * 1000)%Z in
          let seconds := double_of_Z milliSeconds / 1000.0 in
          Some (degrees, minutes, seconds)
      end
  end.

End Calendar.

(** ** Leap years and the day of the year *)

Section DayOfYear.

Local Open Scope float_scope.

(** [%] on [int] takes the sign of the dividend ([Z.rem]); [&&] and [||]
    yield the [int] 1 or 0. *)
Definition IsLeapYear (year : Z) : Z :=
  if ((0 =? Z.rem year 4)%Z && negb (0 =? Z.rem year 100)%Z) || (0 =? Z.rem year 400)%Z
  then 1%Z else 0%Z.

(** The locals [year], [month] and [day] of [DayOfYearFromJulianDay]: the
    calendar date of [jd], each held in a [double]. *)
Definition DayOfYearFromJulianDay_date (jd : float) : float * float * float :=
  let z := floor (jd + 0.5) in
  let f := (jd + 0.5) - z in
  let b := z + 1524.0 in
  let b :=
    if 2299161.0 <=? z then
      let alpha := floor ((z - 1867216.25) / 36524.25) in
      b + (1 + alpha - floor (alpha / 4.0))
    else b in
  let c := floor ((b - 122.1) / 365.25) in
  let d := floor (365.25 * c) in
  let e := floor ((b - d) / 30.6001) in
  let day := b - d - floor (30.6001 * e) + f in
  let month := if e <? 14.0 then e - 1.0 else e - 13.0 in
  let year := if 2 <? month then c - 4716.0 else c - 4715.0 in
  (year, month, day).

(** [IsLeapYear(year)] converts the [double] [year] to [int]: [None] is the
    undefined conversion of a NaN or of a value outside the range of [int]. *)
Definition DayOfYearFromJulianDay (jd : float) : option float :=
  let '(year, month, day) := DayOfYearFromJulianDay_date jd in
  match int_of_double year with
  | None => None
  | Some year =>
      let n := floor ((275.0 * month) / 9.0) -
               double_of_Z (if (IsLeapYear year =? 0)%Z then 2 else 1) *
               floor ((month + 9.0) / 12.0) + day - 30 in
      Some n
  end.

End DayOfYear.

(** ** The test driver, [main.c] *)

Module Main.

Local Open Scope float_scope.

(** [round] of <math.h>: the nearest integral value, halfway cases away from
    zero; zeros, infinities and NaN are returned unchanged. *)
Definition round (x : float) : float :=
  match Prim2SF x with
  | S754_finite s m e =>
      if (0 <=? e)%Z then x
      else
        let q := (Z.pos m / 2 ^ (- e))%Z in
        let q := if (2 ^ (- e) <=? 2 * (Z.pos m mod 2 ^ (- e)))%Z then (q + 1)%Z else q in
        if s then (if (q =? 0)%Z then neg_zero else double_of_Z (- q))
        else double_of_Z q
  | _ => x
  end.

Record JulianDayTestInfo : Type := {
  y : Z;
  m : Z;
  dfrac : float;
  jd : float
}.

Definition gJulianDayTestInfo : list JulianDayTestInfo :=
  {| y := 1957; m := 10; dfrac := 4.81; jd := 2436116.31 |} ::
  {| y := 333; m := 1; dfrac := 27.5; jd := 1842713.0 |} ::
  {| y := 2000; m := 1; dfrac := 1.5; jd := 2451545.0 |} ::
  {| y := 1999; m := 1; dfrac := 1.0; jd := 2451179.5 |} ::
  {| y := 1987; m := 1; dfrac := 27.0; jd := 2446822.5 |} ::
  {| y := 1987; m := 6; dfrac := 19.5; jd := 2446966.0 |} ::
  {| y := 1988; m := 1; dfrac := 27.0; jd := 2447187.5 |} ::
  {| y := 1988; m := 6; dfrac := 19.5; jd := 2447332.0 |} ::
  {| y := 1900; m := 1; dfrac := 1; jd := 2415020.5 |} ::
  {| y := 1600; m := 1; dfrac := 1.0; jd := 2305447.5 |} ::
  {| y := 1600; m := 12; dfrac := 31.0; jd := 2305812.5 |} ::
  {| y := 837; m := 4; dfrac := 10.3; jd := 2026871.8 |} ::
  {| y := -1000; m := 7; dfrac := 12.5; jd := 1356001.0 |} ::
  {| y := -4712; m := 1; dfrac := 1.5; jd := 0.0 |} :: nil.

(** The value returned: the number of rows whose Julian Day differs from the
    expected one ([!=] on [double]); the [printf] of such a row is not
    modelled. *)
Definition JulianDayTests : Z :=
  fold_left (fun retVal t =>
      let julianDay := JulianDayEx (y t) (m t) (dfrac t) in
      if julianDay =? jd t then retVal else (retVal + 1)%Z)
    gJulianDayTestInfo 0%Z.

Definition D2DMSTest : option Z :=
  match D2DMS 121.1350000 with
  | None => None
  | Some (deg, minutes, seconds) =>
      Some (if (deg =? 121)%Z && (minutes =? 8)%Z && (seconds =? 6.0) then 0%Z else 1%Z)
  end.

Definition ObliquityTest : option Z :=
  let jd := JulianDayEx 1987 4 10.0 in
  let centuryTime := JulianCenturyFromJulianDay jd in
  let e := MeanObliquityEcliptic centuryTime in
  match D2DMS e with
  | None => None
  | Some (degrees, minutes, seconds) =>
      Some (if (degrees =? 23)%Z && (minutes =? 26)%Z && (seconds =? 27.407)
            then 0%Z else 1%Z)
  end.

(** [fuel] bounds the loops of [NormalizeDegrees]; [int resultInt = round(...)]
    converts the rounded [double] to [int]. *)
Definition GeometricMeanLongitudeSunTest (fuel : nat) : option Z :=
  let jd := JulianDayEx 1992 10 13.0 in
  let centuryTime := JulianCenturyFromJulianDay jd in
  let result := GeometricMeanLongitudeSun centuryTime in
  match NormalizeDegrees fuel result with
  | None => None
  | Some result =>
      match int_of_double (round (result * 100000.0)) with
      | None => None
      | Some resultInt => Some (if (resultInt =? 20180720)%Z then 0%Z else 1%Z)
      end
  end.

Definition GeometricMeanAnomalySunTest (fuel : nat) : option Z :=
  let jd := JulianDayEx 1992 10 13.0 in
  let centuryTime := JulianCenturyFromJulianDay jd in
  let result := GeometricMeanAnomalySun centuryTime in
  match NormalizeDegrees fuel result with
  | None => None
  | Some result =>
      match int_of_double (round (result * 100000.0)) with
      | None => None
      | Some resultInt => Some (if (resultInt =? 27899397)%Z then 0%Z else 1%Z)
      end
  end.

(** [printf]'s conversion [%02d]: the decimal digits of an [int], a minus sign
    before them when it is negative, zeros added after the sign up to a width
    of two characters. *)
Definition fmt_02d (n : Z) : string :=
  let s := NilZero.string_of_int (Z.to_int n) in
  if (String.length s <? 2)%nat then String "0" s else s.

(** [snprintf(s, 6, ...)] keeps at most five characters of the formatted text
    (the sixth byte is the terminator). *)
Definition snprintf_6 (text : string) : string := String.substring 0 5 text.

(** The text left in [s]; [None] is the undefined conversion of
    [round(minutesd)] to [int]. *)
Definition FormatMinutes (minutesd : float) : option string :=
  if is_nan minutesd || (minutesd <? 0) then Some " N/A "%string
  else
    match int_of_double (round minutesd) with
    | None => None
    | Some minutes =>
        let hh := (minutes ÷ 60)%Z in
        let mm := Z.rem minutes 60 in
        Some (snprintf_6 (fmt_02d hh ++ " " ++ fmt_02d mm)%string)
    end.

(** The six texts of one row of [SunRiseTest], in the order of the table:
    nautical twilight, civil twilight and sunrise, then sunset, civil
    twilight and nautical twilight; the [printf] of the row is not
    modelled. *)
Definition SunRiseTest_row {libm : Libm} (jd latitude : float) : list (option string) :=
  let nauticalTwilightBegin := UTCForSolarAngle 1 jd latitude kNauticalTwilight in
  let civilTwilightBegin := UTCForSolarAngle 1 jd latitude kCivilTwilight in
  let sunRise := UTCForSolarAngle 1 jd latitude kRiseOrSet in
  let sunSet := UTCForSolarAngle 0 jd latitude kRiseOrSet in
  let civilTwilightEnd := UTCForSolarAngle 0 jd latitude kCivilTwilight in
  let nauticalTwilightEnd := UTCForSolarAngle 0 jd latitude kNauticalTwilight in
  FormatMinutes nauticalTwilightBegin :: FormatMinutes civilTwilightBegin ::
  FormatMinutes sunRise :: FormatMinutes sunSet ::
  FormatMinutes civilTwilightEnd :: FormatMinutes nauticalTwilightEnd :: nil.

End Main.

(** ** The C library at the arguments of one evaluation

    [main.c] prints, for the Julian Day of 1994-05-08 and latitude 72 degrees,
    the times of [kRiseOrSet] and [kNauticalTwilight], rising and setting.
    The lists below give, for every argument these calls hand to [sin], [cos],
    [tan], [asin] and [acos] within their domain, the binary64 number nearest
    to the mathematical value (what a correctly rounding C library, and glibc
    at these arguments, returns).  Outside the lists the sampled library
    answers NaN. *)

Section SampledLibm.

Local Open Scope float_scope.

Fixpoint lookup_point (points : list (float * float)) (x : float) : float :=
  match points with
  | nil => nan
  | (a, v) :: points' => if PrimFloat.Leibniz.eqb a x then v else lookup_point points' x
  end.

Definition sin_points : list (float * float) :=
  ((-29.27340698330193), 0.8409698177378356) ::
  ((-61.24020055228952), 0.9997825174963553) ::
  ((-122.48040110457904), (-0.041700290418015866)) ::
  ((-58.54681396660386), (-0.9100673161319407)) ::
  ((-117.09362793320771), 0.7543738527706603) ::
  (4.090406566832063, (-0.8127250061844001)) ::
  (0.40907960002951493, 0.39776504128718676) ::
  ((-30.592250317371295), 0.733648877759502) ::
  (1.2566370614359172, 0.9510565162951535) ::
  (0.2961289811117721, 0.2918198761523066) ::
  ((-29.27302744134376), 0.8407643938369734) ::
  ((-61.239441432115676), 0.9997663982199674) ::
  ((-122.47888286423135), (-0.04321716150302248)) ::
  ((-58.54605488268752), (-0.9103816641832683)) ::
  ((-117.09210976537504), 0.7533763900572528) ::
  (4.090386175022876, (-0.8127131247795679)) ::
  (0.4090795991519305, 0.39776504048201416) ::
  ((-30.591877738513038), 0.7339020048793088) ::
  (0.2962342492318207, 0.29192056068064964) ::
  ((-29.256667900019327), 0.8317952076774701) ::
  ((-61.20672078664553), 0.9985241649725708) ::
  ((-122.41344157329107), (-0.10845814792764694)) ::
  ((-58.513335800038654), (-0.9234301525241377)) ::
  ((-117.02667160007731), 0.7087631799535845) ::
  (4.089507219118515, (-0.8122006749161255)) ::
  (0.40907956133536716, 0.3977650057857967) ::
  ((-30.575821997739144), 0.744712891236791) ::
  (0.30073335454856703, 0.29622072749155953) :: nil.

Definition cos_points : list (float * float) :=
  (4.090406566832063, (-0.5826474614400776)) ::
  ((-61.24020055228952), (-0.02085468073718737)) ::
  (1.5853349194640094, (-0.014538080502496963)) ::
  (1.2566370614359172, 0.30901699437494745) ::
  (0.2961289811117721, 0.9564732928223623) ::
  (4.090386175022876, (-0.5826640342521842)) ::
  ((-61.239441432115676), (-0.021613629733890045)) ::
  (0.2962342492318207, 0.9564425681931431) ::
  (4.089507219118515, (-0.5833781480873192)) ::
  ((-61.20672078664553), (-0.05430922542101235)) ::
  (0.30073335454856703, 0.9551195111630645) ::
  (1.7802358370342162, (-0.20791169081775934)) :: nil.

Definition tan_points : list (float * float) :=
  (0.20453980001475747, 0.20744076809143713) ::
  (0.20453979957596524, 0.20744076763376293) ::
  (0.20453978066768358, 0.20744074791182637) :: nil.

Definition asin_points : list (float * float) :=
  (0.2918198761523066, 0.2961289811117721) ::
  (0.29192056068064964, 0.2962342492318207) ::
  (0.29622072749155953, 0.30073335454856703) :: nil.

Definition acos_points : list (float * float) :=
  ((-0.9881880158241481), 2.987740051857858) ::
  ((-0.988543747403889), 2.990078997727255) :: nil.

Definition Libm_sampled : Libm := {|
  sin := lookup_point sin_points;
  cos := lookup_point cos_points;
  tan := lookup_point tan_points;
  asin := lookup_point asin_points;
  acos := fun x => if (x <? -1) || (1 <? x) then nan else lookup_point acos_points x
|}.

End SampledLibm.

(** ** The specification's wording, for comparison with the code *)

Section SpecWords.

Context {libm : Libm}.
Local Open Scope float_scope.

(** The calendar rule of the specification: Gregorian when [y > 1582], or
    [y = 1582] and [m > 10], or [y = 1582], [m = 10] and [dayFrac >= 15.0]. *)
Definition spec_gregorian (y m : Z) (dayFrac : float) : bool :=
  (y >? 1582)%Z || ((y =? 1582)%Z && (m >? 10)%Z) ||
  ((y =? 1582)%Z && (m =? 10)%Z && (15.0 <=? dayFrac)).

(** The correction of the specification: [2 - a + floor(a/4)] with
    [a = floor(y/100)] (on the year shifted for January and February) for a
    Gregorian date, [0] otherwise. *)
Definition spec_b (y m : Z) (dayFrac : float) : Z :=
  let a := (fst (JulianDayEx_shift y m) / 100)%Z in
  if spec_gregorian y m dayFrac then (2 - a + a / 4)%Z else 0%Z.

(** One pass of the specification's solver (section 4.4, steps 1 to 3) at the
    instant [jd]: the hour angle from the declination at the century time of
    [jd], negated on the setting side, then [720 - 4 H(degrees) - E(T)]. *)
Definition spec_pass (rise : Z) (jd latitudeRad angleRad : float) : float :=
  let T := (jd - 2451545.0) / 36525.0 in
  let declRad := SunDeclinationRad T in
  let H := acos ((cos angleRad - sin latitudeRad * sin declRad) /
                 (cos latitudeRad * cos declRad)) in
  let H := if (rise =? 0)%Z then - H else H in
  720.0 - 4.0 * (H * (180.0 / M_PI)) - EquationOfTime T.

(** The test the source compiles out: the cosine lies outside [-1, 1]. *)
Definition outside_unit (c : float) : bool := (c <? -1) || (1 <? c).

End SpecWords.

(** ** Binary64 notions used in the statements *)

(** Zeros and finite numbers, as opposed to infinities and NaN. *)
Definition SF_is_finite (X : spec_float) : bool :=
  match X with
  | S754_zero _ | S754_finite _ _ _ => true
  | _ => false
  end.

(** The real number a finite binary64 datum stands for; zeros, infinities and
    NaN are sent to 0. *)
Definition SF2R (X : spec_float) : R :=
  match X with
  | S754_finite s m e => (IZR (cond_Zopp s (Z.pos m)) * powerRZ 2 e)%R
  | _ => 0%R
  end.

(** The real value of a [double]. *)
Definition B2R (x : float) : R := SF2R (Prim2SF x).

(** [360.0] is [mantissa_360 * 2 ^ -44]. *)
Definition mantissa_360 : positive := 6333186975989760.

(** ** The civil calendar, for comparison with the code

    Month lengths and the number of a day within its year, for a year that is
    ([leap = true]) or is not a leap year.  [gregorian_leap] is the leap rule
    [IsLeapYear] implements; [julian_leap] is the rule of the Julian calendar
    (every fourth year, in astronomical year numbering). *)

Definition days_in_month (leap : bool) (m : Z) : Z :=
  if (m =? 2)%Z then (if leap then 29 else 28)%Z
  else if ((m =? 4) || (m =? 6) || (m =? 9) || (m =? 11))%Z then 30%Z else 31%Z.

(** The days of the first [k] months. *)
Fixpoint days_before (leap : bool) (k : nat) : Z :=
  match k with
  | O => 0%Z
  | S k' => (days_before leap k' + days_in_month leap (Z.of_nat k))%Z
  end.

(** 1 for the first of January, 365 or 366 for the last of December. *)
Definition day_number (leap : bool) (m d : Z) : Z :=
  (days_before leap (Z.to_nat (m - 1)) + d)%Z.

Definition gregorian_leap (y : Z) : bool := negb (IsLeapYear y =? 0)%Z.

Definition julian_leap (y : Z) : bool := (y mod 4 =? 0)%Z.

(** The number of years [IsLeapYear] accepts among the [n] years from [year]
    on. *)
Fixpoint leap_years (year : Z) (n : nat) : Z :=
  match n with
  | O => 0%Z
  | S n' => (IsLeapYear year + leap_years (year + 1) n')%Z
  end.

(** The five characters [HH MM] of [n] minutes, [n] below 6000. *)
Definition digit (k : Z) : ascii := ascii_of_nat (48 + Z.to_nat k).

Definition hh_mm (n : Z) : string :=
  String (digit (n / 60 / 10)) (String (digit ((n / 60) mod 10))
    (String " " (String (digit ((n mod 60) / 10)) (String (digit ((n mod 60) mod 10))
       EmptyString)))).

(** ** Evaluation with machine integers

    [floor] goes through the mantissa as a [Z].  [floor_u63] computes the same
    value on the 63-bit mantissa the primitive [frshiftexp] and
    [normfr_mantissa] give ([floor_u63_correct] below), which makes the
    calendar checks over whole ranges of dates affordable. *)

Definition floor_u63 (x : float) : float :=
  let (r, se) := frshiftexp x in
  if ((2102 <=? se) && (se <=? 2153))%uint63 then
    let k := (2154 - se)%uint63 in
    let M := normfr_mantissa r in
    let q := (M >> k)%uint63 in
    if (x <? 0)%float then
      (if ((q << k) =? M)%uint63 then x else (- of_uint63 (q + 1))%float)
    else of_uint63 q
  else if ((1 <=? se) && (se <=? 2101))%uint63 then
    (if (x <? 0)%float then (-1)%float else 0%float)
  else x.

(** The integers [lo], [lo + 1], ..., [lo + n - 1]. *)
Definition seqZ (lo : Z) (n : nat) : list Z := map (fun k => (lo + Z.of_nat k)%Z) (seq 0 n).

(** Equality of two [double]s bit for bit. *)
Definition feq (x y : float) : bool := PrimFloat.Leibniz.eqb x y.

Section CalendarChecking.

Local Open Scope float_scope.

(** [DayOfYearFromJulianDay_date] with [floor_u63] for [floor]. *)
Definition date_u63 (jd : float) : float * float * float :=
  let z := floor_u63 (jd + 0.5) in
  let f := (jd + 0.5) - z in
  let b := z + 1524.0 in
  let b :=
    if 2299161.0 <=? z then
      let alpha := floor_u63 ((z - 1867216.25) / 36524.25) in
      b + (1 + alpha - floor_u63 (alpha / 4.0))
    else b in
  let c := floor_u63 ((b - 122.1) / 365.25) in
  let d := floor_u63 (365.25 * c) in
  let e := floor_u63 ((b - d) / 30.6001) in
  let day := b - d - floor_u63 (30.6001 * e) + f in
  let month := if e <? 14.0 then e - 1.0 else e - 13.0 in
  let year := if 2 <? month then c - 4716.0 else c - 4715.0 in
  (year, month, day).

(** One date: [base + df + bb - 1524.5] is its Julian Day as [JulianDayEx]
    computes it; it must lie [kf] days after the first of January [jan1],
    decode to the year [yf], the month [mf] and the day [df], and get the day
    number [nf]. *)
Definition check_day (jan1 yf mf N base bb : float) (df kf nf : float) : bool :=
  let jd := base + df + bb - 1524.5 in
  let '(year, month, day) := date_u63 jd in
  feq jd (jan1 + kf) &&
  feq year yf && feq month mf && feq day df &&
  feq (N + day - 30) nf.

(** [one] on [n] consecutive days, the three counters stepping by one. *)
Fixpoint check_days (one : float -> float -> float -> bool) (n : nat) (df kf nf : float)
  : bool :=
  match n with
  | O => true
  | S n' => one df kf nf && check_days one n' (df + 1) (kf + 1) (nf + 1)
  end.

Definition check_month (leap cleap : bool) (jan1 yf K F0 F1 b0 b1 : float) (m : Z) : bool :=
  let mf := double_of_Z m in
  let early := (m <=? 2)%Z in
  let G := floor_u63 (30.6001 * double_of_Z ((if early then m + 12 else m) + 1)) in
  let base := (if early then F0 else F1) + G in
  let bb := if early then b0 else b1 in
  let before := days_before leap (Z.to_nat (m - 1)) in
  let cbefore := days_before cleap (Z.to_nat (m - 1)) in
  let N := floor_u63 ((275.0 * mf) / 9.0) - K * floor_u63 ((mf + 9.0) / 12.0) in
  check_days (check_day jan1 yf mf N base bb) (Z.to_nat (days_in_month cleap m))
             (double_of_Z 1) (double_of_Z cbefore) (double_of_Z (before + 1)).

(** The correction [b] of [JulianDayEx] on the year [y], already shifted for
    January and February, in the Gregorian ([greg = true]) or the Julian
    calendar. *)
Definition century_correction (greg : bool) (y : Z) : Z :=
  if greg then (let a := y ÷ 100 in 2 - a + a ÷ 4)%Z else 0%Z.

(** Every day of the year [y]: the months have the lengths of the calendar in
    force ([cleap]), the day numbers follow [IsLeapYear] ([leap]); and the
    first of January of the next year comes 365 or 366 days after this
    one. *)
Definition check_year (greg : bool) (y : Z) : bool :=
  let leap := gregorian_leap y in
  let cleap := if greg then leap else julian_leap y in
  let K := double_of_Z (if leap then 1 else 2) in
  let yf := double_of_Z y in
  let F0 := floor_u63 (365.25 * double_of_Z (y - 1 + 4716)) in
  let F1 := floor_u63 (365.25 * double_of_Z (y + 4716)) in
  let b0 := double_of_Z (century_correction greg (y - 1)) in
  let b1 := double_of_Z (century_correction greg y) in
  let G := floor_u63 (30.6001 * double_of_Z (1 + 12 + 1)) in
  let jan1 := F0 + G + 1 + b0 - 1524.5 in
  let next := F1 + G + 1 + b1 - 1524.5 in
  feq next (jan1 + double_of_Z (365 + (if cleap then 1 else 0))) &&
  forallb (check_month leap cleap jan1 yf K F0 F1 b0 b1) (seqZ 1 12).

End CalendarChecking.

(** ** Fractions of a degree *)

(** A zero, or a number of sign [s] and magnitude below one. *)
Definition below_one (s : bool) (F : spec_float) : Prop :=
  (exists sz, F = S754_zero sz) \/
  (exists mf ef, F = S754_finite s mf ef /\ (Z.pos mf < 2 ^ (- ef))%Z).

(** [3600000.0] is [mantissa_3600000 * 2 ^ -31]. *)
Definition mantissa_3600000 : positive := 7730941132800000.

(** ** Facts of binary64 arithmetic *)

Section FloatFacts.

Local Open Scope float_scope.

Lemma Prim2SF_nan : Prim2SF nan = S754_nan.
Proof. reflexivity. Qed.

Lemma eq_nan_SF (x : float) : x = nan <-> Prim2SF x = S754_nan.
Proof.
  split; intro H.
  - subst x. reflexivity.
  - apply Prim2SF_inj. rewrite H. reflexivity.
Qed.

Lemma add_nan_l (x : float) : nan + x = nan.
Proof. apply Prim2SF_inj. rewrite FloatAxioms.add_spec, Prim2SF_nan. reflexivity. Qed.

Lemma add_nan_r (x : float) : x + nan = nan.
Proof.
  apply Prim2SF_inj. rewrite FloatAxioms.add_spec, Prim2SF_nan.
  destruct (Prim2SF x) as [[]|[]| |]; reflexivity.
Qed.

Lemma sub_nan_l (x : float) : nan - x = nan.
Proof. apply Prim2SF_inj. rewrite FloatAxioms.sub_spec, Prim2SF_nan. reflexivity. Qed.

Lemma sub_nan_r (x : float) : x - nan = nan.
Proof.
  apply Prim2SF_inj. rewrite FloatAxioms.sub_spec, Prim2SF_nan.
  destruct (Prim2SF x) as [[]|[]| |]; reflexivity.
Qed.

Lemma mul_nan_l (x : float) : nan * x = nan.
Proof. apply Prim2SF_inj. rewrite FloatAxioms.mul_spec, Prim2SF_nan. reflexivity. Qed.

Lemma mul_nan_r (x : float) : x * nan = nan.
Proof.
  apply Prim2SF_inj. rewrite FloatAxioms.mul_spec, Prim2SF_nan.
  destruct (Prim2SF x) as [[]|[]| |]; reflexivity.
Qed.

Lemma div_nan_l (x : float) : nan / x = nan.
Proof. apply Prim2SF_inj. rewrite FloatAxioms.div_spec, Prim2SF_nan. reflexivity. Qed.

Lemma div_nan_r (x : float) : x / nan = nan.
Proof.
  apply Prim2SF_inj. rewrite FloatAxioms.div_spec, Prim2SF_nan.
  destruct (Prim2SF x) as [[]|[]| |]; reflexivity.
Qed.

Lemma opp_nan : - nan = nan.
Proof. reflexivity. Qed.

(** Rounding never invents a NaN: the mantissa stays non-negative through
    the shifts. *)
Lemma iter_pos_invariant {A : Type} (P : A -> Prop) (f : A -> A) :
  (forall a, P a -> P (f a)) -> forall p a, P a -> P (SpecFloat.iter_pos f p a).
Proof.
  intros Hf p. induction p as [p IH|p IH|]; intros a Ha; simpl; auto.
Qed.

Lemma shr_1_nonneg (mrs : shr_record) :
  (0 <= shr_m mrs)%Z -> (0 <= shr_m (shr_1 mrs))%Z.
Proof.
  destruct mrs as [m r s]. simpl. intros Hm.
  destruct m as [|[p|p|]|p]; simpl; lia.
Qed.

Lemma shr_fexp_nonneg (m e : Z) (l : location) :
  (0 <= m)%Z -> (0 <= shr_m (fst (shr_fexp prec emax m e l)))%Z.
Proof.
  intros Hm. unfold shr_fexp, shr.
  assert (H0 : (0 <= shr_m (shr_record_of_loc m l))%Z)
    by (destruct l as [|[]]; exact Hm).
  destruct (fexp prec emax (Zdigits2 m + e) - e)%Z as [|p|p]; simpl; auto.
  apply (iter_pos_invariant (fun mrs => (0 <= shr_m mrs)%Z)); auto using shr_1_nonneg.
Qed.

Lemma round_nearest_even_nonneg (m : Z) (l : location) :
  (0 <= m)%Z -> (0 <= round_nearest_even m l)%Z.
Proof.
  intros Hm. destruct l as [|[]]; simpl; try lia.
  destruct (Z.even m); lia.
Qed.

Lemma binary_round_aux_not_nan (s : bool) (m e : Z) (l : location) :
  (0 <= m)%Z -> binary_round_aux prec emax s m e l <> S754_nan.
Proof.
  intros Hm. unfold binary_round_aux.
  pose proof (shr_fexp_nonneg m e l Hm) as H1.
  destruct (shr_fexp prec emax m e l) as [mrs' e']. simpl in H1.
  pose proof (shr_fexp_nonneg _ e' loc_Exact
                (round_nearest_even_nonneg _ (loc_of_shr_record mrs') H1)) as H2.
  destruct (shr_fexp prec emax _ e' loc_Exact) as [mrs'' e'']. simpl in H2.
  destruct (shr_m mrs'') as [|q|q]; try discriminate.
  - destruct (e'' <=? emax - prec)%Z; discriminate.
  - lia.
Qed.

Lemma binary_normalize_not_nan (m e : Z) (sz : bool) :
  binary_normalize prec emax m e sz <> S754_nan.
Proof.
  destruct m as [|p|p]; simpl; try discriminate;
    unfold binary_round;
    destruct (shl_align _ _ _) as [mz ez];
    apply binary_round_aux_not_nan; lia.
Qed.

(** Rounding treats the two signs alike. *)
Lemma binary_round_aux_opp (s : bool) (m e : Z) (l : location) :
  binary_round_aux prec emax (negb s) m e l = SFopp (binary_round_aux prec emax s m e l).
Proof.
  unfold binary_round_aux.
  destruct (shr_fexp prec emax m e l) as [mrs' e'].
  destruct (shr_fexp prec emax _ e' loc_Exact) as [mrs'' e''].
  destruct (shr_m mrs'') as [|q|q]; try reflexivity.
  destruct (e'' <=? emax - prec)%Z; reflexivity.
Qed.

Lemma mul_opp_l (x y : float) : (- x) * y = - (x * y).
Proof.
  apply Prim2SF_inj. rewrite FloatAxioms.opp_spec, !FloatAxioms.mul_spec, FloatAxioms.opp_spec.
  destruct (Prim2SF x) as [sx|sx| |sx mx ex], (Prim2SF y) as [sy|sy| |sy my ey];
    simpl; try reflexivity; try (destruct sx, sy; reflexivity).
  unfold SF64mul; simpl.
  replace (xorb (negb sx) sy) with (negb (xorb sx sy)) by (destruct sx, sy; reflexivity).
  apply binary_round_aux_opp.
Qed.

Lemma mul_opp_r (x y : float) : x * (- y) = - (x * y).
Proof.
  apply Prim2SF_inj. rewrite FloatAxioms.opp_spec, !FloatAxioms.mul_spec, FloatAxioms.opp_spec.
  destruct (Prim2SF x) as [sx|sx| |sx mx ex], (Prim2SF y) as [sy|sy| |sy my ey];
    simpl; try reflexivity; try (destruct sx, sy; reflexivity).
  unfold SF64mul; simpl.
  replace (xorb sx (negb sy)) with (negb (xorb sx sy)) by (destruct sx, sy; reflexivity).
  apply binary_round_aux_opp.
Qed.

Lemma sub_opp_r (x y : float) : x - (- y) = x + y.
Proof.
  apply Prim2SF_inj. rewrite FloatAxioms.sub_spec, FloatAxioms.add_spec, FloatAxioms.opp_spec.
  destruct (Prim2SF x) as [sx|sx| |sx mx ex], (Prim2SF y) as [sy|sy| |sy my ey];
    simpl; try reflexivity; destruct sx, sy; reflexivity.
Qed.

(** When a sum or a difference is a NaN. *)
Lemma SFsub_nan_finite_r (X Y : spec_float) :
  SF_is_finite Y = true -> (SF64sub X Y = S754_nan <-> X = S754_nan).
Proof.
  intros HY. destruct Y as [sy|sy| |sy my ey]; try discriminate;
    destruct X as [sx|sx| |sx mx ex]; simpl; split; intro H;
    try discriminate; try reflexivity; try (destruct sx, sy; discriminate).
  exfalso. revert H. apply binary_normalize_not_nan.
Qed.

Lemma SFsub_nan_finite_l (X Y : spec_float) :
  SF_is_finite X = true -> (SF64sub X Y = S754_nan <-> Y = S754_nan).
Proof.
  intros HX. destruct X as [sx|sx| |sx mx ex]; try discriminate;
    destruct Y as [sy|sy| |sy my ey]; simpl; split; intro H;
    try discriminate; try reflexivity; try (destruct sx, sy; discriminate).
  exfalso. revert H. apply binary_normalize_not_nan.
Qed.

Lemma SFadd_nan_finite_l (X Y : spec_float) :
  SF_is_finite X = true -> (SF64add X Y = S754_nan <-> Y = S754_nan).
Proof.
  intros HX. destruct X as [sx|sx| |sx mx ex]; try discriminate;
    destruct Y as [sy|sy| |sy my ey]; simpl; split; intro H;
    try discriminate; try reflexivity; try (destruct sx, sy; discriminate).
  exfalso. revert H. apply binary_normalize_not_nan.
Qed.

Lemma is_infinity_false_SF (x : float) :
  is_infinity x = false -> Prim2SF x = S754_nan \/ SF_is_finite (Prim2SF x) = true.
Proof.
  unfold is_infinity. rewrite FloatAxioms.eqb_spec, FloatAxioms.abs_spec.
  destruct (Prim2SF x) as [s|s| |s m e]; simpl; auto; discriminate.
Qed.

End FloatFacts.

(** ** Rounding to binary64, on the integers of the IEEE model

    What the subtraction [x - 360.0] needs: how [binary_round] cuts a
    mantissa to 53 digits, and that the rounded value stays within one unit of
    the last digit kept. *)

Section Rounding.

Local Open Scope Z_scope.

Lemma digits2_pos_bounds (p : positive) :
  2 ^ (Z.pos (digits2_pos p) - 1) <= Z.pos p < 2 ^ Z.pos (digits2_pos p).
Proof.
  induction p as [p IH|p IH|]; simpl digits2_pos.
  - rewrite Pos2Z.inj_succ. change (Z.pos p~1) with (2 * Z.pos p + 1).
    replace (Z.succ (Z.pos (digits2_pos p)) - 1) with (Z.succ (Z.pos (digits2_pos p) - 1)) by lia.
    rewrite !Z.pow_succ_r by lia.
    revert IH. generalize (2 ^ (Z.pos (digits2_pos p) - 1)) (2 ^ Z.pos (digits2_pos p)). intros a b [H1 H2]; split; lia.
  - rewrite Pos2Z.inj_succ. change (Z.pos p~0) with (2 * Z.pos p).
    replace (Z.succ (Z.pos (digits2_pos p)) - 1) with (Z.succ (Z.pos (digits2_pos p) - 1)) by lia.
    rewrite !Z.pow_succ_r by lia.
    revert IH. generalize (2 ^ (Z.pos (digits2_pos p) - 1)) (2 ^ Z.pos (digits2_pos p)). intros a b [H1 H2]; split; lia.
  - simpl. lia.
Qed.

Lemma Zdigits2_unique (p : positive) (k : Z) :
  2 ^ (k - 1) <= Z.pos p < 2 ^ k -> Zdigits2 (Z.pos p) = k.
Proof.
  intros [Hlo Hhi]. simpl.
  pose proof (digits2_pos_bounds p) as [Dlo Dhi].
  set (d := Z.pos (digits2_pos p)) in *.
  assert (0 < d) by (unfold d; lia).
  destruct (Z.lt_trichotomy d k) as [Hlt|[Heq|Hgt]]; [exfalso|exact Heq|exfalso].
  - assert (2 ^ d <= 2 ^ (k - 1)) by (apply Z.pow_le_mono_r; lia). lia.
  - assert (k <= 0 \/ 0 < k) as [Hk|Hk] by lia.
    + assert (2 ^ (k - 1) = 0) by (apply Z.pow_neg_r; lia).
      assert (2 ^ k <= 2 ^ 0) by (apply Z.pow_le_mono_r; lia). simpl in *. lia.
    + assert (2 ^ k <= 2 ^ (d - 1)) by (apply Z.pow_le_mono_r; lia). lia.
Qed.

Lemma shr_1_div2 (mrs : shr_record) :
  0 <= shr_m mrs -> shr_m (shr_1 mrs) = shr_m mrs / 2.
Proof.
  destruct mrs as [m r s]. intros Hm. cbn [shr_m] in Hm.
  destruct m as [|[q|q|]|q]; cbn [shr_1 shr_m]; try lia; try reflexivity.
  - change (Z.pos q~1) with (2 * Z.pos q + 1).
    apply Z.div_unique with (r := 1); lia.
  - change (Z.pos q~0) with (2 * Z.pos q).
    apply Z.div_unique with (r := 0); lia.
Qed.

Lemma iter_shr_1_div (p : positive) (mrs : shr_record) :
  0 <= shr_m mrs ->
  shr_m (SpecFloat.iter_pos shr_1 p mrs) = shr_m mrs / 2 ^ Z.pos p.
Proof.
  revert mrs. induction p as [p IH|p IH|]; intros mrs Hm; simpl SpecFloat.iter_pos.
  - assert (H1 : 0 <= shr_m (shr_1 mrs)) by (rewrite shr_1_div2 by lia; apply Z.div_pos; lia).
    assert (H2 : 0 <= shr_m (SpecFloat.iter_pos shr_1 p (shr_1 mrs))).
    { rewrite IH by lia. apply Z.div_pos; [lia|]. apply Z.pow_pos_nonneg; lia. }
    rewrite IH, IH, shr_1_div2 by lia.
    rewrite !Z.div_div by (try apply Z.pow_pos_nonneg; lia).
    f_equal. change (Z.pos p~1) with (2 * Z.pos p + 1).
    replace (2 * Z.pos p + 1) with (1 + Z.pos p + Z.pos p) by lia.
    rewrite !Z.pow_add_r by lia. lia.
  - assert (H2 : 0 <= shr_m (SpecFloat.iter_pos shr_1 p mrs)).
    { rewrite IH by lia. apply Z.div_pos; [lia|]. apply Z.pow_pos_nonneg; lia. }
    rewrite IH, IH by lia.
    rewrite !Z.div_div by (try apply Z.pow_pos_nonneg; lia).
    f_equal. change (Z.pos p~0) with (2 * Z.pos p).
    replace (2 * Z.pos p) with (Z.pos p + Z.pos p) by lia.
    rewrite !Z.pow_add_r by lia. lia.
  - rewrite shr_1_div2 by lia. reflexivity.
Qed.

Lemma round_nearest_even_bounds (m : Z) (l : location) :
  m <= round_nearest_even m l <= m + 1.
Proof.
  destruct l as [|[]]; simpl; try lia. destruct (Z.even m); lia.
Qed.

Lemma iter_xO_pow (m d : positive) :
  Z.pos (Pos.iter xO m d) = Z.pos m * 2 ^ Z.pos d.
Proof.
  induction d as [|d IH] using Pos.peano_ind.
  - simpl. lia.
  - rewrite Pos.iter_succ, Pos2Z.inj_succ, Z.pow_succ_r by lia.
    change (Z.pos (Pos.iter xO m d)~0) with (2 * Z.pos (Pos.iter xO m d)). rewrite IH. lia.
Qed.


(** The shift that brings a mantissa of [dm >= 53] digits back to 53. *)
Lemma shr_fexp_normal (m e dm : Z) (l : location) :
  Zdigits2 m = dm -> 53 <= dm -> -1074 <= dm + e - 53 ->
  shr_fexp prec emax m e l = shr (shr_record_of_loc m l) e (dm - 53).
Proof.
  intros Hd Hdm He. unfold shr_fexp, fexp, SpecFloat.emin, prec, emax. rewrite Hd.
  f_equal. lia.
Qed.

(** A 53-digit mantissa in range is already a binary64 number. *)
Lemma binary_round_aux_exact (s : bool) (m : positive) (e : Z) :
  2 ^ 52 <= Z.pos m < 2 ^ 53 -> -1074 <= e <= 971 ->
  binary_round_aux prec emax s (Z.pos m) e loc_Exact = S754_finite s m e.
Proof.
  intros Hm He. unfold binary_round_aux.
  assert (Hd : Zdigits2 (Z.pos m) = 53) by (apply Zdigits2_unique; exact Hm).
  rewrite (shr_fexp_normal (Z.pos m) e 53 loc_Exact Hd) by lia.
  change (53 - 53) with 0. cbn [shr shr_m shr_record_of_loc loc_of_shr_record round_nearest_even].
  rewrite (shr_fexp_normal (Z.pos m) e 53 loc_Exact Hd) by lia.
  change (53 - 53) with 0. cbn [shr shr_m shr_record_of_loc].
  replace (e <=? emax - prec) with true; [reflexivity|].
  symmetry. apply Z.leb_le. unfold emax, prec. lia.
Qed.

(** A longer mantissa is cut to 53 digits and rounded: the result exceeds the
    exact value by less than one unit of the digits dropped. *)
Lemma binary_round_aux_cut (s : bool) (z n : positive) (e : Z) :
  2 ^ (52 + Z.pos n) <= Z.pos z < 2 ^ (53 + Z.pos n) ->
  -1074 <= e -> e + Z.pos n + 1 <= 971 ->
  exists (m : positive) (er : Z),
    binary_round_aux prec emax s (Z.pos z) e loc_Exact = S754_finite s m er /\
    2 ^ 52 <= Z.pos m < 2 ^ 53 /\
    e + Z.pos n <= er <= e + Z.pos n + 1 /\
    Z.pos m * 2 ^ (er - e) <= (Z.pos z / 2 ^ Z.pos n + 1) * 2 ^ Z.pos n.
Proof.
  intros Hz He Hmax.
  assert (Hpn : 0 < 2 ^ Z.pos n) by (apply Z.pow_pos_nonneg; lia).
  assert (Hd : Zdigits2 (Z.pos z) = 53 + Z.pos n).
  { apply Zdigits2_unique. replace (53 + Z.pos n - 1) with (52 + Z.pos n) by lia. exact Hz. }
  unfold binary_round_aux.
  rewrite (shr_fexp_normal (Z.pos z) e _ loc_Exact Hd) by lia.
  replace (53 + Z.pos n - 53) with (Z.pos n) by lia.
  cbn [shr shr_record_of_loc].
  set (mrs' := SpecFloat.iter_pos shr_1 n _).
  assert (Hm' : shr_m mrs' = Z.pos z / 2 ^ Z.pos n).
  { unfold mrs'. rewrite iter_shr_1_div by (simpl; lia). reflexivity. }
  assert (Hlo : 2 ^ 52 <= shr_m mrs').
  { rewrite Hm'. apply Z.div_le_lower_bound; [lia|].
    rewrite Z.mul_comm, <- Z.pow_add_r by lia. lia. }
  assert (Hhi : shr_m mrs' < 2 ^ 53).
  { rewrite Hm'. apply Z.div_lt_upper_bound; [lia|].
    rewrite <- Z.pow_add_r by lia. replace (Z.pos n + 53) with (53 + Z.pos n) by lia. lia. }
  rewrite <- Hm'.
  pose proof (round_nearest_even_bounds (shr_m mrs') (loc_of_shr_record mrs')) as Hr.
  set (m'' := round_nearest_even (shr_m mrs') (loc_of_shr_record mrs')) in *.
  destruct (Z.lt_ge_cases m'' (2 ^ 53)) as [Hlt|Hge].
  - (* no carry *)
    destruct m'' as [|q|q] eqn:Eq; try lia.
    assert (Hdq : Zdigits2 (Z.pos q) = 53) by (apply Zdigits2_unique; lia).
    rewrite (shr_fexp_normal (Z.pos q) _ 53 loc_Exact Hdq) by lia.
    change (53 - 53) with 0. cbn [shr shr_m shr_record_of_loc].
    replace (e + Z.pos n <=? emax - prec) with true
      by (symmetry; apply Z.leb_le; unfold emax, prec; lia).
    exists q, (e + Z.pos n). repeat split; try lia.
    replace (e + Z.pos n - e) with (Z.pos n) by lia.
    apply Z.mul_le_mono_nonneg_r; lia.
  - (* the rounding carries into a 54th digit *)
    assert (Heq : m'' = 2 ^ 53) by lia.
    rewrite Heq.
    assert (Hd54 : Zdigits2 (2 ^ 53) = 54) by reflexivity.
    rewrite (shr_fexp_normal (2 ^ 53) _ 54 loc_Exact Hd54) by lia.
    change (54 - 53) with 1. change (2 ^ 53) with 9007199254740992 at 1.
    cbn [shr shr_record_of_loc SpecFloat.iter_pos shr_1 shr_m orb].
    replace (e + Z.pos n + 1 <=? emax - prec) with true
      by (symmetry; apply Z.leb_le; unfold emax, prec; lia).
    exists (4503599627370496%positive), (e + Z.pos n + 1). repeat split; try lia.
    replace (e + Z.pos n + 1 - e) with (Z.succ (Z.pos n)) by lia.
    rewrite Z.pow_succ_r by lia.
    change (Z.pos 4503599627370496) with (2 ^ 52).
    replace (shr_m mrs' + 1) with (2 * 2 ^ 52) by (change (2 * 2 ^ 52) with (2 ^ 53); lia).
    lia.
Qed.


(** Rounding [z * 2 ^ e0] when the result is a normal number: either the
    value fits in 53 digits and is kept, or its last [d - 53] digits are cut
    and the mantissa kept is rounded up by at most one. *)
Lemma binary_round_normal (s : bool) (z : positive) (e0 : Z) :
  let d := Z.pos (digits2_pos z) in
  -1074 <= e0 -> -1021 <= d + e0 -> d + e0 <= 1000 ->
  exists (m : positive) (e : Z),
    binary_round prec emax s z e0 = S754_finite s m e /\
    2 ^ 52 <= Z.pos m < 2 ^ 53 /\
    ((d <= 53 /\ e = d + e0 - 53 /\ Z.pos m = Z.pos z * 2 ^ (53 - d)) \/
     (53 < d /\ e0 + (d - 53) <= e <= e0 + (d - 53) + 1 /\
      Z.pos m * 2 ^ (e - e0) <= (Z.pos z / 2 ^ (d - 53) + 1) * 2 ^ (d - 53))).
Proof.
  intros d He0 Hlo Hhi.
  pose proof (digits2_pos_bounds z) as [Dlo Dhi]. fold d in Dlo, Dhi.
  assert (Hd1 : 1 <= d) by (unfold d; lia).
  unfold binary_round. fold d.
  replace (fexp prec emax (d + e0)) with (d + e0 - 53)
    by (unfold fexp, SpecFloat.emin, prec, emax; lia).
  unfold shl_align.
  destruct (d + e0 - 53 - e0) as [|n|k] eqn:E.
  - (* exactly 53 digits *)
    assert (Hd : d = 53) by lia.
    assert (Hz : 2 ^ 52 <= Z.pos z < 2 ^ 53).
    { replace 52 with (d - 1) by lia. replace 53 with d by lia. lia. }
    exists z, e0. split; [|split; [exact Hz|]].
    + apply binary_round_aux_exact; [exact Hz|lia].
    + left. split; [lia|]. split; [lia|].
      replace (53 - d) with 0 by lia. lia.
  - (* more than 53 digits: cut and round *)
    assert (Hn : d = 53 + Z.pos n) by lia.
    destruct (binary_round_aux_cut s z n e0) as [m [er [HR [Hm [Her Hval]]]]].
    { replace (52 + Z.pos n) with (d - 1) by lia. rewrite <- Hn. lia. }
    { lia. }
    { lia. }
    exists m, er. split; [exact HR|]. split; [exact Hm|].
    right. replace (d - 53) with (Z.pos n) by lia.
    split; [lia|]. split; [lia|exact Hval].
  - (* fewer than 53 digits: the value is kept exactly *)
    assert (Hk : Z.pos k = 53 - d) by lia.
    assert (Hm : Z.pos (Pos.iter xO z k) = Z.pos z * 2 ^ (53 - d))
      by (rewrite iter_xO_pow, Hk; reflexivity).
    assert (Hp : 0 < 2 ^ (53 - d)) by (apply Z.pow_pos_nonneg; lia).
    assert (H52 : 2 ^ 52 = 2 ^ (d - 1) * 2 ^ (53 - d))
      by (rewrite <- Z.pow_add_r by lia; f_equal; lia).
    assert (H53 : 2 ^ 53 = 2 ^ d * 2 ^ (53 - d))
      by (rewrite <- Z.pow_add_r by lia; f_equal; lia).
    assert (Hmb : 2 ^ 52 <= Z.pos (Pos.iter xO z k) < 2 ^ 53)
      by (rewrite Hm, H52, H53; nia).
    exists (Pos.iter xO z k), (d + e0 - 53). split; [|split; [exact Hmb|]].
    + apply binary_round_aux_exact; [exact Hmb|lia].
    + left. split; [lia|]. split; [reflexivity|exact Hm].
Qed.

(** Rounding an integer multiple of [2 ^ -44] below [2 ^ 60]: the result is a
    normal binary64 number that exceeds the exact value by at most one unit
    in the last of its 53 digits kept. *)
Lemma binary_round_m44 (s : bool) (z : positive) :
  Z.pos z < 2 ^ 104 ->
  exists (m : positive) (e : Z),
    binary_round prec emax s z (-44) = S754_finite s m e /\
    2 ^ 52 <= Z.pos m < 2 ^ 53 /\
    -96 <= e <= 8 /\
    Z.pos m * 2 ^ (e + 97) <= Z.pos z * 2 ^ 53 + 2 * Z.pos z.
Proof.
  intros Hz.
  pose proof (digits2_pos_bounds z) as [Dlo Dhi].
  set (d := Z.pos (digits2_pos z)) in *.
  assert (Hd1 : 1 <= d) by (unfold d; lia).
  assert (Hd104 : d <= 104).
  { destruct (Z.le_gt_cases d 104) as [H|H]; [exact H|exfalso].
    assert (2 ^ 104 <= 2 ^ (d - 1)) by (apply Z.pow_le_mono_r; lia). lia. }
  destruct (binary_round_normal s z (-44)) as [m [e [HR [Hm Hcase]]]];
    fold d; try lia.
  fold d in Hcase.
  exists m, e. split; [exact HR|]. split; [exact Hm|].
  destruct Hcase as [[Hd [He Hv]]|[Hd [He Hv]]].
  - split; [lia|]. rewrite Hv, He.
    replace (d + -44 - 53 + 97) with d by lia.
    assert (H53 : 2 ^ 53 = 2 ^ (53 - d) * 2 ^ d)
      by (rewrite <- Z.pow_add_r by lia; f_equal; lia).
    rewrite <- Z.mul_assoc, <- H53. lia.
  - split; [lia|].
    assert (Hpn : 0 < 2 ^ (d - 53)) by (apply Z.pow_pos_nonneg; lia).
    assert (Hdiv : Z.pos z / 2 ^ (d - 53) * 2 ^ (d - 53) <= Z.pos z)
      by (rewrite Z.mul_comm; apply Z.mul_div_le; lia).
    assert (Hpow : 2 ^ (d - 53) * 2 ^ 53 <= 2 * Z.pos z).
    { rewrite <- Z.pow_add_r by lia. replace (d - 53 + 53) with (Z.succ (d - 1)) by lia.
      rewrite Z.pow_succ_r by lia. lia. }
    replace (e + 97) with ((e - -44) + 53) by lia.
    rewrite Z.pow_add_r by lia.
    assert (0 < 2 ^ 53) by reflexivity.
    revert Hv Hdiv Hpow Hpn. generalize (Z.pos z / 2 ^ (d - 53)) (2 ^ (d - 53)) (2 ^ (e - -44)).
    intros q P Q Hv Hdiv Hpow Hpn.
    change (2 ^ 53) with 9007199254740992 in *. nia.
Qed.

(** Normal binary64 numbers are ordered by exponent, then by mantissa. *)
Lemma normal_value_lt (m1 m2 e1 e2 : Z) :
  2 ^ 52 <= m1 < 2 ^ 53 -> 2 ^ 52 <= m2 < 2 ^ 53 ->
  -97 <= e1 -> -97 <= e2 ->
  m1 * 2 ^ (e1 + 97) < m2 * 2 ^ (e2 + 97) ->
  e1 < e2 \/ (e1 = e2 /\ m1 < m2).
Proof.
  intros H1 H2 He1 He2 Hlt.
  assert (HP : 0 < 2 ^ (e2 + 97)) by (apply Z.pow_pos_nonneg; lia).
  destruct (Z.lt_trichotomy e1 e2) as [H|[H|H]]; [left; exact H|right|exfalso].
  - subst e2. split; [reflexivity|]. nia.
  - replace (e1 + 97) with ((e1 - e2) + (e2 + 97)) in Hlt by lia.
    rewrite Z.pow_add_r in Hlt by lia.
    assert (HQ : 2 ^ 1 <= 2 ^ (e1 - e2)) by (apply Z.pow_le_mono_r; lia).
    change (2 ^ 1) with 2 in HQ.
    change (2 ^ 52) with 4503599627370496 in *.
    change (2 ^ 53) with 9007199254740992 in *.
    revert Hlt HQ HP. generalize (2 ^ (e1 - e2)) (2 ^ (e2 + 97)). intros Q P Hlt HQ HP.
    assert (9007199254740992 <= m1 * Q) by nia.
    assert (9007199254740992 * P <= m1 * Q * P) by (apply Z.mul_le_mono_nonneg_r; lia).
    assert (m2 * P < 9007199254740992 * P) by (apply Z.mul_lt_mono_pos_r; lia).
    lia.
Qed.

Lemma normal_value_le (m1 m2 e1 e2 e0 : Z) :
  2 ^ 52 <= m1 < 2 ^ 53 -> 2 ^ 52 <= m2 < 2 ^ 53 ->
  e0 <= e1 -> e0 <= e2 ->
  m1 * 2 ^ (e1 - e0) <= m2 * 2 ^ (e2 - e0) ->
  ~ (e2 < e1 \/ (e1 = e2 /\ m2 < m1)).
Proof.
  intros H1 H2 He1 He2 Hle.
  assert (HP : 0 < 2 ^ (e2 - e0)) by (apply Z.pow_pos_nonneg; lia).
  change (2 ^ 52) with 4503599627370496 in *.
  change (2 ^ 53) with 9007199254740992 in *.
  intros [Hlt|[Heq Hm]].
  - replace (e1 - e0) with ((e1 - e2) + (e2 - e0)) in Hle by lia.
    rewrite Z.pow_add_r in Hle by lia.
    assert (HQ : 2 ^ 1 <= 2 ^ (e1 - e2)) by (apply Z.pow_le_mono_r; lia).
    change (2 ^ 1) with 2 in HQ.
    revert Hle HQ HP. generalize (2 ^ (e1 - e2)) (2 ^ (e2 - e0)). intros Q P Hle HQ HP.
    assert (9007199254740992 <= m1 * Q) by nia.
    assert (9007199254740992 * P <= m1 * Q * P) by (apply Z.mul_le_mono_nonneg_r; lia).
    assert (m2 * P < 9007199254740992 * P) by (apply Z.mul_lt_mono_pos_r; lia).
    lia.
  - subst e1. revert Hle HP. generalize (2 ^ (e2 - e0)). intros P Hle HP. nia.
Qed.

End Rounding.

(** ** Calendar date to Julian Day *)

Section CalendarFacts.

Local Open Scope float_scope.

(** Outside November 1582 the correction of the code is the correction of
    the specification. *)
Lemma JulianDayEx_b_outside_november_1582 (y m : Z) (dayFrac : float) :
  (y <> 1582 \/ m <> 11)%Z -> JulianDayEx_b y m dayFrac = spec_b y m dayFrac.
Proof.
  intros Hym. unfold JulianDayEx_b, spec_b, JulianDayEx_flag, spec_gregorian, JulianDayEx_shift.
  destruct (Z.leb_spec m 2) as [Hm2|Hm2]; cbn [fst];
    destruct (Z.gtb_spec y 1582) as [Hy|Hy]; cbn [orb andb];
    try (rewrite !Z.quot_div_nonneg; try reflexivity; try lia; apply Z.div_pos; lia);
    destruct (Z.eqb_spec y 1582) as [->|Hne]; cbn [orb andb]; try reflexivity;
    destruct (Z.gtb_spec m 11) as [Hm|Hm], (Z.gtb_spec m 10) as [Hm'|Hm'];
    try lia; cbn [orb andb]; try reflexivity;
    destruct (Z.eqb_spec m 10) as [->|Hm10]; cbn [orb andb]; try reflexivity; try lia;
    destruct (15 <=? dayFrac); reflexivity.
Qed.

(** C1. At 1 November 1582 the specification's rule selects the Gregorian
    correction [b = 2 - 15 + 3 = -10], while [JulianDayEx] (whose test reads
    [m > 11]) takes the date as Julian and uses [b = 0]: its Julian Day for
    1 November lies ten days after the one it gives to the same day written
    as 32 October, and 30 November comes out later than 1 December. *)
Theorem JulianDayEx_november_1582 :
  spec_gregorian 1582 11 1.0 = true /\
  spec_b 1582 11 1.0 = (-10)%Z /\
  JulianDayEx_b 1582 11 1.0 = 0%Z /\
  JulianDayEx 1582 11 1.0 = 2299187.5 /\
  JulianDayEx 1582 10 32.0 = 2299177.5 /\
  JulianDayEx 1582 11 30.0 = 2299216.5 /\
  JulianDayEx 1582 12 1.0 = 2299207.5.
Proof. repeat split; reflexivity. Qed.

(** C6. [JulianDayEx] returns exactly 2451545.0 for 2000-01-01.5, 2451179.5
    for 1999-01-01.0 and 0.0 for -4712-01-01.5. *)
Theorem JulianDayEx_fixed_points :
  JulianDayEx 2000 1 1.5 = 2451545.0 /\
  JulianDayEx 1999 1 1.0 = 2451179.5 /\
  JulianDayEx (-4712) 1 1.5 = 0.0.
Proof. repeat split; reflexivity. Qed.

(** C9. [D2DMS(121.1350000)] yields exactly (121, 8, 6.0): the degrees are
    the input truncated toward zero (also for a negative input), the
    fractional part becomes 486000 whole milliseconds of arc, and minutes and
    seconds are divided back out of that count. *)
Theorem D2DMS_121_135 :
  D2DMS 121.1350000 = Some (121%Z, 8%Z, 6.0) /\
  int_of_double (trunc 121.1350000) = Some 121%Z /\
  long_of_double ((121.1350000 - 121) * 3600000) = Some 486000%Z /\
  (486000 ÷ (60 * 1000) = 8)%Z /\
  double_of_Z (486000 - 8 * 60 * 1000) / 1000.0 = 6.0 /\
  D2DMS (-121.1350000) = Some ((-121)%Z, (-8)%Z, (-6.0)).
Proof. repeat split; reflexivity. Qed.

End CalendarFacts.

(** ** Century time and angle normalisation *)

Section LeafFacts.

(** More fuel never changes the outcome of a loop that has finished. *)
Lemma NormalizeDegrees_while_gt_fuel {D : Type} {AD : Arith D} (n m : nat) (x r : D) :
  (n <= m)%nat ->
  NormalizeDegrees_while_gt n x = Some r -> NormalizeDegrees_while_gt m x = Some r.
Proof.
  revert m x. induction n as [|n IH]; intros m x Hnm; [discriminate|].
  destruct m as [|m]; [lia|]. simpl.
  destruct (Dltb (Dlit 360) x); auto. apply IH. lia.
Qed.

Lemma NormalizeDegrees_while_lt_fuel {D : Type} {AD : Arith D} (n m : nat) (x r : D) :
  (n <= m)%nat ->
  NormalizeDegrees_while_lt n x = Some r -> NormalizeDegrees_while_lt m x = Some r.
Proof.
  revert m x. induction n as [|n IH]; intros m x Hnm; [discriminate|].
  destruct m as [|m]; [lia|]. simpl.
  destruct (Dltb x (Dlit 0)); auto. apply IH. lia.
Qed.

(** A state the subtraction does not change keeps the first loop running. *)
Lemma NormalizeDegrees_while_gt_stuck {D : Type} {AD : Arith D} (x : D) :
  Dltb (Dlit 360) x = true -> Dsub x (Dlit 360) = x ->
  forall fuel, NormalizeDegrees_while_gt fuel x = None.
Proof.
  intros Hgt Hsub fuel. induction fuel as [|fuel IH]; [reflexivity|].
  simpl. rewrite Hgt, Hsub. exact IH.
Qed.

Local Open Scope R_scope.


Lemma NormalizeDegrees_while_gt_real (n : nat) (x : R) :
  x <= 360 * INR (S n) ->
  exists r, NormalizeDegrees_while_gt (S n) x = Some r.
Proof.
  revert x. induction n as [|n IH]; intros x Hx.
  - exists x. simpl in *. destruct (Rlt_dec 360 x); [lra|reflexivity].
  - rewrite S_INR in Hx. cbn [NormalizeDegrees_while_gt].
    destruct (Dltb (Dlit 360) x) eqn:E; [|exists x; reflexivity].
    apply IH. simpl (Dsub _ _). simpl (Dlit _). lra.
Qed.

Lemma NormalizeDegrees_while_lt_real (n : nat) (x : R) :
  - (360 * INR n) <= x ->
  exists r, NormalizeDegrees_while_lt (S n) x = Some r.
Proof.
  revert x. induction n as [|n IH]; intros x Hx.
  - exists x. simpl in *. destruct (Rlt_dec x 0); [lra|reflexivity].
  - rewrite S_INR in Hx. cbn [NormalizeDegrees_while_lt].
    destruct (Dltb x (Dlit 0)) eqn:E; [|exists x; reflexivity].
    apply IH. simpl (Dadd _ _). simpl (Dlit _). lra.
Qed.

Lemma real_within_steps (x : R) : exists n : nat, Rabs x <= 360 * INR (S n).
Proof.
  destruct (archimed (Rabs x / 360)) as [Hup _].
  assert (Hpos : 0 <= Rabs x / 360).
  { apply Rmult_le_pos; [apply Rabs_pos | lra]. }
  assert (Hz : (0 < up (Rabs x / 360))%Z) by (apply lt_IZR; lra).
  exists (Z.to_nat (up (Rabs x / 360))).
  rewrite S_INR, INR_IZR_INZ, Z2Nat.id by lia.
  assert (Rabs x < 360 * IZR (up (Rabs x / 360))).
  { apply Rmult_lt_reg_r with (r := / 360); [lra|].
    replace (360 * IZR (up (Rabs x / 360)) * / 360) with (IZR (up (Rabs x / 360))) by field.
    exact Hup. }
  lra.
Qed.

(** Read in exact real arithmetic, [NormalizeDegrees] terminates on every
    input. *)
Lemma NormalizeDegrees_real_terminates (x : R) :
  exists fuel r, NormalizeDegrees fuel x = Some r.
Proof.
  destruct (real_within_steps x) as [n1 Hn1].
  destruct (NormalizeDegrees_while_gt_real n1 x) as [r1 Hr1].
  { pose proof (Rle_abs x). lra. }
  destruct (real_within_steps r1) as [n2 Hn2].
  destruct (NormalizeDegrees_while_lt_real (S n2) r1) as [r2 Hr2].
  { pose proof (Rle_abs (- r1)) as Habs. rewrite Rabs_Ropp in Habs.
    rewrite S_INR. rewrite S_INR in Hn2. pose proof (pos_INR n2). lra. }
  exists (Nat.max (S n1) (S (S n2))), r2. unfold NormalizeDegrees.
  rewrite (NormalizeDegrees_while_gt_fuel (S n1) _ x r1 (Nat.le_max_l _ _) Hr1).
  exact (NormalizeDegrees_while_lt_fuel (S (S n2)) _ r1 r2 (Nat.le_max_r _ _) Hr2).
Qed.




Local Close Scope R_scope.
Local Open Scope float_scope.


(** C10, as stated, fails in binary64: at the finite input 1e19 the
    subtraction [1e19 - 360.0] rounds back to 1e19, so the first loop of
    [NormalizeDegrees] never ends. *)
Lemma NormalizeDegrees_diverges_1e19 :
  ~ (exists fuel r, NormalizeDegrees fuel 1e19 = Some r).
Proof.
  intros [fuel [r H]]. unfold NormalizeDegrees in H.
  rewrite (NormalizeDegrees_while_gt_stuck 1e19) in H by reflexivity.
  discriminate.
Qed.

End LeafFacts.

(** ** The hour-angle solver *)

Create Rewrite HintDb nan_prop.

Section SolverFacts.

Local Open Scope float_scope.

#[local] Hint Rewrite add_nan_l add_nan_r sub_nan_l sub_nan_r
  mul_nan_l mul_nan_r div_nan_l div_nan_r opp_nan : nan_prop.

Lemma sub_eq_nan_finite_r (x y : float) :
  SF_is_finite (Prim2SF y) = true -> (x - y = nan <-> x = nan).
Proof.
  intros Hy. rewrite !eq_nan_SF, FloatAxioms.sub_spec.
  apply SFsub_nan_finite_r. exact Hy.
Qed.

Lemma sub_eq_nan_finite_l (x y : float) :
  SF_is_finite (Prim2SF x) = true -> (x - y = nan <-> y = nan).
Proof.
  intros Hx. rewrite !eq_nan_SF, FloatAxioms.sub_spec.
  apply SFsub_nan_finite_l. exact Hx.
Qed.

Lemma add_eq_nan_finite_l (x y : float) :
  SF_is_finite (Prim2SF x) = true -> (x + y = nan <-> y = nan).
Proof.
  intros Hx. rewrite !eq_nan_SF, FloatAxioms.add_spec.
  apply SFadd_nan_finite_l. exact Hx.
Qed.

(** The sampled library obeys the domain rule of [acos]. *)
#[local] Instance Libm_sampled_C99 : LibmC99 Libm_sampled.
Proof.
  constructor. intros x Hx. simpl.
  destruct Hx as [Hx|Hx]; rewrite Hx; [reflexivity|].
  rewrite orb_true_r. reflexivity.
Qed.

Context {libm : Libm}.

Lemma EquationOfTime_nan : EquationOfTime nan = nan.
Proof.
  unfold EquationOfTime. cbv zeta.
  replace (EccentricityEarth nan) with nan by reflexivity.
  unfold DEG2MIN, RAD2DEG. autorewrite with nan_prop. reflexivity.
Qed.

(** A pass at an undefined instant is undefined. *)
Lemma UTCForSolarAngleAux_nan_jd (rise : Z) (latitudeRad angleRad : float) :
  UTCForSolarAngleAux rise nan latitudeRad angleRad = nan.
Proof.
  unfold UTCForSolarAngleAux. cbv zeta.
  replace (JulianCenturyFromJulianDay nan) with nan by reflexivity.
  rewrite EquationOfTime_nan. apply sub_nan_r.
Qed.

(** A pass whose hour angle is undefined is undefined. *)
Lemma UTCForSolarAngleAux_nan_hour_angle (rise : Z) (jd latitudeRad angleRad : float) :
  LocalHourAngleSunRad latitudeRad
    (SunDeclinationRad (JulianCenturyFromJulianDay jd)) angleRad = nan ->
  UTCForSolarAngleAux rise jd latitudeRad angleRad = nan.
Proof.
  intros H. unfold UTCForSolarAngleAux. cbv zeta. rewrite H.
  destruct (rise =? 0)%Z; unfold RAD2DEG; autorewrite with nan_prop; reflexivity.
Qed.

(** An undefined first pass makes the returned second pass undefined. *)
Lemma UTCForSolarAngle_nan_first_pass (rise : Z) (jd latitude angle : float) :
  UTCForSolarAngleAux rise jd (DEG2RAD latitude) (DEG2RAD angle) = nan ->
  UTCForSolarAngle rise jd latitude angle = nan.
Proof.
  intros H. unfold UTCForSolarAngle. cbv zeta. rewrite H.
  autorewrite with nan_prop. apply UTCForSolarAngleAux_nan_jd.
Qed.

(** The two sides of one pass: the hour-angle term enters with opposite
    signs, the equation of time is shared. *)
Lemma UTCForSolarAngleAux_rise (jd latitudeRad angleRad : float) :
  UTCForSolarAngleAux 1 jd latitudeRad angleRad =
  720.0 - 4.0 * RAD2DEG (LocalHourAngleSunRad latitudeRad
            (SunDeclinationRad (JulianCenturyFromJulianDay jd)) angleRad)
        - EquationOfTime (JulianCenturyFromJulianDay jd).
Proof. reflexivity. Qed.

Lemma UTCForSolarAngleAux_set (jd latitudeRad angleRad : float) :
  UTCForSolarAngleAux 0 jd latitudeRad angleRad =
  720.0 + 4.0 * RAD2DEG (LocalHourAngleSunRad latitudeRad
            (SunDeclinationRad (JulianCenturyFromJulianDay jd)) angleRad)
        - EquationOfTime (JulianCenturyFromJulianDay jd).
Proof.
  unfold UTCForSolarAngleAux. cbv zeta. cbn [Z.eqb]. unfold RAD2DEG.
  rewrite mul_opp_l, mul_opp_r, sub_opp_r. reflexivity.
Qed.

Lemma UTCForSolarAngleAux_nan_together (jd latitudeRad angleRad : float) :
  is_infinity (EquationOfTime (JulianCenturyFromJulianDay jd)) = false ->
  (UTCForSolarAngleAux 1 jd latitudeRad angleRad = nan <->
   UTCForSolarAngleAux 0 jd latitudeRad angleRad = nan).
Proof.
  intros HE. rewrite UTCForSolarAngleAux_rise, UTCForSolarAngleAux_set.
  destruct (is_infinity_false_SF _ HE) as [Hnan|Hfin].
  - apply eq_nan_SF in Hnan. rewrite Hnan, !sub_nan_r. tauto.
  - rewrite !(sub_eq_nan_finite_r _ _ Hfin).
    rewrite sub_eq_nan_finite_l, add_eq_nan_finite_l by reflexivity. tauto.
Qed.

(** C8. The convenience form of the equation of center is the general form
    at the mean anomaly of the same century time, bit for bit. *)
Theorem EquationOfCenterSun_agrees (centuryTime : float) :
  EquationOfCenterSun centuryTime =
  EquationOfCenterSunEx centuryTime (GeometricMeanAnomalySun centuryTime).
Proof. reflexivity. Qed.

(** C4. [UTCForSolarAngle] is two passes and no more: [UTCForSolarAngleAux]
    at the input [jd] is the specification's pass there (equation of time and
    declination at the century time of [jd], hour angle negated when [rise]
    is 0), and the returned value is that same pass evaluated once more at
    [jd + firstPassMinutes / 1440]. *)
Theorem UTCForSolarAngle_two_pass (rise : Z) (jd latitude angle : float) :
  let latitudeRad := latitude * (M_PI / 180.0) in
  let angleRad := angle * (M_PI / 180.0) in
  let firstPassMinutes := spec_pass rise jd latitudeRad angleRad in
  UTCForSolarAngleAux rise jd latitudeRad angleRad = firstPassMinutes /\
  UTCForSolarAngle rise jd latitude angle =
    spec_pass rise (jd + firstPassMinutes / 1440.0) latitudeRad angleRad.
Proof. split; reflexivity. Qed.

(** C5. With a C library that follows C99 for [acos], a cosine of the hour
    angle outside [-1, 1] makes [LocalHourAngleSunRad] return NaN, and
    [UTCForSolarAngle] returns NaN whenever the cosine of its first pass or
    of its second pass lies outside [-1, 1]: no pass masks the NaN. *)
Theorem UTCForSolarAngle_nan_outside_unit (C99 : LibmC99 libm) :
  (forall latitudeRad declinationRad angleRad : float,
     outside_unit (cosHA latitudeRad declinationRad angleRad) = true ->
     LocalHourAngleSunRad latitudeRad declinationRad angleRad = nan) /\
  (forall (rise : Z) (jd latitude angle : float),
     let latitudeRad := DEG2RAD latitude in
     let angleRad := DEG2RAD angle in
     let firstTime := UTCForSolarAngleAux rise jd latitudeRad angleRad in
     outside_unit (cosHA latitudeRad
        (SunDeclinationRad (JulianCenturyFromJulianDay jd)) angleRad) = true \/
     outside_unit (cosHA latitudeRad
        (SunDeclinationRad (JulianCenturyFromJulianDay (jd + firstTime / MIN_PER_DAY)))
        angleRad) = true ->
     UTCForSolarAngle rise jd latitude angle = nan).
Proof.
  assert (Hacos : forall latitudeRad declinationRad angleRad : float,
     outside_unit (cosHA latitudeRad declinationRad angleRad) = true ->
     LocalHourAngleSunRad latitudeRad declinationRad angleRad = nan).
  { intros lat decl ang H. unfold LocalHourAngleSunRad. cbv zeta.
    apply acos_domain. unfold outside_unit in H.
    apply orb_true_iff in H. exact H. }
  split; [exact Hacos|].
  intros rise jd latitude angle latitudeRad angleRad firstTime [H|H].
  - apply UTCForSolarAngle_nan_first_pass, UTCForSolarAngleAux_nan_hour_angle, Hacos, H.
  - unfold UTCForSolarAngle. cbv zeta.
    apply UTCForSolarAngleAux_nan_hour_angle, Hacos, H.
Qed.

(** C2, amended. Within one pass (the same [jd], latitude and angle) the
    rising value is [720 - a - E] and the setting value [720 + a - E] for the
    same hour-angle term [a = 4 H(degrees)] and the same equation of time
    [E]: they differ by twice the hour-angle term and, [E] not being
    infinite, one is NaN exactly when the other is; when that first pass is
    NaN, [UTCForSolarAngle] is NaN on both sides.  (The second pass of
    [UTCForSolarAngle] runs at [jd + firstTime / 1440], an instant that
    differs between rising and setting.) *)
Theorem UTCForSolarAngleAux_rise_set (jd latitude angle : float) :
  let latitudeRad := DEG2RAD latitude in
  let angleRad := DEG2RAD angle in
  let T := JulianCenturyFromJulianDay jd in
  let a := 4.0 * RAD2DEG (LocalHourAngleSunRad latitudeRad (SunDeclinationRad T) angleRad) in
  let E := EquationOfTime T in
  is_infinity E = false ->
  UTCForSolarAngleAux 1 jd latitudeRad angleRad = 720.0 - a - E /\
  UTCForSolarAngleAux 0 jd latitudeRad angleRad = 720.0 + a - E /\
  (UTCForSolarAngleAux 1 jd latitudeRad angleRad = nan <->
   UTCForSolarAngleAux 0 jd latitudeRad angleRad = nan) /\
  (UTCForSolarAngleAux 1 jd latitudeRad angleRad = nan ->
   UTCForSolarAngle 1 jd latitude angle = nan /\
   UTCForSolarAngle 0 jd latitude angle = nan).
Proof.
  intros latitudeRad angleRad T a E HE.
  pose proof (UTCForSolarAngleAux_nan_together jd latitudeRad angleRad HE) as Hiff.
  split; [apply UTCForSolarAngleAux_rise|].
  split; [apply UTCForSolarAngleAux_set|].
  split; [exact Hiff|].
  intros H1. split; apply UTCForSolarAngle_nan_first_pass; [exact H1|].
  apply Hiff, H1.
Qed.

End SolverFacts.

Section SolverAtLatitude72.

Local Open Scope float_scope.

#[local] Existing Instance Libm_sampled.

(** C2, as stated, fails on the almanac date of [main.c]: at latitude 72
    degrees on 1994-05-08 the Sun's upper limb rises at 31.2 minutes UTC
    while the setting side of the same call is NaN.  Both first passes are
    finite (31.8 and 1401.3 minutes); the second pass of the rising side
    meets the cosine -0.9885, that of the setting side the cosine -1.0038,
    outside the domain of [acos]. *)
Lemma UTCForSolarAngle_rise_without_set :
  let jd := JulianDayEx 1994 5 8.0 in
  let latitudeRad := DEG2RAD 72.0 in
  let angleRad := DEG2RAD kRiseOrSet in
  let cosine rise :=
    cosHA latitudeRad
      (SunDeclinationRad (JulianCenturyFromJulianDay
         (jd + UTCForSolarAngleAux rise jd latitudeRad angleRad / MIN_PER_DAY)))
      angleRad in
  UTCForSolarAngleAux 1 jd latitudeRad angleRad = 31.771966541817068 /\
  UTCForSolarAngleAux 0 jd latitudeRad angleRad = 1401.2511285710407 /\
  cosine 1%Z = -0.988543747403889 /\
  cosine 0%Z = -1.0037695408104954 /\
  UTCForSolarAngle 1 jd 72.0 kRiseOrSet = 31.234575949732346 /\
  UTCForSolarAngle 0 jd 72.0 kRiseOrSet = nan.
Proof. repeat split; vm_compute; reflexivity. Qed.

(** The theorem on the almanac date at latitude 72 degrees. *)
Lemma UTCForSolarAngleAux_rise_set_witness :
  UTCForSolarAngleAux 1 (JulianDayEx 1994 5 8.0)
    (DEG2RAD 72.0) (DEG2RAD kRiseOrSet) = 31.771966541817068 /\
  UTCForSolarAngleAux 0 (JulianDayEx 1994 5 8.0)
    (DEG2RAD 72.0) (DEG2RAD kRiseOrSet) = 1401.2511285710407.
Proof.
  destruct (UTCForSolarAngleAux_rise_set
              (JulianDayEx 1994 5 8.0) 72.0 kRiseOrSet) as [H1 [H0 _]].
  - vm_compute. reflexivity.
  - split.
    + rewrite H1. vm_compute. reflexivity.
    + rewrite H0. vm_compute. reflexivity.
Defined.

(** The theorem for nautical twilight on the almanac date at latitude 72
    degrees, where the first pass already meets the cosine -1.64. *)
Lemma UTCForSolarAngle_nan_outside_unit_witness :
  outside_unit (cosHA (DEG2RAD 72.0)
    (SunDeclinationRad (JulianCenturyFromJulianDay (JulianDayEx 1994 5 8.0)))
    (DEG2RAD kNauticalTwilight)) = true /\
  UTCForSolarAngle 1 (JulianDayEx 1994 5 8.0) 72.0 kNauticalTwilight
    = nan.
Proof.
  split.
  - vm_compute. reflexivity.
  - apply (UTCForSolarAngle_nan_outside_unit Libm_sampled_C99).
    left. vm_compute. reflexivity.
Defined.

End SolverAtLatitude72.

(** ** Termination of [NormalizeDegrees] in binary64 *)

Section NormalizeDegreesBinary64.

Local Open Scope Z_scope.

Lemma Prim2SF_360 : Prim2SF 360%float = S754_finite false mantissa_360 (-44).
Proof. reflexivity. Qed.

(** What validity says of a mantissa. *)
Lemma bounded_mantissa (mx : positive) (ex : Z) :
  SpecFloat.bounded prec emax mx ex = true ->
  -1074 <= ex /\ Z.pos mx < 2 ^ 53 /\ (-1074 < ex -> 2 ^ 52 <= Z.pos mx).
Proof.
  unfold SpecFloat.bounded, canonical_mantissa, fexp, SpecFloat.emin, prec, emax.
  intros H. apply andb_true_iff in H. destruct H as [H _].
  apply Z.eqb_eq in H.
  pose proof (digits2_pos_bounds mx) as [Dlo Dhi].
  set (d := Z.pos (digits2_pos mx)) in *.
  assert (Hd : d <= 53) by lia.
  split; [lia|]. split.
  - assert (2 ^ d <= 2 ^ 53) by (apply Z.pow_le_mono_r; lia). lia.
  - intros Hex. assert (d = 53) by lia. subst d.
    replace 52 with (Z.pos (digits2_pos mx) - 1) by lia. exact Dlo.
Qed.

(** The magnitude of a number above 360 and below 2^60 strictly decreases
    when 360 is taken away from it. *)
Lemma round_difference_lt (s : bool) (mx : positive) (ex : Z) :
  SpecFloat.bounded prec emax mx ex = true ->
  -44 < ex \/ (ex = -44 /\ Z.pos mantissa_360 < Z.pos mx) ->
  ex <= 7 ->
  exists (m : positive) (e : Z),
    binary_normalize prec emax
      (cond_Zopp s (Z.pos (fst (shl_align mx ex (-44))) - Z.pos mantissa_360)) (-44) false
    = S754_finite s m e /\
    (e < ex \/ (e = ex /\ Z.pos m < Z.pos mx)).
Proof.
  intros Hb Hgt Hex. unfold mantissa_360 in *.
  destruct (bounded_mantissa mx ex Hb) as [_ [Hhi Hlo]].
  specialize (Hlo ltac:(lia)).
  assert (HV : Z.pos (fst (shl_align mx ex (-44))) = Z.pos mx * 2 ^ (ex + 44)).
  { unfold shl_align. destruct (-44 - ex) as [|d|d] eqn:E; cbn [fst].
    - replace (ex + 44) with 0 by lia. lia.
    - lia.
    - rewrite iter_xO_pow. f_equal. f_equal. lia. }
  set (V := Z.pos (fst (shl_align mx ex (-44)))) in *.
  assert (HP1 : 1 <= 2 ^ (ex + 44)).
  { change 1 with (2 ^ 0). apply Z.pow_le_mono_r; lia. }
  assert (HP2 : 2 ^ (ex + 44) <= 2 ^ 51) by (apply Z.pow_le_mono_r; lia).
  change (2 ^ 51) with 2251799813685248 in HP2.
  change (2 ^ 52) with 4503599627370496 in *.
  change (2 ^ 53) with 9007199254740992 in *.
  assert (HVM : 6333186975989760 < V).
  { rewrite HV. destruct Hgt as [Hgt|[Hgt Hm]].
    - assert (2 ^ 1 <= 2 ^ (ex + 44)) by (apply Z.pow_le_mono_r; lia).
      change (2 ^ 1) with 2 in *.
      revert H. generalize (2 ^ (ex + 44)). intros P HP. nia.
    - subst ex. change (2 ^ (-44 + 44)) with 1. lia. }
  assert (HV104 : V < 2 ^ 104).
  { rewrite HV. change (2 ^ 104) with (9007199254740992 * 2251799813685248). nia. }
  destruct (V - 6333186975989760) as [|z|z] eqn:Ez; try lia.
  destruct (binary_round_m44 s z) as [m [e [HR [Hm [He Hval]]]]]; [lia|].
  exists m, e. split.
  - destruct s; exact HR.
  - assert (Hlt : Z.pos m * 2 ^ (e + 97) < Z.pos mx * 2 ^ (ex + 97)).
    { replace (ex + 97) with ((ex + 44) + 53) by lia.
      rewrite (Z.pow_add_r 2 (ex + 44) 53), Z.mul_assoc, <- HV by lia.
      change (2 ^ 53) with 9007199254740992 in *.
      change (2 ^ 104) with 20282409603651670423947251286016 in *.
      lia. }
    apply (normal_value_lt (Z.pos m) (Z.pos mx) e ex); lia.
Qed.


Lemma SFltb_360_finite (mx : positive) (ex : Z) :
  SFltb (S754_finite false mantissa_360 (-44)) (S754_finite false mx ex) = true ->
  -44 < ex \/ (ex = -44 /\ Z.pos mantissa_360 < Z.pos mx).
Proof.
  unfold SFltb, SFcompare. destruct (Z.compare_spec (-44) ex) as [E|E|E].
  - rewrite Pos.compare_cont_spec, Pos2Z.inj_compare. cbn [Pos.switch_Eq].
    destruct (Z.compare_spec (Z.pos mantissa_360) (Z.pos mx)) as [H1|H1|H1].
    + discriminate.
    + intros _. right. split; lia.
    + discriminate.
  - intros _. left. exact E.
  - discriminate.
Qed.

(** One turn of the first loop on a positive number. *)
Lemma sub_360_step (x : float) (mx : positive) (ex : Z) :
  Prim2SF x = S754_finite false mx ex ->
  (360 <? x)%float = true -> ex <= 7 ->
  exists (m : positive) (e : Z),
    Prim2SF (x - 360)%float = S754_finite false m e /\
    (e < ex \/ (e = ex /\ Z.pos m < Z.pos mx)).
Proof.
  intros Hx Hgt Hex.
  pose proof (Prim2SF_valid x) as Hv. rewrite Hx in Hv. cbn [valid_binary] in Hv.
  rewrite FloatAxioms.ltb_spec, Hx in Hgt.
  change (Prim2SF 360%float) with (S754_finite false mantissa_360 (-44)) in Hgt.
  apply SFltb_360_finite in Hgt.
  destruct (round_difference_lt false mx ex Hv Hgt Hex) as [m [e [HR Hlex]]].
  exists m, e. split; [|exact Hlex].
  rewrite FloatAxioms.sub_spec, Hx.
  change (Prim2SF 360%float) with (S754_finite false mantissa_360 (-44)).
  unfold SF64sub, SFsub.
  replace (Z.min ex (-44)) with (-44) by lia.
  change (fst (shl_align mantissa_360 (-44) (-44))) with mantissa_360.
  revert HR. generalize (fst (shl_align mx ex (-44))). intros p HR.
  replace (cond_Zopp false (Z.pos p) - cond_Zopp false (Z.pos mantissa_360))
    with (cond_Zopp false (Z.pos p - Z.pos mantissa_360)) by (unfold cond_Zopp; lia).
  exact HR.
Qed.

(** One turn of the second loop on a negative number below -360. *)
Lemma add_360_step (x : float) (mx : positive) (ex : Z) :
  Prim2SF x = S754_finite true mx ex ->
  -44 < ex \/ (ex = -44 /\ Z.pos mantissa_360 < Z.pos mx) -> ex <= 7 ->
  exists (m : positive) (e : Z),
    Prim2SF (x + 360)%float = S754_finite true m e /\
    (e < ex \/ (e = ex /\ Z.pos m < Z.pos mx)).
Proof.
  intros Hx Hgt Hex.
  pose proof (Prim2SF_valid x) as Hv. rewrite Hx in Hv. cbn [valid_binary] in Hv.
  destruct (round_difference_lt true mx ex Hv Hgt Hex) as [m [e [HR Hlex]]].
  exists m, e. split; [|exact Hlex].
  rewrite FloatAxioms.add_spec, Hx.
  change (Prim2SF 360%float) with (S754_finite false mantissa_360 (-44)).
  unfold SF64add, SFadd.
  replace (Z.min ex (-44)) with (-44) by lia.
  change (fst (shl_align mantissa_360 (-44) (-44))) with mantissa_360.
  revert HR. generalize (fst (shl_align mx ex (-44))). intros p HR.
  replace (cond_Zopp true (Z.pos p) + cond_Zopp false (Z.pos mantissa_360))
    with (cond_Zopp true (Z.pos p - Z.pos mantissa_360)) by (unfold cond_Zopp; lia).
  exact HR.
Qed.


(** A sum that is exactly non-negative does not round below zero. *)
Lemma binary_round_aux_false_nonneg (m e : Z) (l : location) :
  0 <= m -> SFleb (S754_zero false) (binary_round_aux prec emax false m e l) = true.
Proof.
  intros Hm. unfold binary_round_aux.
  pose proof (shr_fexp_nonneg m e l Hm) as H1.
  destruct (shr_fexp prec emax m e l) as [mrs' e']. simpl in H1.
  pose proof (shr_fexp_nonneg _ e' loc_Exact
                (round_nearest_even_nonneg _ (loc_of_shr_record mrs') H1)) as H2.
  destruct (shr_fexp prec emax _ e' loc_Exact) as [mrs'' e'']. simpl in H2.
  destruct (shr_m mrs'') as [|q|q].
  - reflexivity.
  - destruct (e'' <=? emax - prec); reflexivity.
  - lia.
Qed.

Lemma binary_normalize_nonneg (w e : Z) :
  0 <= w -> SFleb (S754_zero false) (binary_normalize prec emax w e false) = true.
Proof.
  intros Hw. destruct w as [|p|p]; [reflexivity| |lia].
  unfold binary_normalize, binary_round.
  destruct (shl_align p e _) as [mz ez].
  apply binary_round_aux_false_nonneg. lia.
Qed.

(** The last turn of the second loop: from [-360, 0) the sum is not negative. *)
Lemma add_360_nonneg (x : float) (mx : positive) (ex : Z) :
  Prim2SF x = S754_finite true mx ex ->
  ~ (-44 < ex \/ (ex = -44 /\ Z.pos mantissa_360 < Z.pos mx)) ->
  (0 <=? x + 360)%float = true.
Proof.
  intros Hx Hle.
  pose proof (Prim2SF_valid x) as Hv. rewrite Hx in Hv. cbn [valid_binary] in Hv.
  destruct (bounded_mantissa mx ex Hv) as [_ [Hhi _]].
  rewrite FloatAxioms.leb_spec, FloatAxioms.add_spec, Hx.
  change (Prim2SF 360%float) with (S754_finite false mantissa_360 (-44)).
  change (Prim2SF 0%float) with (S754_zero false).
  unfold SF64add, SFadd. apply binary_normalize_nonneg.
  replace (Z.min ex (-44)) with ex by lia.
  assert (HV : fst (shl_align mx ex ex) = mx).
  { unfold shl_align. rewrite Z.sub_diag. reflexivity. }
  rewrite HV. unfold cond_Zopp.
  change (2 ^ 53) with 9007199254740992 in Hhi.
  unfold shl_align. destruct (ex - -44) as [|d|d] eqn:E; cbn [fst].
  - unfold mantissa_360 in *. lia.
  - lia.
  - rewrite iter_xO_pow.
    assert (2 ^ 1 <= 2 ^ Z.pos d) by (apply Z.pow_le_mono_r; lia).
    change (2 ^ 1) with 2 in *. unfold mantissa_360. lia.
Qed.

Lemma SFleb_360 (m : positive) (e : Z) :
  ~ (-44 < e \/ (e = -44 /\ Z.pos mantissa_360 < Z.pos m)) ->
  SFleb (S754_finite false m e) (S754_finite false mantissa_360 (-44)) = true.
Proof.
  intros H. unfold SFleb, SFcompare.
  destruct (Z.compare_spec e (-44)) as [E|E|E].
  - rewrite Pos.compare_cont_spec, Pos2Z.inj_compare. cbn [Pos.switch_Eq].
    destruct (Z.compare_spec (Z.pos m) (Z.pos mantissa_360)) as [H1|H1|H1];
      [reflexivity|reflexivity|lia].
  - reflexivity.
  - lia.
Qed.

(** For numbers that are not NaN, "not below" is "at least". *)
Lemma SFleb_zero_not_ltb (X : spec_float) :
  SFleb (S754_zero false) X = true -> SFltb X (S754_zero false) = false.
Proof. destruct X as [[]|[]| |[] m e]; simpl; intros H; try reflexivity; discriminate. Qed.

Lemma SFltb_360_false_leb (s : bool) (m : positive) (e : Z) :
  SFltb (S754_finite false mantissa_360 (-44)) (S754_finite s m e) = false ->
  SFleb (S754_finite s m e) (S754_finite false mantissa_360 (-44)) = true.
Proof.
  intros H. destruct s; [reflexivity|]. apply SFleb_360. intros Hgt.
  revert H. unfold SFltb, SFcompare.
  destruct (Z.compare_spec (-44) e) as [E|E|E].
  - rewrite Pos.compare_cont_spec, Pos2Z.inj_compare. cbn [Pos.switch_Eq].
    destruct (Z.compare_spec (Z.pos mantissa_360) (Z.pos m)) as [H1|H1|H1].
    + intros _. lia.
    + discriminate.
    + intros _. lia.
  - discriminate.
  - intros _. lia.
Qed.

(** The last turn of the second loop does not overshoot: from [-360, 0) the
    rounded sum is at most 360. *)
Lemma add_360_le_360 (x : float) (mx : positive) (ex : Z) :
  Prim2SF x = S754_finite true mx ex ->
  ~ (-44 < ex \/ (ex = -44 /\ Z.pos mantissa_360 < Z.pos mx)) ->
  (x + 360 <=? 360)%float = true.
Proof.
  intros Hx Hle.
  pose proof (Prim2SF_valid x) as Hv. rewrite Hx in Hv. cbn [valid_binary] in Hv.
  destruct (bounded_mantissa mx ex Hv) as [Hex [Hhi _]].
  rewrite FloatAxioms.leb_spec, FloatAxioms.add_spec, Hx.
  change (Prim2SF 360%float) with (S754_finite false mantissa_360 (-44)).
  unfold SF64add, SFadd.
  replace (Z.min ex (-44)) with ex by lia.
  assert (HV : fst (shl_align mx ex ex) = mx).
  { unfold shl_align. rewrite Z.sub_diag. reflexivity. }
  rewrite HV. clear HV.
  assert (HM : Z.pos (fst (shl_align mantissa_360 (-44) ex))
               = Z.pos mantissa_360 * 2 ^ (-44 - ex)).
  { unfold shl_align. destruct (ex - -44) as [|d|d] eqn:E; cbn [fst].
    - replace (-44 - ex) with 0 by lia. lia.
    - lia.
    - rewrite iter_xO_pow. f_equal. f_equal. lia. }
  revert HM. generalize (fst (shl_align mantissa_360 (-44) ex)). intros M' HM.
  unfold cond_Zopp.
  set (k := -44 - ex) in *.
  assert (Hk : 0 <= k) by (unfold k; lia).
  assert (HPk : 0 < 2 ^ k) by (apply Z.pow_pos_nonneg; lia).
  change (2 ^ 53) with 9007199254740992 in Hhi.
  assert (Hw : 0 <= - Z.pos mx + Z.pos M').
  { rewrite HM. unfold mantissa_360 in *.
    assert (k = 0 \/ 1 <= k) as [Hk0|Hk1] by lia.
    - rewrite Hk0. change (2 ^ 0) with 1. unfold k in Hk0. lia.
    - assert (2 ^ 1 <= 2 ^ k) by (apply Z.pow_le_mono_r; lia).
      change (2 ^ 1) with 2 in *. lia. }
  destruct (- Z.pos mx + Z.pos M') as [|z|z] eqn:Ez; [reflexivity| |lia].
  cbn [binary_normalize].
  pose proof (digits2_pos_bounds z) as [Dlo Dhi].
  assert (Hzlt : Z.pos z < Z.pos mantissa_360 * 2 ^ k) by lia.
  assert (Hdhi : Z.pos (digits2_pos z) <= 53 + k).
  { destruct (Z.le_gt_cases (Z.pos (digits2_pos z)) (53 + k)) as [H|H]; [exact H|exfalso].
    assert (2 ^ (53 + k) <= 2 ^ (Z.pos (digits2_pos z) - 1))
      by (apply Z.pow_le_mono_r; lia).
    rewrite Z.pow_add_r in H0 by lia.
    change (2 ^ 53) with 9007199254740992 in H0. unfold mantissa_360 in Hzlt. nia. }
  assert (Hdlo : k = 0 \/ 51 + k <= Z.pos (digits2_pos z)).
  { assert (k = 0 \/ 1 <= k) as [Hk0|Hk1] by lia; [left; exact Hk0|right].
    destruct (Z.le_gt_cases (51 + k) (Z.pos (digits2_pos z))) as [H|H]; [exact H|exfalso].
    assert (2 ^ Z.pos (digits2_pos z) <= 2 ^ (50 + k))
      by (apply Z.pow_le_mono_r; lia).
    rewrite Z.pow_add_r in H0 by lia.
    assert (2 ^ 1 <= 2 ^ k) by (apply Z.pow_le_mono_r; lia).
    change (2 ^ 1) with 2 in *.
    change (2 ^ 50) with 1125899906842624 in H0.
    rewrite HM in Ez. unfold mantissa_360 in Ez. nia. }
  destruct (binary_round_normal false z ex) as [m [e [HR [Hm Hcase]]]];
    try (unfold k in *; lia).
  rewrite HR. apply SFleb_360.
  destruct Hcase as [[Hd [He Hval]]|[Hd [He Hval]]].
  - intros [Hgt|[Heq Hlt]]; [unfold k in *; lia|].
    assert (Hd53 : Z.pos (digits2_pos z) = 53) by (unfold k in *; lia).
    assert (Hk0 : k = 0) by (unfold k in *; lia).
    rewrite Hd53 in Hval. change (2 ^ (53 - 53)) with 1 in Hval.
    rewrite Hk0 in Hzlt. change (2 ^ 0) with 1 in Hzlt. lia.
  - set (n := Z.pos (digits2_pos z) - 53) in *.
    assert (Hn : 0 < n <= k) by (unfold n; lia).
    assert (HPn : 0 < 2 ^ n) by (apply Z.pow_pos_nonneg; lia).
    assert (Hsplit : 2 ^ k = 2 ^ (k - n) * 2 ^ n)
      by (rewrite <- Z.pow_add_r by lia; f_equal; lia).
    assert (Hq : Z.pos z / 2 ^ n < Z.pos mantissa_360 * 2 ^ (k - n)).
    { apply Z.div_lt_upper_bound; [lia|].
      rewrite (Z.mul_comm (2 ^ n)), <- Z.mul_assoc, <- Hsplit. exact Hzlt. }
    assert (Hub : (Z.pos z / 2 ^ n + 1) * 2 ^ n <= Z.pos mantissa_360 * 2 ^ k).
    { rewrite Hsplit, Z.mul_assoc. apply Z.mul_le_mono_nonneg_r; lia. }
    apply (normal_value_le (Z.pos m) (Z.pos mantissa_360) e (-44) ex); try lia.
    + unfold mantissa_360. change (2 ^ 52) with 4503599627370496.
      change (2 ^ 53) with 9007199254740992. lia.
    + fold k. lia.
Qed.

(** A number of magnitude at most 1e18 is a zero or has exponent at most 7. *)
Lemma small_magnitude_SF (x : float) :
  (abs x <=? 1e18)%float = true ->
  (exists s, Prim2SF x = S754_zero s) \/
  (exists s mx ex, Prim2SF x = S754_finite s mx ex /\ ex <= 7).
Proof.
  rewrite FloatAxioms.leb_spec, FloatAxioms.abs_spec.
  change (Prim2SF 1e18%float) with (S754_finite false 7812500000000000 7).
  destruct (Prim2SF x) as [s|s| |s mx ex]; try discriminate.
  - intros _. left. exists s. reflexivity.
  - intros H. right. exists s, mx, ex. split; [reflexivity|].
    unfold SFabs, SFleb, SFcompare in H.
    destruct (Z.compare_spec ex 7); first [lia | discriminate].
Qed.

Lemma NormalizeDegrees_while_gt_double (n : nat) (x : float) :
  NormalizeDegrees_while_gt (S n) x =
  if (360 <? x)%float then NormalizeDegrees_while_gt n (x - 360)%float else Some x.
Proof. reflexivity. Qed.

Lemma NormalizeDegrees_while_lt_double (n : nat) (x : float) :
  NormalizeDegrees_while_lt (S n) x =
  if (x <? 0)%float then NormalizeDegrees_while_lt n (x + 360)%float else Some x.
Proof. reflexivity. Qed.

Lemma leb_zero_not_ltb (r : float) :
  (0 <=? r)%float = true -> (r <? 0)%float = false.
Proof.
  rewrite FloatAxioms.leb_spec, FloatAxioms.ltb_spec.
  change (Prim2SF 0%float) with (S754_zero false). apply SFleb_zero_not_ltb.
Qed.

(** The measure that both loops decrease: exponent, then mantissa. *)
Lemma lex_measure (m mx : positive) (e ex : Z) :
  SpecFloat.bounded prec emax m e = true ->
  e < ex \/ (e = ex /\ Z.pos m < Z.pos mx) ->
  (e + 1074) * 2 ^ 53 + Z.pos m < (ex + 1074) * 2 ^ 53 + Z.pos mx.
Proof.
  intros Hb Hlex. destruct (bounded_mantissa m e Hb) as [He [Hm _]].
  change (2 ^ 53) with 9007199254740992 in *. nia.
Qed.

Lemma NormalizeDegrees_while_gt_binary64 (N : nat) :
  forall (x : float) (mx : positive) (ex : Z),
    Prim2SF x = S754_finite false mx ex -> ex <= 7 ->
    (ex + 1074) * 2 ^ 53 + Z.pos mx <= Z.of_nat N ->
    exists fuel r,
      NormalizeDegrees_while_gt fuel x = Some r /\
      (0 <=? r)%float = true /\ (r <=? 360)%float = true.
Proof.
  induction N as [|N IH]; intros x mx ex Hx Hex HN.
  - pose proof (Prim2SF_valid x) as Hv. rewrite Hx in Hv. cbn [valid_binary] in Hv.
    destruct (bounded_mantissa mx ex Hv) as [He _].
    change (2 ^ 53) with 9007199254740992 in *. lia.
  - destruct (360 <? x)%float eqn:Hgt.
    + destruct (sub_360_step x mx ex Hx Hgt Hex) as [m [e [Hy Hlex]]].
      pose proof (Prim2SF_valid (x - 360)%float) as Hv.
      rewrite Hy in Hv. cbn [valid_binary] in Hv.
      pose proof (lex_measure m mx e ex Hv Hlex) as Hlt.
      destruct (IH (x - 360)%float m e Hy ltac:(lia) ltac:(lia)) as [fuel [r [Hr Hr0]]].
      exists (S fuel), r. rewrite NormalizeDegrees_while_gt_double, Hgt. auto.
    + exists 1%nat, x. rewrite NormalizeDegrees_while_gt_double, Hgt.
      split; [reflexivity|]. split.
      * rewrite FloatAxioms.leb_spec, Hx. reflexivity.
      * rewrite FloatAxioms.ltb_spec, Hx in Hgt.
        change (Prim2SF 360%float) with (S754_finite false mantissa_360 (-44)) in Hgt.
        rewrite FloatAxioms.leb_spec, Hx.
        change (Prim2SF 360%float) with (S754_finite false mantissa_360 (-44)).
        apply SFltb_360_false_leb, Hgt.
Qed.

Lemma NormalizeDegrees_while_lt_binary64 (N : nat) :
  forall (x : float) (mx : positive) (ex : Z),
    Prim2SF x = S754_finite true mx ex -> ex <= 7 ->
    (ex + 1074) * 2 ^ 53 + Z.pos mx <= Z.of_nat N ->
    exists fuel r,
      NormalizeDegrees_while_lt fuel x = Some r /\
      (0 <=? r)%float = true /\ (r <=? 360)%float = true.
Proof.
  induction N as [|N IH]; intros x mx ex Hx Hex HN.
  - pose proof (Prim2SF_valid x) as Hv. rewrite Hx in Hv. cbn [valid_binary] in Hv.
    destruct (bounded_mantissa mx ex Hv) as [He _].
    change (2 ^ 53) with 9007199254740992 in *. lia.
  - assert (Hneg : (x <? 0)%float = true)
      by (rewrite FloatAxioms.ltb_spec, Hx; reflexivity).
    assert (Hcase : (-44 < ex \/ (ex = -44 /\ Z.pos mantissa_360 < Z.pos mx)) \/
                    ~ (-44 < ex \/ (ex = -44 /\ Z.pos mantissa_360 < Z.pos mx))) by lia.
    destruct Hcase as [Hgt|Hle].
    + destruct (add_360_step x mx ex Hx Hgt Hex) as [m [e [Hy Hlex]]].
      pose proof (Prim2SF_valid (x + 360)%float) as Hv.
      rewrite Hy in Hv. cbn [valid_binary] in Hv.
      pose proof (lex_measure m mx e ex Hv Hlex) as Hlt.
      destruct (IH (x + 360)%float m e Hy ltac:(lia) ltac:(lia)) as [fuel [r Hr]].
      exists (S fuel), r. rewrite NormalizeDegrees_while_lt_double, Hneg. exact Hr.
    + exists 2%nat, (x + 360)%float.
      rewrite NormalizeDegrees_while_lt_double, Hneg, NormalizeDegrees_while_lt_double.
      rewrite (leb_zero_not_ltb _ (add_360_nonneg x mx ex Hx Hle)).
      split; [reflexivity|]. split.
      * exact (add_360_nonneg x mx ex Hx Hle).
      * exact (add_360_le_360 x mx ex Hx Hle).
Qed.

(** In binary64, on every input of magnitude at most 1e18, [NormalizeDegrees]
    terminates with a result [r] such that [0 <= r <= 360]. *)
Lemma NormalizeDegrees_binary64_range (x : float) :
  (abs x <=? 1e18)%float = true ->
  exists fuel r,
    NormalizeDegrees fuel x = Some r /\
    (0 <=? r)%float = true /\ (r <=? 360)%float = true.
Proof.
  intros Hx. unfold NormalizeDegrees.
  destruct (small_magnitude_SF x Hx) as [[s Hz]|[s [mx [ex [Hf Hex]]]]].
  - assert (H360 : (360 <? x)%float = false)
      by (rewrite FloatAxioms.ltb_spec, Hz; destruct s; reflexivity).
    assert (H0 : (x <? 0)%float = false)
      by (rewrite FloatAxioms.ltb_spec, Hz; destruct s; reflexivity).
    exists 1%nat, x.
    rewrite NormalizeDegrees_while_gt_double, H360.
    rewrite NormalizeDegrees_while_lt_double, H0.
    split; [reflexivity|].
    rewrite !FloatAxioms.leb_spec, Hz. split; destruct s; reflexivity.
  - destruct s.
    + destruct (NormalizeDegrees_while_lt_binary64
                  (Z.to_nat ((ex + 1074) * 2 ^ 53 + Z.pos mx)) x mx ex Hf Hex)
        as [fuel [r [Hr Hrange]]]; [lia|].
      exists (S fuel), r.
      rewrite NormalizeDegrees_while_gt_double.
      replace (360 <? x)%float with false
        by (rewrite FloatAxioms.ltb_spec, Hf; reflexivity).
      split; [|exact Hrange].
      apply (NormalizeDegrees_while_lt_fuel fuel); [lia|exact Hr].
    + destruct (NormalizeDegrees_while_gt_binary64
                  (Z.to_nat ((ex + 1074) * 2 ^ 53 + Z.pos mx)) x mx ex Hf Hex)
        as [fuel [r [Hr [Hr0 Hr360]]]]; [lia|].
      exists (S fuel), r.
      rewrite (NormalizeDegrees_while_gt_fuel fuel (S fuel) x r) by (auto; lia).
      rewrite NormalizeDegrees_while_lt_double, (leb_zero_not_ltb r Hr0). auto.
Qed.

(** In binary64, [NormalizeDegrees] terminates on every input of magnitude at
    most 1e18. *)
Lemma NormalizeDegrees_binary64_terminates (x : float) :
  (abs x <=? 1e18)%float = true ->
  exists fuel r, NormalizeDegrees fuel x = Some r.
Proof.
  intros Hx. destruct (NormalizeDegrees_binary64_range x Hx) as [fuel [r [H _]]].
  exists fuel, r. exact H.
Qed.



(** C10, amended. In binary64 [NormalizeDegrees] terminates on every input
    of magnitude at most 1e18, and read in exact real arithmetic it
    terminates on every real input: each loop takes finitely many turns. *)
Theorem NormalizeDegrees_terminates :
  (forall x : float, (abs x <=? 1e18)%float = true ->
     exists fuel r, NormalizeDegrees fuel x = Some r) /\
  (forall x : R, exists fuel r, NormalizeDegrees fuel x = Some r).
Proof.
  split.
  - exact NormalizeDegrees_binary64_terminates.
  - exact NormalizeDegrees_real_terminates.
Qed.

(** The theorem at one million degrees. *)
Lemma NormalizeDegrees_terminates_witness :
  (abs 1000000 <=? 1e18)%float = true /\
  exists fuel r, NormalizeDegrees fuel 1000000%float = Some r.
Proof.
  split.
  - reflexivity.
  - apply (proj1 NormalizeDegrees_terminates). reflexivity.
Defined.

End NormalizeDegreesBinary64.

(** ** Rounding errors of the four operations

    Every rounding of [binary_round_aux] keeps the mantissa cut at the
    exponent [fexp] requires or takes the next one up.  Hence a sum, a
    difference, a product or a quotient of two finite [double]s whose exact
    value is below [2 ^ k] in magnitude is a finite [double] within
    [2 ^ (k - 53)] of that value. *)

Section RoundingError.

Local Open Scope Z_scope.

Lemma fexp_53 (z : Z) : fexp prec emax z = Z.max (z - 53) (-1074).
Proof. reflexivity. Qed.

Lemma Zdigits2_bounds (m : Z) :
  0 < m -> 2 ^ (Zdigits2 m - 1) <= m < 2 ^ Zdigits2 m.
Proof. destruct m as [|p|p]; try lia. intros _. apply digits2_pos_bounds. Qed.

Lemma Zdigits2_nonneg (m : Z) : 0 <= Zdigits2 m.
Proof. destruct m; simpl; lia. Qed.

Lemma Zdigits2_le_of_lt (m k : Z) : 0 <= m -> 0 <= k -> m < 2 ^ k -> Zdigits2 m <= k.
Proof.
  intros Hm Hk Hlt.
  destruct (Z.eq_dec m 0) as [->|Hne]; [simpl; lia|].
  destruct (Zdigits2_bounds m) as [Hlo _]; [lia|].
  destruct (Z.le_gt_cases (Zdigits2 m) k) as [H|H]; [exact H|exfalso].
  assert (2 ^ k <= 2 ^ (Zdigits2 m - 1)) by (apply Z.pow_le_mono_r; lia). lia.
Qed.

Lemma shr_m_of_loc (m : Z) (l : location) : shr_m (shr_record_of_loc m l) = m.
Proof. destruct l as [|[]]; reflexivity. Qed.

(** The first shift of [binary_round_aux] divides the mantissa by the power
    of two that raises its exponent to [fexp]. *)
Lemma shr_fexp_div (m e : Z) (l : location) :
  0 <= m ->
  exists mrs,
    shr_fexp prec emax m e l = (mrs, Z.max e (fexp prec emax (Zdigits2 m + e))) /\
    shr_m mrs = m / 2 ^ (Z.max e (fexp prec emax (Zdigits2 m + e)) - e).
Proof.
  intros Hm. unfold shr_fexp, shr.
  set (F := fexp prec emax (Zdigits2 m + e)).
  destruct (F - e) as [|p|p] eqn:E.
  - exists (shr_record_of_loc m l). replace (Z.max e F) with e by lia.
    split; [reflexivity|]. rewrite shr_m_of_loc, Z.sub_diag. symmetry. apply Z.div_1_r.
  - exists (SpecFloat.iter_pos shr_1 p (shr_record_of_loc m l)).
    replace (Z.max e F) with (e + Z.pos p) by lia.
    split; [reflexivity|].
    rewrite iter_shr_1_div by (rewrite shr_m_of_loc; exact Hm).
    rewrite shr_m_of_loc. do 2 f_equal. lia.
  - exists (shr_record_of_loc m l). replace (Z.max e F) with e by lia.
    split; [reflexivity|]. rewrite shr_m_of_loc, Z.sub_diag. symmetry. apply Z.div_1_r.
Qed.

(** The second shift of [binary_round_aux] only undoes a carry into a 54th
    digit; the value is kept. *)
Lemma shr_fexp_carry (m1 e1 : Z) :
  0 <= m1 <= 2 ^ 53 -> -1074 <= e1 <= 970 ->
  exists mrs e2,
    shr_fexp prec emax m1 e1 loc_Exact = (mrs, e2) /\
    0 <= shr_m mrs /\ e1 <= e2 <= 971 /\ shr_m mrs * 2 ^ (e2 - e1) = m1.
Proof.
  intros Hm He.
  destruct (shr_fexp_div m1 e1 loc_Exact) as [mrs [Hs Hq]]; [lia|].
  rewrite fexp_53 in Hs, Hq.
  exists mrs, (Z.max e1 (Z.max (Zdigits2 m1 + e1 - 53) (-1074))).
  split; [exact Hs|].
  destruct (Z.eq_dec m1 (2 ^ 53)) as [->|Hne].
  - change (Zdigits2 (2 ^ 53)) with 54 in *.
    replace (Z.max e1 (Z.max (54 + e1 - 53) (-1074))) with (e1 + 1) in * by lia.
    replace (e1 + 1 - e1) with 1 in * by lia.
    rewrite Hq. change (2 ^ 53 / 2 ^ 1) with (2 ^ 52). split; [lia|]. split; [lia|reflexivity].
  - assert (Hd : Zdigits2 m1 <= 53) by (apply Zdigits2_le_of_lt; lia).
    replace (Z.max e1 (Z.max (Zdigits2 m1 + e1 - 53) (-1074))) with e1 in * by lia.
    rewrite Z.sub_diag in *. rewrite Z.div_1_r in Hq. rewrite Hq.
    split; [lia|]. split; [lia|]. change (2 ^ 0) with 1. lia.
Qed.

(** [binary_round_aux] returns the mantissa cut at the exponent [fexp]
    requires, or the next one up. *)
Lemma binary_round_aux_neighbour (s : bool) (m e : Z) (l : location) :
  0 <= m -> Z.max e (fexp prec emax (Zdigits2 m + e)) <= 970 ->
  exists m1 : Z,
    m / 2 ^ (Z.max e (fexp prec emax (Zdigits2 m + e)) - e) <= m1
      <= m / 2 ^ (Z.max e (fexp prec emax (Zdigits2 m + e)) - e) + 1 /\
    ((m1 = 0 /\ binary_round_aux prec emax s m e l = S754_zero s) \/
     (exists (mr : positive) (er : Z),
        binary_round_aux prec emax s m e l = S754_finite s mr er /\
        Z.max e (fexp prec emax (Zdigits2 m + e)) <= er /\
        Z.pos mr * 2 ^ (er - Z.max e (fexp prec emax (Zdigits2 m + e))) = m1)).
Proof.
  intros Hm. rewrite fexp_53.
  set (D := Zdigits2 m). set (e1 := Z.max e (Z.max (D + e - 53) (-1074))). intros He1.
  destruct (shr_fexp_div m e l Hm) as [mrs [Hs Hq]].
  rewrite fexp_53 in Hs, Hq. fold D e1 in Hs, Hq.
  assert (HP : 0 < 2 ^ (e1 - e)) by (apply Z.pow_pos_nonneg; lia).
  assert (Hq0 : 0 <= shr_m mrs) by (rewrite Hq; apply Z.div_pos; lia).
  assert (Hq53 : shr_m mrs < 2 ^ 53).
  { rewrite Hq. apply Z.div_lt_upper_bound; [lia|].
    rewrite <- Z.pow_add_r by lia.
    destruct (Z.eq_dec m 0) as [->|Hne]; [apply Z.pow_pos_nonneg; lia|].
    destruct (Zdigits2_bounds m) as [_ Hhi]; [lia|]. fold D in Hhi.
    assert (2 ^ D <= 2 ^ (e1 - e + 53)) by (apply Z.pow_le_mono_r; lia). lia. }
  pose proof (round_nearest_even_bounds (shr_m mrs) (loc_of_shr_record mrs)) as Hr.
  set (m1 := round_nearest_even (shr_m mrs) (loc_of_shr_record mrs)) in *.
  destruct (shr_fexp_carry m1 e1) as [mrs2 [e2 [Hs2 [H0 [He2 Hv]]]]]; [lia|lia|].
  exists m1. split; [rewrite <- Hq; exact Hr|].
  unfold binary_round_aux. rewrite Hs. fold m1. rewrite Hs2.
  destruct (shr_m mrs2) as [|mr|mr] eqn:Em; [left|right|lia].
  - split; [lia|reflexivity].
  - exists mr, e2.
    replace (e2 <=? emax - prec) with true
      by (symmetry; apply Z.leb_le; unfold emax, prec; lia).
    split; [reflexivity|]. split; [lia|exact Hv].
Qed.

End RoundingError.

Section RealValue.

Local Open Scope R_scope.

Lemma Rabs_le_inv (a b : R) : Rabs a <= b -> - b <= a <= b.
Proof. unfold Rabs. destruct (Rcase_abs a); lra. Qed.

Lemma bpow_pos (e : Z) : 0 < powerRZ 2 e.
Proof. apply powerRZ_lt. lra. Qed.

Lemma bpow_add (a b : Z) : powerRZ 2 (a + b) = powerRZ 2 a * powerRZ 2 b.
Proof. apply powerRZ_add. lra. Qed.

Lemma IZR_pow2 (n : Z) : (0 <= n)%Z -> IZR (2 ^ n) = powerRZ 2 n.
Proof.
  intros Hn. rewrite <- (Z2Nat.id n Hn) at 1 2.
  rewrite <- pow_IZR, pow_powerRZ. reflexivity.
Qed.

Lemma bpow_le (a b : Z) : (a <= b)%Z -> powerRZ 2 a <= powerRZ 2 b.
Proof.
  intros Hab. replace b with (a + (b - a))%Z by lia. rewrite bpow_add.
  rewrite <- (IZR_pow2 (b - a)) by lia.
  assert (1 <= IZR (2 ^ (b - a))).
  { apply IZR_le. assert (0 < 2 ^ (b - a))%Z by (apply Z.pow_pos_nonneg; lia). lia. }
  pose proof (bpow_pos a). nra.
Qed.

Lemma bpow_lt_inv (a b : Z) : powerRZ 2 a < powerRZ 2 b -> (a < b)%Z.
Proof.
  intros H. destruct (Z.lt_ge_cases a b) as [Hlt|Hge]; [exact Hlt|exfalso].
  pose proof (bpow_le b a Hge). lra.
Qed.

Lemma IZR_shift (z n e : Z) :
  (0 <= n)%Z -> IZR (z * 2 ^ n) * powerRZ 2 e = IZR z * powerRZ 2 (n + e).
Proof. intros Hn. rewrite mult_IZR, IZR_pow2, bpow_add by exact Hn. ring. Qed.

Lemma IZR_cond_Zopp (s : bool) (z : Z) :
  IZR (cond_Zopp s z) = if s then - IZR z else IZR z.
Proof. destruct s; simpl; [apply opp_IZR|reflexivity]. Qed.

(** The exponent [fexp] gives to a value below [2 ^ k]. *)
Lemma fexp_digits_below (m e k : Z) :
  (0 < m)%Z -> IZR m * powerRZ 2 e < powerRZ 2 k -> (-1021 <= k)%Z ->
  (fexp prec emax (Zdigits2 m + e) <= k - 53)%Z.
Proof.
  intros Hm Hv Hk. rewrite fexp_53.
  destruct (Zdigits2_bounds m Hm) as [Hlo _].
  assert (Hd1 : (1 <= Zdigits2 m)%Z) by (destruct m; simpl in *; lia).
  apply IZR_le in Hlo. rewrite IZR_pow2 in Hlo by lia.
  assert (Hb : powerRZ 2 (Zdigits2 m - 1 + e) < powerRZ 2 k).
  { rewrite bpow_add. pose proof (bpow_pos e). nra. }
  apply bpow_lt_inv in Hb. lia.
Qed.

Lemma fexp_below (m e k : Z) :
  (0 <= m)%Z -> IZR m * powerRZ 2 e < powerRZ 2 k ->
  (-1021 <= k)%Z -> (e <= k - 53)%Z ->
  (Z.max e (fexp prec emax (Zdigits2 m + e)) <= k - 53)%Z.
Proof.
  intros Hm Hv Hk He.
  destruct (Z.eq_dec m 0) as [->|Hne]; [rewrite fexp_53; simpl; lia|].
  pose proof (fexp_digits_below m e k ltac:(lia) Hv Hk). lia.
Qed.

(** Rounding a value located between [m * 2 ^ e] and [(m + 1) * 2 ^ e] and
    below [2 ^ k]: the result is finite and within [2 ^ (k - 53)] of the
    value. *)
Lemma binary_round_aux_error (s : bool) (m e : Z) (l : location) (v : R) (k : Z) :
  (0 <= m)%Z ->
  IZR m * powerRZ 2 e <= v < IZR (m + 1) * powerRZ 2 e ->
  v < powerRZ 2 k -> (-1021 <= k <= 1023)%Z -> (e <= k - 53)%Z ->
  SF_is_finite (binary_round_aux prec emax s m e l) = true /\
  Rabs (SF2R (binary_round_aux prec emax s m e l) - (if s then - v else v))
    <= powerRZ 2 (k - 53).
Proof.
  intros Hm [Hlo Hhi] Hk Hkr He.
  assert (He1 : (Z.max e (fexp prec emax (Zdigits2 m + e)) <= k - 53)%Z).
  { apply fexp_below; try lia. lra. }
  destruct (binary_round_aux_neighbour s m e l Hm) as [m1 [Hm1 Hres]]; [lia|].
  set (e1 := Z.max e (fexp prec emax (Zdigits2 m + e))) in *.
  set (q := (m / 2 ^ (e1 - e))%Z) in *.
  assert (HP : (0 < 2 ^ (e1 - e))%Z) by (apply Z.pow_pos_nonneg; lia).
  assert (Hq1 : (q * 2 ^ (e1 - e) <= m)%Z)
    by (unfold q; rewrite Z.mul_comm; apply Z.mul_div_le; lia).
  assert (Hq2 : (m + 1 <= (q + 1) * 2 ^ (e1 - e))%Z).
  { unfold q. pose proof (Z.mod_pos_bound m (2 ^ (e1 - e)) HP).
    pose proof (Z.div_mod m (2 ^ (e1 - e))). lia. }
  apply IZR_le in Hq1, Hq2.
  pose proof (bpow_pos e) as Be. pose proof (bpow_pos e1) as Be1.
  assert (Hq1' : IZR q * powerRZ 2 e1 <= v).
  { replace e1 with ((e1 - e) + e)%Z at 1 by lia.
    rewrite <- IZR_shift by lia. nra. }
  assert (Hq2' : v < (IZR q + 1) * powerRZ 2 e1).
  { rewrite <- plus_IZR. replace e1 with ((e1 - e) + e)%Z at 1 by lia.
    rewrite <- IZR_shift by lia. nra. }
  assert (Hm1' : IZR q <= IZR m1 <= IZR q + 1).
  { rewrite <- plus_IZR. split; apply IZR_le; lia. }
  assert (Hval : SF_is_finite (binary_round_aux prec emax s m e l) = true /\
                 SF2R (binary_round_aux prec emax s m e l)
                 = if s then - (IZR m1 * powerRZ 2 e1) else IZR m1 * powerRZ 2 e1).
  { destruct Hres as [[H0 ->]|[mr [er [-> [Her Hmr]]]]].
    - split; [reflexivity|]. subst m1. simpl. destruct s; lra.
    - split; [reflexivity|]. simpl SF2R. rewrite IZR_cond_Zopp, <- Hmr.
      rewrite IZR_shift by lia. replace (er - e1 + e1)%Z with er by lia.
      destruct s; ring. }
  destruct Hval as [Hfin Hval]. split; [exact Hfin|]. rewrite Hval.
  pose proof (bpow_le e1 (k - 53) He1) as Hle.
  apply Rabs_le. destruct s; nra.
Qed.


Lemma SF2R_finite (s : bool) (m : positive) (e : Z) :
  SF2R (S754_finite s m e)
  = if s then - (IZR (Z.pos m) * powerRZ 2 e) else IZR (Z.pos m) * powerRZ 2 e.
Proof. unfold SF2R. rewrite IZR_cond_Zopp. destruct s; ring. Qed.

Lemma magnitude_pos (m : positive) (e : Z) : 0 < IZR (Z.pos m) * powerRZ 2 e.
Proof.
  apply Rmult_lt_0_compat; [apply IZR_lt; lia | apply bpow_pos].
Qed.

Lemma magnitude_lower (m : positive) (e n : Z) :
  (0 <= n)%Z -> (2 ^ n <= Z.pos m)%Z ->
  powerRZ 2 (n + e) <= IZR (Z.pos m) * powerRZ 2 e.
Proof.
  intros Hn Hm. apply IZR_le in Hm. rewrite IZR_pow2 in Hm by exact Hn.
  rewrite bpow_add. pose proof (bpow_pos e). nra.
Qed.

Lemma magnitude_upper (m : positive) (e n : Z) :
  (0 <= n)%Z -> (Z.pos m < 2 ^ n)%Z ->
  IZR (Z.pos m) * powerRZ 2 e < powerRZ 2 (n + e).
Proof.
  intros Hn Hm. apply IZR_lt in Hm. rewrite IZR_pow2 in Hm by exact Hn.
  rewrite bpow_add. pose proof (bpow_pos e). nra.
Qed.

Lemma Rabs_signed (s : bool) (v : R) : 0 <= v -> Rabs (if s then - v else v) = v.
Proof.
  intros Hv. destruct s; [rewrite Rabs_Ropp|]; apply Rabs_pos_eq; exact Hv.
Qed.

(** *** Multiplication *)

Lemma SFmul_error (X Y : spec_float) (k : Z) :
  valid_binary X = true -> valid_binary Y = true ->
  SF_is_finite X = true -> SF_is_finite Y = true ->
  Rabs (SF2R X * SF2R Y) < powerRZ 2 k -> (-1021 <= k <= 1023)%Z ->
  SF_is_finite (SF64mul X Y) = true /\
  Rabs (SF2R (SF64mul X Y) - SF2R X * SF2R Y) <= powerRZ 2 (k - 53).
Proof.
  intros VX VY FX FY Hv Hk.
  pose proof (bpow_pos (k - 53)) as Bk.
  destruct X as [sx|sx| |sx mx ex]; try discriminate;
    destruct Y as [sy|sy| |sy my ey]; try discriminate;
    try (split; [reflexivity|]; simpl SF2R; simpl SF64mul;
         match goal with |- Rabs ?t <= _ => replace t with 0 by (simpl; ring) end;
         rewrite Rabs_R0; lra).
  simpl in VX, VY.
  destruct (bounded_mantissa mx ex VX) as [Hex [Hmx Hnx]].
  destruct (bounded_mantissa my ey VY) as [Hey [Hmy Hny]].
  pose proof (magnitude_pos mx ex) as Px. pose proof (magnitude_pos my ey) as Py.
  set (v := (IZR (Z.pos mx) * powerRZ 2 ex) * (IZR (Z.pos my) * powerRZ 2 ey)).
  assert (Hsign : SF2R (S754_finite sx mx ex) * SF2R (S754_finite sy my ey)
                  = if xorb sx sy then - v else v).
  { rewrite !SF2R_finite. unfold v. destruct sx, sy; simpl; ring. }
  rewrite Hsign in Hv |- *. rewrite Rabs_signed in Hv by (unfold v; nra).
  assert (Hprod : IZR (Z.pos (mx * my)) * powerRZ 2 (ex + ey) = v).
  { rewrite Pos2Z.inj_mul, mult_IZR, bpow_add. unfold v. ring. }
  change (SF64mul (S754_finite sx mx ex) (S754_finite sy my ey))
    with (binary_round_aux prec emax (xorb sx sy) (Z.pos (mx * my)) (ex + ey) loc_Exact).
  apply binary_round_aux_error; try lia.
  - rewrite plus_IZR, Hprod. pose proof (bpow_pos (ex + ey)).
    split; [lra|]. rewrite Rmult_plus_distr_r, Hprod. lra.
  - exact Hv.
  - (* the exponent of the exact product *)
    pose proof (magnitude_lower mx ex 0 ltac:(lia) ltac:(lia)) as Lx.
    pose proof (magnitude_lower my ey 0 ltac:(lia) ltac:(lia)) as Ly.
    pose proof (bpow_pos (0 + ex)) as Bx. pose proof (bpow_pos (0 + ey)) as By.
    pose proof (bpow_pos (52 + ex)) as Bx'. pose proof (bpow_pos (52 + ey)) as By'.
    destruct (Z.eq_dec ex (-1074)) as [Ex|Ex]; [destruct (Z.eq_dec ey (-1074)) as [Ey|Ey]|].
    + lia.
    + pose proof (magnitude_lower my ey 52 ltac:(lia) ltac:(apply Hny; lia)) as Ly'.
      assert (Hb : powerRZ 2 ((0 + ex) + (52 + ey)) < powerRZ 2 k).
      { rewrite bpow_add. apply Rle_lt_trans with (2 := Hv). unfold v.
        apply Rmult_le_compat; lra. }
      apply bpow_lt_inv in Hb. lia.
    + pose proof (magnitude_lower mx ex 52 ltac:(lia) ltac:(apply Hnx; lia)) as Lx'.
      assert (Hb : powerRZ 2 ((52 + ex) + (0 + ey)) < powerRZ 2 k).
      { rewrite bpow_add. apply Rle_lt_trans with (2 := Hv). unfold v.
        apply Rmult_le_compat; lra. }
      apply bpow_lt_inv in Hb. lia.
Qed.

(** *** Addition and subtraction *)

Lemma shl_align_value (m : positive) (e ez : Z) :
  (ez <= e)%Z ->
  Z.pos (fst (shl_align m e ez)) = (Z.pos m * 2 ^ (e - ez))%Z.
Proof.
  intros He. unfold shl_align.
  destruct (ez - e)%Z as [|p|p] eqn:E; try lia; simpl fst.
  - replace (e - ez)%Z with 0%Z by lia. simpl. lia.
  - rewrite iter_xO_pow. do 2 f_equal. lia.
Qed.

Lemma binary_round_error (s : bool) (p : positive) (e k : Z) :
  IZR (Z.pos p) * powerRZ 2 e < powerRZ 2 k -> (-1021 <= k <= 1023)%Z ->
  SF_is_finite (binary_round prec emax s p e) = true /\
  Rabs (SF2R (binary_round prec emax s p e)
        - (if s then - (IZR (Z.pos p) * powerRZ 2 e) else IZR (Z.pos p) * powerRZ 2 e))
    <= powerRZ 2 (k - 53).
Proof.
  intros Hv Hk.
  pose proof (fexp_digits_below (Z.pos p) e k ltac:(lia) Hv ltac:(lia)) as HF.
  unfold binary_round. change (Z.pos (digits2_pos p)) with (Zdigits2 (Z.pos p)).
  set (F := fexp prec emax (Zdigits2 (Z.pos p) + e)) in *.
  unfold shl_align.
  destruct (F - e)%Z as [|d|d] eqn:E.
  - apply binary_round_aux_error; try lia.
    + rewrite plus_IZR. pose proof (bpow_pos e). split; lra.
    + exact Hv.
  - apply binary_round_aux_error; try lia.
    + rewrite plus_IZR. pose proof (bpow_pos e). split; lra.
    + exact Hv.
  - assert (Hval : IZR (Z.pos (Pos.iter xO p d)) * powerRZ 2 F
                   = IZR (Z.pos p) * powerRZ 2 e).
    { rewrite iter_xO_pow, IZR_shift by lia. do 2 f_equal. lia. }
    rewrite <- Hval in Hv |- *.
    apply binary_round_aux_error; try lia.
    + rewrite plus_IZR. pose proof (bpow_pos F). split; lra.
    + exact Hv.
Qed.

Lemma binary_normalize_error (M e : Z) (sz : bool) (k : Z) :
  Rabs (IZR M * powerRZ 2 e) < powerRZ 2 k -> (-1021 <= k <= 1023)%Z ->
  SF_is_finite (binary_normalize prec emax M e sz) = true /\
  Rabs (SF2R (binary_normalize prec emax M e sz) - IZR M * powerRZ 2 e)
    <= powerRZ 2 (k - 53).
Proof.
  intros Hv Hk. pose proof (bpow_pos (k - 53)) as Bk.
  destruct M as [|p|p]; simpl binary_normalize.
  - split; [reflexivity|]. simpl SF2R.
    replace (0 - 0 * powerRZ 2 e) with 0 by ring. rewrite Rabs_R0. lra.
  - pose proof (magnitude_pos p e) as Pp.
    rewrite Rabs_pos_eq in Hv by lra.
    exact (binary_round_error false p e k Hv Hk).
  - pose proof (magnitude_pos p e) as Pp.
    change (Z.neg p) with (- Z.pos p)%Z in *. rewrite opp_IZR in *.
    replace (- IZR (Z.pos p) * powerRZ 2 e) with (- (IZR (Z.pos p) * powerRZ 2 e)) in * by ring.
    rewrite Rabs_Ropp, Rabs_pos_eq in Hv by lra.
    exact (binary_round_error true p e k Hv Hk).
Qed.

Lemma aligned_value (s : bool) (m : positive) (e ez : Z) :
  (ez <= e)%Z ->
  IZR (cond_Zopp s (Z.pos (fst (shl_align m e ez)))) * powerRZ 2 ez
  = SF2R (S754_finite s m e).
Proof.
  intros He. rewrite shl_align_value by exact He.
  unfold SF2R. rewrite !IZR_cond_Zopp.
  pose proof (IZR_shift (Z.pos m) (e - ez) ez ltac:(lia)) as H.
  replace (e - ez + ez)%Z with e in H by lia.
  destruct s; [rewrite <- Ropp_mult_distr_l, H; ring | exact H].
Qed.

Lemma SFadd_error (X Y : spec_float) (k : Z) :
  SF_is_finite X = true -> SF_is_finite Y = true ->
  Rabs (SF2R X + SF2R Y) < powerRZ 2 k -> (-1021 <= k <= 1023)%Z ->
  SF_is_finite (SF64add X Y) = true /\
  Rabs (SF2R (SF64add X Y) - (SF2R X + SF2R Y)) <= powerRZ 2 (k - 53).
Proof.
  intros FX FY Hv Hk. pose proof (bpow_pos (k - 53)) as Bk.
  assert (Hexact : forall W : spec_float, forall v : R,
            SF_is_finite W = true -> SF2R W = v ->
            SF_is_finite W = true /\ Rabs (SF2R W - v) <= powerRZ 2 (k - 53)).
  { intros W v HF ->. split; [exact HF|].
    match goal with |- Rabs ?t <= _ => replace t with 0 by ring end.
    rewrite Rabs_R0. lra. }
  destruct X as [sx|sx| |sx mx ex]; try discriminate;
    destruct Y as [sy|sy| |sy my ey]; try discriminate.
  - apply Hexact; [destruct sx, sy; reflexivity|].
    destruct sx, sy; simpl; ring.
  - apply Hexact; [reflexivity|]. simpl SF2R. ring.
  - apply Hexact; [reflexivity|]. simpl SF2R. ring.
  - change (SF64add (S754_finite sx mx ex) (S754_finite sy my ey))
      with (binary_normalize prec emax
              (cond_Zopp sx (Z.pos (fst (shl_align mx ex (Z.min ex ey)))) +
               cond_Zopp sy (Z.pos (fst (shl_align my ey (Z.min ex ey)))))
              (Z.min ex ey) false).
    assert (Hsum : IZR (cond_Zopp sx (Z.pos (fst (shl_align mx ex (Z.min ex ey)))) +
                        cond_Zopp sy (Z.pos (fst (shl_align my ey (Z.min ex ey)))))
                   * powerRZ 2 (Z.min ex ey)
                   = SF2R (S754_finite sx mx ex) + SF2R (S754_finite sy my ey)).
    { rewrite plus_IZR, Rmult_plus_distr_r, !aligned_value by lia. reflexivity. }
    rewrite <- Hsum in Hv |- *.
    apply binary_normalize_error; assumption.
Qed.

Lemma SFsub_error (X Y : spec_float) (k : Z) :
  SF_is_finite X = true -> SF_is_finite Y = true ->
  Rabs (SF2R X - SF2R Y) < powerRZ 2 k -> (-1021 <= k <= 1023)%Z ->
  SF_is_finite (SF64sub X Y) = true /\
  Rabs (SF2R (SF64sub X Y) - (SF2R X - SF2R Y)) <= powerRZ 2 (k - 53).
Proof.
  intros FX FY Hv Hk. pose proof (bpow_pos (k - 53)) as Bk.
  assert (Hexact : forall W : spec_float, forall v : R,
            SF_is_finite W = true -> SF2R W = v ->
            SF_is_finite W = true /\ Rabs (SF2R W - v) <= powerRZ 2 (k - 53)).
  { intros W v HF ->. split; [exact HF|].
    match goal with |- Rabs ?t <= _ => replace t with 0 by ring end.
    rewrite Rabs_R0. lra. }
  destruct X as [sx|sx| |sx mx ex]; try discriminate;
    destruct Y as [sy|sy| |sy my ey]; try discriminate.
  - apply Hexact; [destruct sx, sy; reflexivity|].
    destruct sx, sy; simpl; ring.
  - apply Hexact; [reflexivity|].
    change (SF64sub (S754_zero sx) (S754_finite sy my ey))
      with (S754_finite (negb sy) my ey).
    rewrite !SF2R_finite. simpl SF2R. destruct sy; simpl; ring.
  - apply Hexact; [reflexivity|]. simpl SF2R. ring.
  - change (SF64sub (S754_finite sx mx ex) (S754_finite sy my ey))
      with (binary_normalize prec emax
              (cond_Zopp sx (Z.pos (fst (shl_align mx ex (Z.min ex ey)))) -
               cond_Zopp sy (Z.pos (fst (shl_align my ey (Z.min ex ey)))))
              (Z.min ex ey) false).
    assert (Hsum : IZR (cond_Zopp sx (Z.pos (fst (shl_align mx ex (Z.min ex ey)))) -
                        cond_Zopp sy (Z.pos (fst (shl_align my ey (Z.min ex ey)))))
                   * powerRZ 2 (Z.min ex ey)
                   = SF2R (S754_finite sx mx ex) - SF2R (S754_finite sy my ey)).
    { rewrite minus_IZR. unfold Rminus. rewrite Rmult_plus_distr_r.
      rewrite <- Ropp_mult_distr_l, !aligned_value by lia. reflexivity. }
    rewrite <- Hsum in Hv |- *.
    apply binary_normalize_error; assumption.
Qed.

(** *** Division *)

(** The quotient the division hands to the rounding: [q * 2 ^ e'] is the
    exact quotient cut at the exponent [e']. *)
Lemma SFdiv_core_binary_quotient (mx my : positive) (ex ey : Z) :
  exists (q e' : Z) (l : location),
    SFdiv_core_binary prec emax (Z.pos mx) ex (Z.pos my) ey = (q, e', l) /\
    (e' <= fexp prec emax (Zdigits2 (Z.pos mx) + ex - (Zdigits2 (Z.pos my) + ey)))%Z /\
    (e' <= ex - ey)%Z /\
    (q * Z.pos my <= Z.pos mx * 2 ^ (ex - ey - e') < (q + 1) * Z.pos my)%Z.
Proof.
  unfold SFdiv_core_binary.
  set (e' := Z.min (fexp prec emax (Zdigits2 (Z.pos mx) + ex - (Zdigits2 (Z.pos my) + ey)))
                   (ex - ey)).
  set (m' := match (ex - ey - e')%Z with
             | 0%Z => Z.pos mx
             | Z.pos _ => Z.shiftl (Z.pos mx) (ex - ey - e')
             | Z.neg _ => 0%Z
             end).
  assert (Hm' : m' = (Z.pos mx * 2 ^ (ex - ey - e'))%Z).
  { unfold m'. destruct (ex - ey - e')%Z as [|s|s] eqn:E.
    - simpl. lia.
    - rewrite Z.shiftl_mul_pow2 by lia. reflexivity.
    - lia. }
  pose proof (Z_div_mod m' (Z.pos my) ltac:(lia)) as Hdm.
  destruct (Z.div_eucl m' (Z.pos my)) as [q r].
  exists q, e', (new_location (Z.pos my) r).
  split; [reflexivity|]. split; [lia|]. split; [lia|].
  rewrite <- Hm'. lia.
Qed.

Lemma SFdiv_error (X Y : spec_float) (k : Z) :
  valid_binary X = true -> valid_binary Y = true ->
  SF_is_finite X = true -> SF_is_finite Y = true -> SF2R Y <> 0 ->
  Rabs (SF2R X / SF2R Y) < powerRZ 2 k -> (-1021 <= k <= 1023)%Z ->
  SF_is_finite (SF64div X Y) = true /\
  Rabs (SF2R (SF64div X Y) - SF2R X / SF2R Y) <= powerRZ 2 (k - 53).
Proof.
  intros VX VY FX FY Y0 Hv Hk.
  pose proof (bpow_pos (k - 53)) as Bk.
  destruct Y as [sy|sy| |sy my ey]; try discriminate; [exfalso; apply Y0; reflexivity|].
  destruct X as [sx|sx| |sx mx ex]; try discriminate.
  { split; [reflexivity|]. simpl SF64div.
    match goal with |- Rabs ?t <= _ => replace t with 0 end.
    - rewrite Rabs_R0. lra.
    - simpl SF2R at 1 2. unfold Rdiv. ring. }
  pose proof (magnitude_pos mx ex) as Px. pose proof (magnitude_pos my ey) as Py.
  set (a := IZR (Z.pos mx) * powerRZ 2 ex) in *.
  set (b := IZR (Z.pos my) * powerRZ 2 ey) in *.
  assert (Hsign : SF2R (S754_finite sx mx ex) / SF2R (S754_finite sy my ey)
                  = if xorb sx sy then - (a / b) else a / b).
  { rewrite !SF2R_finite. fold a b. destruct sx, sy; simpl; field; lra. }
  assert (Hab : 0 < a / b) by (apply Rdiv_lt_0_compat; lra).
  rewrite Hsign in Hv |- *. rewrite Rabs_signed in Hv by lra.
  destruct (SFdiv_core_binary_quotient mx my ex ey) as [q [e' [l [Hcore [He1 [He2 [Hq1 Hq2]]]]]]].
  change (SF64div (S754_finite sx mx ex) (S754_finite sy my ey))
    with (let '(mz, ez, lz) := SFdiv_core_binary prec emax (Z.pos mx) ex (Z.pos my) ey in
          binary_round_aux prec emax (xorb sx sy) mz ez lz).
  rewrite Hcore.
  set (s := (ex - ey - e')%Z) in *.
  assert (Hq0 : (0 <= q)%Z).
  { assert (0 < 2 ^ s)%Z by (apply Z.pow_pos_nonneg; lia). nia. }
  (* the exact quotient in units of [2 ^ e'] *)
  assert (Hunit : a / b * IZR (Z.pos my) = IZR (Z.pos mx * 2 ^ s) * powerRZ 2 e').
  { rewrite IZR_shift by lia. unfold a, b.
    replace (s + e')%Z with (ex - ey)%Z by (unfold s; lia).
    replace ex with ((ex - ey) + ey)%Z at 1 by lia. rewrite bpow_add.
    pose proof (bpow_pos ey). field. split; [lra|].
    apply Rgt_not_eq. apply IZR_lt. lia. }
  assert (Hmy : 0 < IZR (Z.pos my)) by (apply IZR_lt; lia).
  pose proof (bpow_pos e') as Be'.
  apply IZR_le in Hq1. apply IZR_lt in Hq2.
  rewrite (mult_IZR q) in Hq1. rewrite (mult_IZR (q + 1)) in Hq2.
  apply binary_round_aux_error; try lia.
  - split.
    + apply Rmult_le_reg_r with (r := IZR (Z.pos my)); [exact Hmy|].
      rewrite Hunit. nra.
    + apply Rmult_lt_reg_r with (r := IZR (Z.pos my)); [exact Hmy|].
      rewrite Hunit. nra.
  - exact Hv.
  - (* the exponent handed to the rounding *)
    rewrite fexp_53 in He1.
    destruct (Zdigits2_bounds (Z.pos mx) ltac:(lia)) as [Dx _].
    destruct (Zdigits2_bounds (Z.pos my) ltac:(lia)) as [_ Dy].
    set (dx := Zdigits2 (Z.pos mx)) in *. set (dy := Zdigits2 (Z.pos my)) in *.
    assert (Hdx : (1 <= dx)%Z) by (unfold dx; simpl; lia).
    assert (Hdy : (1 <= dy)%Z) by (unfold dy; simpl; lia).
    pose proof (magnitude_lower mx ex (dx - 1) ltac:(lia) Dx) as La. fold a in La.
    pose proof (magnitude_upper my ey dy ltac:(lia) Dy) as Ub. fold b in Ub.
    assert (Hb : powerRZ 2 (dx - 1 + ex - (dy + ey)) < powerRZ 2 k).
    { apply Rlt_trans with (2 := Hv).
      apply Rmult_lt_reg_r with (r := b); [exact Py|].
      replace (a / b * b) with a by (field; lra).
      apply Rlt_le_trans with (2 := La).
      replace (dx - 1 + ex)%Z with ((dx - 1 + ex - (dy + ey)) + (dy + ey))%Z at 2 by lia.
      rewrite bpow_add. pose proof (bpow_pos (dx - 1 + ex - (dy + ey))). nra. }
    apply bpow_lt_inv in Hb. lia.
Qed.

(** *** The four operations on [double] *)

Lemma add_error (x y : float) (k : Z) :
  SF_is_finite (Prim2SF x) = true -> SF_is_finite (Prim2SF y) = true ->
  Rabs (B2R x + B2R y) < powerRZ 2 k -> (-1021 <= k <= 1023)%Z ->
  SF_is_finite (Prim2SF (x + y)) = true /\
  Rabs (B2R (x + y) - (B2R x + B2R y)) <= powerRZ 2 (k - 53).
Proof.
  unfold B2R. rewrite FloatAxioms.add_spec. apply SFadd_error.
Qed.

Lemma sub_error (x y : float) (k : Z) :
  SF_is_finite (Prim2SF x) = true -> SF_is_finite (Prim2SF y) = true ->
  Rabs (B2R x - B2R y) < powerRZ 2 k -> (-1021 <= k <= 1023)%Z ->
  SF_is_finite (Prim2SF (x - y)) = true /\
  Rabs (B2R (x - y) - (B2R x - B2R y)) <= powerRZ 2 (k - 53).
Proof.
  unfold B2R. rewrite FloatAxioms.sub_spec. apply SFsub_error.
Qed.

Lemma mul_error (x y : float) (k : Z) :
  SF_is_finite (Prim2SF x) = true -> SF_is_finite (Prim2SF y) = true ->
  Rabs (B2R x * B2R y) < powerRZ 2 k -> (-1021 <= k <= 1023)%Z ->
  SF_is_finite (Prim2SF (x * y)) = true /\
  Rabs (B2R (x * y) - B2R x * B2R y) <= powerRZ 2 (k - 53).
Proof.
  unfold B2R. rewrite FloatAxioms.mul_spec.
  apply SFmul_error; apply Prim2SF_valid.
Qed.

Lemma div_error (x y : float) (k : Z) :
  SF_is_finite (Prim2SF x) = true -> SF_is_finite (Prim2SF y) = true -> B2R y <> 0 ->
  Rabs (B2R x / B2R y) < powerRZ 2 k -> (-1021 <= k <= 1023)%Z ->
  SF_is_finite (Prim2SF (x / y)) = true /\
  Rabs (B2R (x / y) - B2R x / B2R y) <= powerRZ 2 (k - 53).
Proof.
  unfold B2R. rewrite FloatAxioms.div_spec.
  apply SFdiv_error; apply Prim2SF_valid.
Qed.

(** A [double] whose magnitude [<=] finds at most that of a positive normal
    [double] is finite, and its value is at most that value. *)
Lemma abs_leb_bound (x c : float) (mc : positive) (ec : Z) :
  Prim2SF c = S754_finite false mc ec -> (2 ^ 52 <= Z.pos mc)%Z ->
  (abs x <=? c)%float = true ->
  SF_is_finite (Prim2SF x) = true /\ Rabs (B2R x) <= B2R c.
Proof.
  intros Hc Hmc H. unfold B2R.
  rewrite FloatAxioms.leb_spec, FloatAxioms.abs_spec, Hc in H. rewrite Hc.
  pose proof (Prim2SF_valid x) as V.
  pose proof (magnitude_pos mc ec) as Pc.
  rewrite (SF2R_finite false mc ec).
  destruct (Prim2SF x) as [s|s| |s m e]; try discriminate.
  - split; [reflexivity|]. simpl SF2R. rewrite Rabs_R0. lra.
  - split; [reflexivity|].
    pose proof (magnitude_pos m e) as Pm.
    rewrite SF2R_finite, Rabs_signed by lra.
    simpl in V. destruct (bounded_mantissa m e V) as [_ [Hm _]].
    unfold SFleb, SFcompare, SFabs in H.
    destruct (Z.compare_spec e ec) as [Heq|Hlt|Hgt]; try discriminate.
    + subst ec. change (Pos.compare_cont Eq m mc) with (Pos.compare m mc) in H.
      destruct (Pos.compare_spec m mc) as [E|E|E]; try discriminate.
      * subst mc. lra.
      * assert (IZR (Z.pos m) < IZR (Z.pos mc)) by (apply IZR_lt; lia).
        pose proof (bpow_pos e). nra.
    + pose proof (magnitude_upper m e 53 ltac:(lia) Hm) as U.
      pose proof (magnitude_lower mc ec 52 ltac:(lia) Hmc) as L.
      pose proof (bpow_le (53 + e) (52 + ec) ltac:(lia)). lra.
Qed.

End RealValue.

(** ** Round trips through century time *)

Section CenturyRoundTrips.

Local Open Scope R_scope.

Lemma JAN_1_2000_JD_value :
  SF_is_finite (Prim2SF JAN_1_2000_JD) = true /\ B2R JAN_1_2000_JD = 2451545.
Proof.
  split; [reflexivity|]. unfold B2R.
  replace (Prim2SF JAN_1_2000_JD) with (S754_finite false 5264652799836160 (-31))
    by reflexivity.
  unfold SF2R, cond_Zopp. simpl powerRZ. lra.
Qed.

Lemma DAYS_IN_CENTURY_value :
  SF_is_finite (Prim2SF DAYS_IN_CENTURY) = true /\ B2R DAYS_IN_CENTURY = 36525.
Proof.
  split; [reflexivity|]. unfold B2R.
  replace (Prim2SF DAYS_IN_CENTURY) with (S754_finite false 5019957775564800 (-37))
    by reflexivity.
  unfold SF2R, cond_Zopp. simpl powerRZ. lra.
Qed.

Lemma B2R_4194304 : B2R 4194304 = 4194304.
Proof.
  unfold B2R.
  replace (Prim2SF 4194304) with (S754_finite false 4503599627370496 (-30)) by reflexivity.
  unfold SF2R, cond_Zopp. simpl powerRZ. lra.
Qed.

Lemma B2R_100 : B2R 100 = 100.
Proof.
  unfold B2R.
  replace (Prim2SF 100) with (S754_finite false 7036874417766400 (-46)) by reflexivity.
  unfold SF2R, cond_Zopp. simpl powerRZ. lra.
Qed.

(** In binary64 the round trip of a Julian Day of magnitude at most 4194304
    through century time is within [2 ^ -27] of it. *)
Lemma JulianDay_round_trip_error (jd : float) :
  (abs jd <=? 4194304)%float = true ->
  SF_is_finite
    (Prim2SF (JulianDayFromJulianCentury (JulianCenturyFromJulianDay jd))) = true /\
  Rabs (B2R (JulianDayFromJulianCentury (JulianCenturyFromJulianDay jd)) - B2R jd)
    <= / 2 ^ 27.
Proof.
  intros Hjd.
  destruct (abs_leb_bound jd 4194304 4503599627370496 (-30) eq_refl ltac:(lia) Hjd)
    as [Fjd Bjd].
  rewrite B2R_4194304 in Bjd. apply Rabs_le_inv in Bjd.
  destruct JAN_1_2000_JD_value as [FJ VJ]. destruct DAYS_IN_CENTURY_value as [FC VC].
  unfold JulianDayFromJulianCentury, JulianCenturyFromJulianDay.
  change (@Dsub float Arith_double) with PrimFloat.sub.
  change (@Ddiv float Arith_double) with PrimFloat.div.
  change (@Dmul float Arith_double) with PrimFloat.mul.
  change (@Dadd float Arith_double) with PrimFloat.add.
  set (J := JAN_1_2000_JD (D := float)) in *.
  set (C := DAYS_IN_CENTURY (D := float)) in *.
  destruct (sub_error jd J 23 Fjd FJ) as [Fd Ed]; [|lia|].
  { rewrite VJ. change (powerRZ 2 23) with (2 ^ 23). apply Rabs_def1; lra. }
  change (powerRZ 2 (23 - 53)) with (/ 2 ^ 30) in Ed. rewrite VJ in Ed.
  apply Rabs_le_inv in Ed.
  destruct (div_error (jd - J) C 8 Fd FC) as [FT ET]; [rewrite VC; lra| |lia|].
  { rewrite VC. change (powerRZ 2 8) with (2 ^ 8). apply Rabs_def1; lra. }
  change (powerRZ 2 (8 - 53)) with (/ 2 ^ 45) in ET. rewrite VC in ET.
  apply Rabs_le_inv in ET.
  destruct (mul_error ((jd - J) / C) C 23 FT FC) as [FP EP]; [|lia|].
  { rewrite VC. change (powerRZ 2 23) with (2 ^ 23). apply Rabs_def1; lra. }
  change (powerRZ 2 (23 - 53)) with (/ 2 ^ 30) in EP. rewrite VC in EP.
  apply Rabs_le_inv in EP.
  destruct (add_error ((jd - J) / C * C) J 23 FP FJ) as [FS ES]; [|lia|].
  { rewrite VJ. change (powerRZ 2 23) with (2 ^ 23). apply Rabs_def1; lra. }
  change (powerRZ 2 (23 - 53)) with (/ 2 ^ 30) in ES. rewrite VJ in ES.
  apply Rabs_le_inv in ES.
  split; [exact FS|]. apply Rabs_le. lra.
Qed.

(** In binary64 the round trip of a century time of magnitude at most 100
    through the Julian Day is within [2 ^ -43] of it. *)
Lemma JulianCentury_round_trip_error (T : float) :
  (abs T <=? 100)%float = true ->
  SF_is_finite
    (Prim2SF (JulianCenturyFromJulianDay (JulianDayFromJulianCentury T))) = true /\
  Rabs (B2R (JulianCenturyFromJulianDay (JulianDayFromJulianCentury T)) - B2R T)
    <= / 2 ^ 43.
Proof.
  intros HT.
  destruct (abs_leb_bound T 100 7036874417766400 (-46) eq_refl ltac:(lia) HT)
    as [FT BT].
  rewrite B2R_100 in BT. apply Rabs_le_inv in BT.
  destruct JAN_1_2000_JD_value as [FJ VJ]. destruct DAYS_IN_CENTURY_value as [FC VC].
  unfold JulianDayFromJulianCentury, JulianCenturyFromJulianDay.
  change (@Dsub float Arith_double) with PrimFloat.sub.
  change (@Ddiv float Arith_double) with PrimFloat.div.
  change (@Dmul float Arith_double) with PrimFloat.mul.
  change (@Dadd float Arith_double) with PrimFloat.add.
  set (J := JAN_1_2000_JD (D := float)) in *.
  set (C := DAYS_IN_CENTURY (D := float)) in *.
  destruct (mul_error T C 22 FT FC) as [FP EP]; [|lia|].
  { rewrite VC. change (powerRZ 2 22) with (2 ^ 22). apply Rabs_def1; lra. }
  change (powerRZ 2 (22 - 53)) with (/ 2 ^ 31) in EP. rewrite VC in EP.
  apply Rabs_le_inv in EP.
  destruct (add_error (T * C) J 23 FP FJ) as [FS ES]; [|lia|].
  { rewrite VJ. change (powerRZ 2 23) with (2 ^ 23). apply Rabs_def1; lra. }
  change (powerRZ 2 (23 - 53)) with (/ 2 ^ 30) in ES. rewrite VJ in ES.
  apply Rabs_le_inv in ES.
  destruct (sub_error (T * C + J) J 22 FS FJ) as [Fd Ed]; [|lia|].
  { rewrite VJ. change (powerRZ 2 22) with (2 ^ 22). apply Rabs_def1; lra. }
  change (powerRZ 2 (22 - 53)) with (/ 2 ^ 31) in Ed. rewrite VJ in Ed.
  apply Rabs_le_inv in Ed.
  destruct (div_error (T * C + J - J) C 7 Fd FC) as [FT' ET']; [rewrite VC; lra| |lia|].
  { rewrite VC. change (powerRZ 2 7) with (2 ^ 7). apply Rabs_def1; lra. }
  change (powerRZ 2 (7 - 53)) with (/ 2 ^ 46) in ET'. rewrite VC in ET'.
  apply Rabs_le_inv in ET'.
  split; [exact FT'|]. apply Rabs_le. lra.
Qed.

(** C7, as stated, fails in binary64: the round trip through century time
    moves the Julian Day 0.1, and the round trip through the Julian Day moves
    the century time -0.0564. *)
Lemma JulianCentury_round_trip_inexact :
  (JulianDayFromJulianCentury (JulianCenturyFromJulianDay 0.1) <> 0.1)%float /\
  (JulianCenturyFromJulianDay (JulianDayFromJulianCentury (-0.0564)) <> -0.0564)%float.
Proof.
  split; intro H; apply (f_equal Prim2SF) in H; vm_compute in H; discriminate.
Qed.

(** C7, amended. Both maps are total.  Read in exact real arithmetic they are
    inverse to each other in both orders.  In binary64 the round trips are
    exact at the epoch (JD 2451545.0, century time 0) and at the Julian Day of
    the almanac test, 1994-05-08, but not in general: the Julian Day 0.1
    comes back as 0.10000000009313226 and the century time -0.0564 as
    -0.056399999999993879.  What binary64 keeps is closeness: a Julian Day of
    magnitude at most 4194304 comes back as a finite [double] within
    [2 ^ -27] of it, and a century time of magnitude at most 100 as a finite
    [double] within [2 ^ -43] of it. *)
Theorem JulianCentury_inverse :
  (forall jd : R, JulianDayFromJulianCentury (JulianCenturyFromJulianDay jd) = jd) /\
  (forall T : R, JulianCenturyFromJulianDay (JulianDayFromJulianCentury T) = T) /\
  (JulianDayFromJulianCentury (JulianCenturyFromJulianDay 2451545.0) = 2451545.0)%float /\
  (JulianCenturyFromJulianDay (JulianDayFromJulianCentury 0.0) = 0.0)%float /\
  (JulianDayFromJulianCentury (JulianCenturyFromJulianDay (JulianDayEx 1994 5 8.0))
   = JulianDayEx 1994 5 8.0)%float /\
  (JulianDayFromJulianCentury (JulianCenturyFromJulianDay 0.1)
   = 0.10000000009313226)%float /\
  (JulianCenturyFromJulianDay (JulianDayFromJulianCentury (-0.0564))
   = -0.056399999999993879)%float /\
  (forall jd : float,
     (abs jd <=? 4194304)%float = true ->
     SF_is_finite
       (Prim2SF (JulianDayFromJulianCentury (JulianCenturyFromJulianDay jd))) = true /\
     Rabs (B2R (JulianDayFromJulianCentury (JulianCenturyFromJulianDay jd)) - B2R jd)
       <= / 2 ^ 27) /\
  (forall T : float,
     (abs T <=? 100)%float = true ->
     SF_is_finite
       (Prim2SF (JulianCenturyFromJulianDay (JulianDayFromJulianCentury T))) = true /\
     Rabs (B2R (JulianCenturyFromJulianDay (JulianDayFromJulianCentury T)) - B2R T)
       <= / 2 ^ 43).
Proof.
  split; [|split; [|split; [|split; [|split; [|split; [|split; [|split]]]]]]];
    try reflexivity.
  - intro jd. unfold JulianDayFromJulianCentury, JulianCenturyFromJulianDay,
      JAN_1_2000_JD, DAYS_IN_CENTURY. simpl. field.
  - intro T. unfold JulianDayFromJulianCentury, JulianCenturyFromJulianDay,
      JAN_1_2000_JD, DAYS_IN_CENTURY. simpl. field.
  - exact JulianDay_round_trip_error.
  - exact JulianCentury_round_trip_error.
Qed.

(** C7 at the Julian Day 0.1 and at the century time -0.0564. *)
Lemma JulianCentury_inverse_witness :
  ((abs 0.1 <=? 4194304)%float = true /\
   SF_is_finite
     (Prim2SF (JulianDayFromJulianCentury (JulianCenturyFromJulianDay 0.1%float))) = true /\
   Rabs (B2R (JulianDayFromJulianCentury (JulianCenturyFromJulianDay 0.1%float))
         - B2R 0.1%float) <= / 2 ^ 27) /\
  ((abs (-0.0564) <=? 100)%float = true /\
   SF_is_finite
     (Prim2SF (JulianCenturyFromJulianDay
                 (JulianDayFromJulianCentury (-0.0564)%float))) = true /\
   Rabs (B2R (JulianCenturyFromJulianDay (JulianDayFromJulianCentury (-0.0564)%float))
         - B2R (-0.0564)%float) <= / 2 ^ 43).
Proof.
  pose proof JulianCentury_inverse as [_ [_ [_ [_ [_ [_ [_ [Hjd HT]]]]]]]].
  split; (split; [reflexivity|]).
  - apply Hjd. reflexivity.
  - apply HT. reflexivity.
Defined.

End CenturyRoundTrips.

(** ** [floor] on the machine mantissa *)

Section PrimitiveFloor.

Local Open Scope Z_scope.

(** What [frshiftexp] and [normfr_mantissa] return on a finite number: on a
    normal one the 53-bit mantissa and the exponent, biased by 2154; on a
    subnormal one a biased exponent of at most 2101. *)
Lemma frshiftexp_finite (x r : float) (se : int) (s : bool) (m : positive) (e : Z) :
  frshiftexp x = (r, se) ->
  Prim2SF x = S754_finite s m e ->
  (2 ^ 52 <= Z.pos m /\ to_Z (normfr_mantissa r) = Z.pos m /\ to_Z se = e + 2154) \/
  (Z.pos m < 2 ^ 52 /\ e = -1074 /\ 1 <= to_Z se <= 2101).
Proof.
  intros Hfr HP.
  pose proof (frshiftexp_spec x) as Hs. rewrite Hfr, HP in Hs.
  pose proof (normfr_mantissa_spec r) as Hn.
  pose proof (Prim2SF_valid x) as Hv. rewrite HP in Hv.
  unfold valid_binary in Hv.
  destruct (bounded_mantissa m e Hv) as (He & Hm & Hnorm).
  pose proof (digits2_pos_bounds m) as Hd.
  cbn [SFfrexp] in Hs.
  change prec with 53 in Hs. change FloatOps.shift with 2101 in Hs.
  destruct (Z.leb_spec 53 (Z.pos (digits2_pos m))) as [Hle | Hlt].
  - left. injection Hs as Hr Hse.
    rewrite Hr in Hn. cbn in Hn.
    assert (2 ^ 52 <= Z.pos m).
    { assert (2 ^ 52 <= 2 ^ (Z.pos (digits2_pos m) - 1)) by (apply Z.pow_le_mono_r; lia). lia. }
    repeat split; [assumption | assumption | lia].
  - right. injection Hs as Hr Hse.
    assert (Z.pos m < 2 ^ 52).
    { assert (2 ^ Z.pos (digits2_pos m) <= 2 ^ 52) by (apply Z.pow_le_mono_r; lia). lia. }
    assert (e = -1074).
    { destruct (Z.eq_dec e (-1074)) as [|n]; [assumption|].
      assert (-1074 < e) as Hgt by lia. specialize (Hnorm Hgt). lia. }
    change (Z.pos_sub 53 (digits2_pos m)) with (53 - Z.pos (digits2_pos m)) in Hse.
    repeat split; [assumption | assumption | lia | lia].
Qed.

(** On a zero, an infinity or a NaN the biased exponent is 0. *)
Lemma frshiftexp_not_finite (x r : float) (se : int) :
  frshiftexp x = (r, se) ->
  (forall s m e, Prim2SF x <> S754_finite s m e) ->
  to_Z se = 0.
Proof.
  intros Hfr HP.
  pose proof (frshiftexp_spec x) as Hs. rewrite Hfr in Hs.
  destruct (Prim2SF x) as [sz | si | | s m e] eqn:E.
  4: exfalso; exact (HP s m e eq_refl).
  all: cbv [SFfrexp] in Hs; change emax with 1024 in Hs; change prec with 53 in Hs;
    change FloatOps.shift with 2101 in Hs; injection Hs as _ Hse; lia.
Qed.

(** A finite number is below zero exactly when its sign bit is set. *)
Lemma ltb_zero_sign (x : float) (s : bool) (m : positive) (e : Z) :
  Prim2SF x = S754_finite s m e -> (x <? 0)%float = s.
Proof.
  intros HP. rewrite FloatAxioms.ltb_spec, HP.
  destruct s; reflexivity.
Qed.

Lemma uint63_range (se : int) (a b : Z) :
  0 <= a <= b -> b < wB ->
  ((of_Z a <=? se) && (se <=? of_Z b))%uint63 = true <-> a <= to_Z se <= b.
Proof.
  intros Ha Hb.
  rewrite andb_true_iff, 2 Uint63.leb_spec.
  rewrite 2 of_Z_spec, 2 Z.mod_small by lia. tauto.
Qed.
(** [floor_u63] is [floor], on every [double]. *)
Lemma floor_u63_correct (x : float) : floor x = floor_u63 x.
Proof.
  unfold floor_u63.
  destruct (frshiftexp x) as [r se] eqn:Hfr.
  pose proof (uint63_range se 2102 2153 ltac:(lia) ltac:(reflexivity)) as H1.
  pose proof (uint63_range se 1 2101 ltac:(lia) ltac:(reflexivity)) as H2.
  change (of_Z 2102) with 2102%uint63 in H1. change (of_Z 2153) with 2153%uint63 in H1.
  change (of_Z 1) with 1%uint63 in H2. change (of_Z 2101) with 2101%uint63 in H2.
  destruct (Prim2SF x) as [sz | si | | s m e] eqn:HP.
  1-3: assert (to_Z se = 0) as Hz
      by (apply (frshiftexp_not_finite x r se Hfr); intros s m e; rewrite HP; discriminate);
    destruct ((2102 <=? se) && (se <=? 2153))%uint63;
      [ assert (2102 <= to_Z se <= 2153) by (apply H1; reflexivity); lia | ];
    destruct ((1 <=? se) && (se <=? 2101))%uint63;
      [ assert (1 <= to_Z se <= 2101) by (apply H2; reflexivity); lia | ];
    unfold floor; rewrite HP; reflexivity.
  pose proof (Prim2SF_valid x) as Hv. rewrite HP in Hv.
  destruct (bounded_mantissa m e Hv) as (He & Hm & _).
  rewrite (ltb_zero_sign x s m e HP).
  unfold floor. rewrite HP.
  assert (forall k, 53 <= k -> Z.pos m / 2 ^ k = 0 /\ Z.pos m mod 2 ^ k = Z.pos m) as Hsmall.
  { intros k Hk. assert (2 ^ 53 <= 2 ^ k) by (apply Z.pow_le_mono_r; lia).
    split; [apply Z.div_small | apply Z.mod_small]; lia. }
  destruct (frshiftexp_finite x r se s m e Hfr HP) as [(Hn & HM & Hse) | (Hn & He' & Hse)].
  - destruct ((2102 <=? se) && (se <=? 2153))%uint63 eqn:C1.
    + assert (2102 <= to_Z se <= 2153) as Hr by (apply H1; reflexivity).
      assert (-52 <= e <= -1) as Hee by lia.
      destruct (Z.leb_spec 0 e) as [|_]; [lia|].
      assert (to_Z (2154 - se) = - e) as Hk.
      { rewrite Uint63.sub_spec. change (to_Z 2154) with 2154.
        rewrite Z.mod_small; [lia|]. change wB with 9223372036854775808. lia. }
      set (M := normfr_mantissa r) in *.
      assert (to_Z (M >> (2154 - se)) = Z.pos m / 2 ^ (- e)) as Hq.
      { rewrite Uint63.lsr_spec, Hk, HM. reflexivity. }
      assert (0 < 2 ^ (- e)) as Hpow by (apply Z.pow_pos_nonneg; lia).
      assert (0 <= Z.pos m / 2 ^ (- e) <= Z.pos m) as Hqb.
      { split; [apply Z.div_pos; lia|]. apply Z.div_le_upper_bound; [lia|]. nia. }
      destruct s.
      * assert ((((M >> (2154 - se)) << (2154 - se)) =? M)%uint63 =
                (Z.pos m mod 2 ^ (- e) =? 0)) as Hc.
        { pose proof (Z.div_mod (Z.pos m) (2 ^ (- e)) ltac:(lia)) as Hdm.
          pose proof (Z.mod_pos_bound (Z.pos m) (2 ^ (- e)) Hpow) as Hmb.
          assert (to_Z ((M >> (2154 - se)) << (2154 - se)) = Z.pos m / 2 ^ (- e) * 2 ^ (- e)) as Hl.
          { rewrite Uint63.lsl_spec, Hk, Hq. apply Z.mod_small.
            change wB with 9223372036854775808. change (2 ^ 53) with 9007199254740992 in Hm. nia. }
          destruct (Z.eqb_spec (Z.pos m mod 2 ^ (- e)) 0) as [E | E].
          - apply Uint63.eqb_spec. apply to_Z_inj. rewrite Hl, HM. lia.
          - apply not_true_is_false. intros C. apply Uint63.eqb_spec in C.
            apply (f_equal to_Z) in C. rewrite Hl, HM in C. lia. }
        rewrite Hc. destruct (Z.pos m mod 2 ^ (- e) =? 0); [reflexivity|].
        unfold double_of_Z.
        destruct (Z.ltb_spec (- (Z.pos m / 2 ^ (- e) + 1)) 0) as [_|]; [|lia].
        do 2 f_equal. apply to_Z_inj.
        rewrite of_Z_spec, Uint63.add_spec, Hq. change (to_Z 1) with 1. f_equal. lia.
      * unfold double_of_Z.
        destruct (Z.ltb_spec (Z.pos m / 2 ^ (- e)) 0) as [|_]; [lia|].
        f_equal. rewrite <- Hq. apply of_to_Z.
    + destruct ((1 <=? se) && (se <=? 2101))%uint63 eqn:C2.
      * assert (1 <= to_Z se <= 2101) as Hr by (apply H2; reflexivity).
        destruct (Z.leb_spec 0 e) as [|_]; [lia|].
        destruct (Hsmall (- e) ltac:(lia)) as [Hq Hmod]. rewrite Hq, Hmod.
        destruct s; reflexivity.
      * destruct (Z.leb_spec 0 e) as [|Hneg]; [reflexivity|].
        exfalso.
        destruct (Z.le_gt_cases (-52) e).
        -- assert (false = true) by (apply H1; lia). discriminate.
        -- assert (false = true) by (apply H2; lia). discriminate.
  - destruct ((2102 <=? se) && (se <=? 2153))%uint63 eqn:C1.
    + assert (2102 <= to_Z se <= 2153) as Hr by (apply H1; reflexivity). lia.
    + destruct ((1 <=? se) && (se <=? 2101))%uint63 eqn:C2.
      * destruct (Z.leb_spec 0 e) as [|_]; [lia|].
        destruct (Hsmall (- e) ltac:(lia)) as [Hq Hmod]. rewrite Hq, Hmod.
        destruct s; reflexivity.
      * assert (false = true) by (apply H2; lia). discriminate.
Qed.

End PrimitiveFloor.

(** ** Integers held in a [double] *)

Section IntegersAsDoubles.
Local Open Scope Z_scope.

(** A positive integer below 2^53 converts exactly: the mantissa is the
    integer shifted left until it has 53 bits. *)
Lemma Prim2SF_of_pos (p : positive) :
  Z.pos p < 2 ^ 53 ->
  exists (m : positive) (e : Z),
    Prim2SF (of_uint63 (of_Z (Z.pos p))) = S754_finite false m e /\
    -52 <= e <= 0 /\ Z.pos m = Z.pos p * 2 ^ (- e) /\ 2 ^ 52 <= Z.pos m < 2 ^ 53.
Proof.
  intros Hp.
  rewrite of_uint63_spec, of_Z_spec.
  rewrite Z.mod_small by (change wB with 9223372036854775808;
                          change (2 ^ 53) with 9007199254740992 in Hp; lia).
  change (binary_normalize prec emax (Z.pos p) 0 false)
    with (binary_round prec emax false p 0).
  pose proof (digits2_pos_bounds p) as Hd.
  assert (Z.pos (digits2_pos p) <= 53) as Hd53.
  { destruct (Z.le_gt_cases (Z.pos (digits2_pos p)) 53) as [|Hgt]; [assumption|].
    assert (2 ^ 53 <= 2 ^ (Z.pos (digits2_pos p) - 1)) by (apply Z.pow_le_mono_r; lia).
    lia. }
  destruct (binary_round_normal false p 0) as (m & e & HR & Hm & Hcase); try lia.
  exists m, e. split; [exact HR|].
  destruct Hcase as [(_ & He & Hmp) | (Hgt & _)]; [|lia].
  split; [lia|]. split; [|exact Hm]. rewrite Hmp. f_equal. f_equal. lia.
Qed.

(** Truncation of a number whose mantissa holds the integer [p] and
    [- e] zero bits below it. *)
Lemma Z_of_double_finite (s : bool) (m : positive) (e : Z) (x : float) (p : Z) :
  Prim2SF x = S754_finite s m e -> -52 <= e <= 0 -> Z.pos m = p * 2 ^ (- e) ->
  Z_of_double x = Some (if s then - p else p).
Proof.
  intros HP He Hm. unfold Z_of_double. rewrite HP.
  assert (0 < 2 ^ (- e)) by (apply Z.pow_pos_nonneg; lia).
  destruct (Z.leb_spec 0 e).
  - assert (e = 0) as -> by lia. change (2 ^ (- 0)) with 1 in Hm.
    change (2 ^ 0) with 1. rewrite Hm. destruct s; f_equal; lia.
  - rewrite Hm, Z.div_mul by lia. reflexivity.
Qed.

(** [int] to [double] and back is the identity. *)
Lemma Z_of_double_of_Z (z : Z) :
  - 2 ^ 53 < z < 2 ^ 53 -> Z_of_double (double_of_Z z) = Some z.
Proof.
  intros Hz. unfold double_of_Z.
  destruct (Z.ltb_spec z 0) as [Hneg | Hpos].
  - destruct z as [|p|p]; try lia.
    change (- Z.neg p) with (Z.pos p).
    destruct (Prim2SF_of_pos p ltac:(lia)) as (m & e & HP & He & Hm & _).
    apply (Z_of_double_finite true m e _ (Z.pos p)); [|assumption|assumption].
    rewrite FloatAxioms.opp_spec, HP. reflexivity.
  - destruct z as [|p|p]; try lia.
    + reflexivity.
    + destruct (Prim2SF_of_pos p ltac:(lia)) as (m & e & HP & He & Hm & _).
      apply (Z_of_double_finite false m e _ (Z.pos p)); assumption.
Qed.

Lemma int_of_double_of_Z (z : Z) :
  - 2 ^ 31 <= z < 2 ^ 31 -> int_of_double (double_of_Z z) = Some z.
Proof.
  intros Hz. unfold int_of_double, signed_of_double.
  rewrite Z_of_double_of_Z by (change (2 ^ 53) with 9007199254740992;
                                change (2 ^ 31) with 2147483648 in Hz; lia).
  change (2 ^ (32 - 1)) with (2 ^ 31).
  destruct (Z.leb_spec (- 2 ^ 31) z); [|lia].
  destruct (Z.ltb_spec z (2 ^ 31)); [reflexivity|lia].
Qed.

(** A [double] made from an [int] is never the negative zero. *)
Lemma double_of_Z_not_neg_zero (z : Z) :
  - 2 ^ 53 < z < 2 ^ 53 -> Prim2SF (double_of_Z z) <> S754_zero true.
Proof.
  intros Hz. unfold double_of_Z.
  destruct (Z.ltb_spec z 0) as [Hneg | Hpos].
  - destruct z as [|p|p]; try lia.
    change (- Z.neg p) with (Z.pos p).
    destruct (Prim2SF_of_pos p ltac:(lia)) as (m & e & HP & _).
    rewrite FloatAxioms.opp_spec, HP. discriminate.
  - destruct z as [|p|p]; try lia.
    + discriminate.
    + destruct (Prim2SF_of_pos p ltac:(lia)) as (m & e & HP & _).
      rewrite HP. discriminate.
Qed.

(** Adding [+0.0] changes nothing but the negative zero. *)
Lemma add_zero_r (x : float) :
  Prim2SF x <> S754_zero true -> (x + 0)%float = x.
Proof.
  intros Hx. apply Prim2SF_inj. rewrite FloatAxioms.add_spec.
  change (Prim2SF 0) with (S754_zero false).
  destruct (Prim2SF x) as [[|] | [|] | | s m e]; try reflexivity.
  exfalso. apply Hx. reflexivity.
Qed.

End IntegersAsDoubles.

(** ** Leap years *)

Section LeapYears.
Local Open Scope Z_scope.

(** A remainder of C is zero exactly when the mathematical one is. *)
Lemma rem_zero_mod (a b : Z) : 0 < b -> (0 =? Z.rem a b) = (a mod b =? 0).
Proof.
  intros Hb.
  destruct (Z.eqb_spec 0 (Z.rem a b)) as [H | H];
    destruct (Z.eqb_spec (a mod b) 0) as [H' | H']; try reflexivity; exfalso.
  - apply H'. apply Z.mod_divide; [lia|]. apply Z.rem_divide; [lia|]. lia.
  - apply H. symmetry. apply Z.rem_divide; [lia|]. apply Z.mod_divide; [lia|]. exact H'.
Qed.

Lemma IsLeapYear_mod (year : Z) :
  IsLeapYear year =
  if ((year mod 4 =? 0) && negb (year mod 100 =? 0)) || (year mod 400 =? 0) then 1 else 0.
Proof.
  unfold IsLeapYear. rewrite !rem_zero_mod by lia. reflexivity.
Qed.

Lemma IsLeapYear_period (year : Z) : IsLeapYear (year + 400) = IsLeapYear year.
Proof.
  rewrite !IsLeapYear_mod.
  replace ((year + 400) mod 4) with (year mod 4)
    by (rewrite <- (Z.mod_add year 100 4) by lia; f_equal; lia).
  replace ((year + 400) mod 100) with (year mod 100)
    by (rewrite <- (Z.mod_add year 4 100) by lia; f_equal; lia).
  replace ((year + 400) mod 400) with (year mod 400)
    by (rewrite <- (Z.mod_add year 1 400) by lia; f_equal; lia).
  reflexivity.
Qed.

Lemma IsLeapYear_0_1 (year : Z) : IsLeapYear year = 0 \/ IsLeapYear year = 1.
Proof. unfold IsLeapYear. destruct (_ || _); [right | left]; reflexivity. Qed.

(** X1. [IsLeapYear] returns 1 exactly on the years divisible by 4 and not
    by 100, or divisible by 400, and 0 on all others; this holds for negative
    years too, where [%] yields negative remainders: a year and its opposite
    get the same answer, and the answer repeats every 400 years. *)
Theorem IsLeapYear_gregorian_rule (year : Z) :
  (IsLeapYear year = 1 <->
   ((4 | year) /\ ~ (100 | year)) \/ (400 | year)) /\
  (IsLeapYear year = 0 <->
   ~ (((4 | year) /\ ~ (100 | year)) \/ (400 | year))) /\
  IsLeapYear (- year) = IsLeapYear year /\
  IsLeapYear (year + 400) = IsLeapYear year.
Proof.
  assert (forall k, 0 < k -> (year mod k =? 0) = true <-> (k | year)) as Hdiv.
  { intros k Hk. rewrite Z.eqb_eq. apply Z.mod_divide. lia. }
  pose proof (Hdiv 4 ltac:(lia)) as H4.
  pose proof (Hdiv 100 ltac:(lia)) as H100.
  pose proof (Hdiv 400 ltac:(lia)) as H400.
  assert (IsLeapYear year = 1 <-> ((4 | year) /\ ~ (100 | year)) \/ (400 | year)) as Hrule.
  { rewrite IsLeapYear_mod.
    destruct (year mod 4 =? 0), (year mod 100 =? 0), (year mod 400 =? 0);
      cbn [andb orb negb]; intuition congruence. }
  split; [exact Hrule|]. split; [|split].
  - destruct (IsLeapYear_0_1 year) as [E | E]; rewrite E in *; split;
      try reflexivity; try discriminate.
    + intros _ C. apply Hrule in C. discriminate.
    + intros C. exfalso. apply C. apply Hrule. reflexivity.
  - unfold IsLeapYear. rewrite !Z.rem_opp_l' .
    assert (forall a, (0 =? - a) = (0 =? a)) as Hopp.
    { intros a. destruct (Z.eqb_spec 0 (- a)), (Z.eqb_spec 0 a); try reflexivity; lia. }
    rewrite !Hopp. reflexivity.
  - apply IsLeapYear_period.
Qed.

Lemma leap_years_last (n : nat) :
  forall year, leap_years year (S n) = leap_years year n + IsLeapYear (year + Z.of_nat n).
Proof.
  induction n as [|n IH]; intros year.
  - cbn [leap_years]. replace (year + Z.of_nat 0) with year by lia. lia.
  - change (leap_years year (S (S n))) with (IsLeapYear year + leap_years (year + 1) (S n)).
    rewrite IH. cbn [leap_years].
    replace (year + 1 + Z.of_nat n) with (year + Z.of_nat (S n)) by lia. lia.
Qed.

Lemma leap_years_shift (year : Z) : leap_years (year + 1) 400 = leap_years year 400.
Proof.
  pose proof (leap_years_last 400 year) as H.
  change (leap_years year 401) with (IsLeapYear year + leap_years (year + 1) 400) in H.
  change (Z.of_nat 400) with 400 in H. rewrite IsLeapYear_period in H. lia.
Qed.

(** X2. Any 400 consecutive years, wherever they start, hold exactly 97
    years on which [IsLeapYear] returns 1. *)
Theorem IsLeapYear_97_in_400 (year : Z) : leap_years year 400 = 97.
Proof.
  assert (forall k : nat, leap_years (Z.of_nat k) 400 = 97 /\ leap_years (- Z.of_nat k) 400 = 97)
    as H.
  { induction k as [|k [IH1 IH2]].
    - split; vm_compute; reflexivity.
    - split.
      + replace (Z.of_nat (S k)) with (Z.of_nat k + 1) by lia.
        rewrite leap_years_shift. exact IH1.
      + rewrite <- IH2. symmetry.
        replace (- Z.of_nat k) with (- Z.of_nat (S k) + 1) by lia.
        apply leap_years_shift. }
  destruct (Z.le_gt_cases 0 year).
  - replace year with (Z.of_nat (Z.to_nat year)) by lia. apply H.
  - replace year with (- Z.of_nat (Z.to_nat (- year))) by lia. apply H.
Qed.

End LeapYears.

(** ** Checking a year of dates *)

Section CalendarChecks.
Local Open Scope float_scope.

Lemma In_seqZ (lo z : Z) (n : nat) :
  (lo <= z < lo + Z.of_nat n)%Z -> In z (seqZ lo n).
Proof.
  intros H. unfold seqZ. apply in_map_iff.
  exists (Z.to_nat (z - lo)). split; [lia | apply in_seq; lia].
Qed.

Lemma feq_eq (x y : float) : feq x y = true -> x = y.
Proof. apply Leibniz.eqb_spec. Qed.

Lemma date_u63_correct (jd : float) : date_u63 jd = DayOfYearFromJulianDay_date jd.
Proof.
  unfold date_u63, DayOfYearFromJulianDay_date.
  rewrite <- !floor_u63_correct. reflexivity.
Qed.

(** Counting in [double]s is exact on the day numbers of a year. *)
Lemma double_of_Z_succ_check :
  forallb (fun z => feq (double_of_Z (z + 1)) (double_of_Z z + 1)) (seqZ 0 400) = true.
Proof. vm_compute. reflexivity. Qed.

Lemma double_of_Z_succ (z : Z) :
  (0 <= z < 400)%Z -> double_of_Z (z + 1) = double_of_Z z + 1.
Proof.
  intros Hz. apply feq_eq.
  apply (proj1 (forallb_forall _ _) double_of_Z_succ_check z).
  apply In_seqZ. lia.
Qed.

Lemma check_days_sound (one : float -> float -> float -> bool) (n : nat) :
  forall d k j : Z,
    (0 <= d)%Z -> (0 <= k)%Z -> (0 <= j)%Z ->
    (d + Z.of_nat n <= 400)%Z -> (k + Z.of_nat n <= 400)%Z -> (j + Z.of_nat n <= 400)%Z ->
    check_days one n (double_of_Z d) (double_of_Z k) (double_of_Z j) = true ->
    forall i : Z, (0 <= i < Z.of_nat n)%Z ->
      one (double_of_Z (d + i)) (double_of_Z (k + i)) (double_of_Z (j + i)) = true.
Proof.
  induction n as [|n IH]; intros d k j Hd Hk Hj Hdn Hkn Hjn Hc i Hi; [lia|].
  cbn [check_days] in Hc. apply andb_true_iff in Hc as [H0 Hrest].
  destruct (Z.eq_dec i 0) as [-> | Hne].
  - rewrite !Z.add_0_r. exact H0.
  - rewrite <- !double_of_Z_succ in Hrest by lia.
    replace (d + i)%Z with (d + 1 + (i - 1))%Z by lia.
    replace (k + i)%Z with (k + 1 + (i - 1))%Z by lia.
    replace (j + i)%Z with (j + 1 + (i - 1))%Z by lia.
    apply IH; try lia. exact Hrest.
Qed.

Lemma days_before_bounds (leap : bool) (k : nat) :
  (k <= 12)%nat -> (0 <= days_before leap k <= 31 * Z.of_nat k)%Z.
Proof.
  induction k as [|k IH]; intros Hk; [cbn; lia|].
  cbn [days_before].
  assert (28 <= days_in_month leap (Z.of_nat (S k)) <= 31)%Z.
  { unfold days_in_month.
    destruct (_ =? 2)%Z; [destruct leap; lia|]. destruct (_ || _); lia. }
  specialize (IH ltac:(lia)). lia.
Qed.

(** [JulianDayEx] once the calendar is known. *)
Lemma JulianDayEx_calendar (greg : bool) (y m : Z) (dayFrac : float) :
  (if greg then 1583 <= y else y < 1582 \/ (y = 1582 /\ m < 10))%Z ->
  JulianDayEx y m dayFrac =
  floor_u63 (365.25 * double_of_Z ((if (m <=? 2)%Z then y - 1 else y) + 4716)) +
  floor_u63 (30.6001 * double_of_Z ((if (m <=? 2)%Z then m + 12 else m) + 1)) +
  dayFrac +
  double_of_Z (century_correction greg (if (m <=? 2)%Z then y - 1 else y)) - 1524.5.
Proof.
  intros Hreg.
  unfold JulianDayEx, JulianDayEx_b, JulianDayEx_flag, JulianDayEx_shift, century_correction.
  rewrite <- !floor_u63_correct.
  destruct greg.
  - destruct (Z.gtb_spec y 1582) as [_|]; [|lia].
    destruct (m <=? 2)%Z; reflexivity.
  - destruct (Z.gtb_spec y 1582) as [|_]; [lia|].
    destruct (Z.eqb_spec y 1582) as [Hy|_].
    + destruct (Z.gtb_spec m 11) as [|_]; [lia|].
      destruct (Z.eqb_spec m 10) as [|_]; [lia|].
      destruct (m <=? 2)%Z; reflexivity.
    + destruct (m <=? 2)%Z; reflexivity.
Qed.

(** What a successful [check_year] establishes of the source functions. *)
Lemma check_year_sound (greg : bool) (y : Z) :
  check_year greg y = true ->
  (if greg then 1583 <= y else y <= 1581)%Z ->
  (- 2 ^ 31 <= y < 2 ^ 31)%Z ->
  let leap := gregorian_leap y in
  let cleap := if greg then leap else julian_leap y in
  JulianDayEx (y + 1) 1 1 =
    JulianDayEx y 1 1 + double_of_Z (365 + (if cleap then 1 else 0)) /\
  forall m d : Z,
    (1 <= m <= 12)%Z -> (1 <= d <= days_in_month cleap m)%Z ->
    JulianDayEx y m (double_of_Z d) =
      JulianDayEx y 1 1 + double_of_Z (day_number cleap m d - 1) /\
    DayOfYearFromJulianDay_date (JulianDayEx y m (double_of_Z d)) =
      (double_of_Z y, double_of_Z m, double_of_Z d) /\
    DayOfYearFromJulianDay (JulianDayEx y m (double_of_Z d)) =
      Some (double_of_Z (day_number leap m d)).
Proof.
  intros Hc Hreg Hy leap cleap.
  unfold check_year in Hc. fold leap in Hc. fold cleap in Hc.
  apply andb_true_iff in Hc as [Hnext Hmonths].
  apply feq_eq in Hnext.
  rewrite forallb_forall in Hmonths.
  assert (JulianDayEx y 1 1 =
          floor_u63 (365.25 * double_of_Z (y - 1 + 4716)) +
          floor_u63 (30.6001 * double_of_Z (1 + 12 + 1)) + 1 +
          double_of_Z (century_correction greg (y - 1)) - 1524.5) as Hjan1.
  { rewrite (JulianDayEx_calendar greg y 1 1); [reflexivity|]. destruct greg; lia. }
  split.
  - rewrite Hjan1, <- Hnext.
    rewrite (JulianDayEx_calendar greg (y + 1) 1 1) by (destruct greg; lia).
    change (1 <=? 2)%Z with true. cbv iota.
    replace (y + 1 - 1)%Z with y by lia. reflexivity.
  - intros m d Hm Hd.
    specialize (Hmonths m (In_seqZ 1 m 12 ltac:(lia))).
    unfold check_month in Hmonths.
    pose proof (days_before_bounds leap (Z.to_nat (m - 1)) ltac:(lia)) as Hb1.
    pose proof (days_before_bounds cleap (Z.to_nat (m - 1)) ltac:(lia)) as Hb2.
    assert (days_in_month cleap m <= 31)%Z as Hlen.
    { unfold days_in_month. destruct (_ =? 2)%Z; [destruct cleap; lia|].
      destruct (_ || _); lia. }
    apply check_days_sound with (i := (d - 1)%Z) in Hmonths; try lia.
    replace (1 + (d - 1))%Z with d in Hmonths by lia.
    unfold check_day in Hmonths.
    pose proof (JulianDayEx_calendar greg y m (double_of_Z d)
                  ltac:(destruct greg; lia)) as HJ.
    destruct (m <=? 2)%Z; rewrite <- HJ in Hmonths; clear HJ.
    all: rewrite date_u63_correct in Hmonths.
    all: destruct (DayOfYearFromJulianDay_date (JulianDayEx y m (double_of_Z d)))
      as [[year month] day] eqn:Hdate.
    all: rewrite <- Hjan1 in Hmonths.
    all: repeat (apply andb_true_iff in Hmonths as [Hmonths ?H]).
    all: repeat match goal with H : feq _ _ = true |- _ => apply feq_eq in H end.
    all: subst year month day.
    all: (split; [|split; [reflexivity|]]).
    all: try (rewrite Hmonths; unfold day_number; do 2 f_equal; lia).
    all: replace (days_before leap (Z.to_nat (m - 1)) + 1 + (d - 1))%Z
           with (days_before leap (Z.to_nat (m - 1)) + d)%Z in * by lia.
    all: unfold DayOfYearFromJulianDay; rewrite Hdate.
    all: rewrite int_of_double_of_Z by assumption.
    all: rewrite <- !floor_u63_correct in H.
    all: unfold day_number; rewrite <- H; f_equal.
    all: unfold leap, gregorian_leap.
    all: destruct (IsLeapYear y =? 0)%Z; reflexivity.
Qed.

End CalendarChecks.

(** ** Dates to Julian Days and back *)

Section CalendarRoundTrips.
Local Open Scope float_scope.

(** The years 1583 to 2999 of the Gregorian calendar and the years -4712 to
    1581 of the Julian calendar, day by day. *)
Lemma calendar_check_gregorian : forallb (check_year true) (seqZ 1583 (Z.to_nat 1417)) = true.
Proof. vm_compute. reflexivity. Qed.

Lemma calendar_check_julian : forallb (check_year false) (seqZ (-4712) (Z.to_nat 6294)) = true.
Proof. vm_compute. reflexivity. Qed.

Lemma check_year_gregorian (y : Z) :
  (1583 <= y <= 2999)%Z -> check_year true y = true.
Proof.
  intros Hy. apply (proj1 (forallb_forall _ _) calendar_check_gregorian).
  apply In_seqZ. lia.
Qed.

Lemma check_year_julian (y : Z) :
  (-4712 <= y <= 1581)%Z -> check_year false y = true.
Proof.
  intros Hy. apply (proj1 (forallb_forall _ _) calendar_check_julian).
  apply In_seqZ. lia.
Qed.

Lemma gregorian_leap_IsLeapYear (y : Z) :
  (if gregorian_leap y then 1 else 0)%Z = IsLeapYear y.
Proof.
  unfold gregorian_leap. destruct (IsLeapYear_0_1 y) as [E | E]; rewrite E; reflexivity.
Qed.

(** X3. The Julian Day of 1 January advances by the length of the year: by
    365 + [IsLeapYear y] from 1583 to 2999, by 365 or (every fourth year,
    century years included) 366 in the Julian calendar from -4712 to 1581,
    and by 355 across 1582, the year of the reform. *)
Theorem JulianDayEx_year_length :
  (forall y : Z, (1583 <= y <= 2999)%Z ->
     JulianDayEx (y + 1) 1 1 = JulianDayEx y 1 1 + double_of_Z (365 + IsLeapYear y)) /\
  (forall y : Z, (-4712 <= y <= 1581)%Z ->
     JulianDayEx (y + 1) 1 1 =
     JulianDayEx y 1 1 + double_of_Z (365 + (if julian_leap y then 1 else 0))) /\
  JulianDayEx 1583 1 1 = JulianDayEx 1582 1 1 + 355.
Proof.
  split; [|split].
  - intros y Hy.
    destruct (check_year_sound true y (check_year_gregorian y Hy)) as [H _]; try lia.
    cbv zeta in H. rewrite gregorian_leap_IsLeapYear in H. exact H.
  - intros y Hy.
    destruct (check_year_sound false y (check_year_julian y Hy)) as [H _]; try lia.
    exact H.
  - vm_compute. reflexivity.
Qed.

(** X3 at the years 2000 and 1500. *)
Lemma JulianDayEx_year_length_witness :
  JulianDayEx (2000 + 1) 1 1 = JulianDayEx 2000 1 1 + double_of_Z (365 + IsLeapYear 2000) /\
  JulianDayEx (1500 + 1) 1 1 =
    JulianDayEx 1500 1 1 + double_of_Z (365 + (if julian_leap 1500 then 1 else 0)).
Proof.
  split.
  - apply (proj1 JulianDayEx_year_length 2000%Z). lia.
  - apply (proj1 (proj2 JulianDayEx_year_length) 1500%Z). lia.
Defined.

(** X4. Within a year [JulianDayEx] counts days: for every date of the
    Gregorian years 1583 to 2999 and of the Julian years -4712 to 1581, the
    Julian Day of day [d] of month [m] is that of 1 January plus the number
    of days between them. *)
Theorem JulianDayEx_consecutive_days :
  (forall y m d : Z,
     (1583 <= y <= 2999)%Z -> (1 <= m <= 12)%Z ->
     (1 <= d <= days_in_month (gregorian_leap y) m)%Z ->
     JulianDayEx y m (double_of_Z d) =
     JulianDayEx y 1 1 + double_of_Z (day_number (gregorian_leap y) m d - 1)) /\
  (forall y m d : Z,
     (-4712 <= y <= 1581)%Z -> (1 <= m <= 12)%Z ->
     (1 <= d <= days_in_month (julian_leap y) m)%Z ->
     JulianDayEx y m (double_of_Z d) =
     JulianDayEx y 1 1 + double_of_Z (day_number (julian_leap y) m d - 1)).
Proof.
  split; intros y m d Hy Hm Hd.
  - destruct (check_year_sound true y (check_year_gregorian y Hy)) as [_ H]; try lia.
    apply (H m d Hm Hd).
  - destruct (check_year_sound false y (check_year_julian y Hy)) as [_ H]; try lia.
    apply (H m d Hm Hd).
Qed.

(** X4 at 2024-12-31 and at 1500-03-01. *)
Lemma JulianDayEx_consecutive_days_witness :
  JulianDayEx 2024 12 (double_of_Z 31) =
    JulianDayEx 2024 1 1 + double_of_Z (day_number (gregorian_leap 2024) 12 31 - 1) /\
  JulianDayEx 1500 3 (double_of_Z 1) =
    JulianDayEx 1500 1 1 + double_of_Z (day_number (julian_leap 1500) 3 1 - 1).
Proof.
  split.
  - apply (proj1 JulianDayEx_consecutive_days 2024%Z 12%Z 31%Z); [lia | lia |].
    vm_compute. split; discriminate.
  - apply (proj2 JulianDayEx_consecutive_days 1500%Z 3%Z 1%Z); [lia | lia |].
    vm_compute. split; discriminate.
Defined.

(** X5. [DayOfYearFromJulianDay] inverts [JulianDayEx] on the Gregorian
    calendar: for every date from 1583-01-01 to 2999-12-31 its locals [year],
    [month], [day] are the date again, and its result is the number of the
    day in the year (1 to 365, or 366 when [IsLeapYear] holds). *)
Theorem DayOfYearFromJulianDay_gregorian (y m d : Z) :
  (1583 <= y <= 2999)%Z -> (1 <= m <= 12)%Z ->
  (1 <= d <= days_in_month (gregorian_leap y) m)%Z ->
  DayOfYearFromJulianDay_date (JulianDayEx y m (double_of_Z d)) =
    (double_of_Z y, double_of_Z m, double_of_Z d) /\
  DayOfYearFromJulianDay (JulianDayEx y m (double_of_Z d)) =
    Some (double_of_Z (day_number (gregorian_leap y) m d)).
Proof.
  intros Hy Hm Hd.
  destruct (check_year_sound true y (check_year_gregorian y Hy)) as [_ H]; try lia.
  destruct (H m d Hm Hd) as (_ & H1 & H2). split; assumption.
Qed.

(** X5 at 2024-12-31. *)
Lemma DayOfYearFromJulianDay_gregorian_witness :
  DayOfYearFromJulianDay_date (JulianDayEx 2024 12 (double_of_Z 31)) =
    (double_of_Z 2024, double_of_Z 12, double_of_Z 31) /\
  DayOfYearFromJulianDay (JulianDayEx 2024 12 (double_of_Z 31)) =
    Some (double_of_Z (day_number (gregorian_leap 2024) 12 31)).
Proof.
  apply (DayOfYearFromJulianDay_gregorian 2024%Z 12%Z 31%Z); [lia | lia |].
  vm_compute. split; discriminate.
Defined.

(** X6. On the Julian calendar (-4712 to 1581) [DayOfYearFromJulianDay]
    still recovers the date, but numbers the days with [IsLeapYear], the
    Gregorian rule.  In the years that only the Julian calendar counts as
    leap (100, 200, 300, 500, ...) the numbers after February are one short:
    29 February and 1 March both get 60, and 31 December gets 365 although it
    lies 365 days after 1 January. *)
Theorem DayOfYearFromJulianDay_julian (y : Z) :
  (-4712 <= y <= 1581)%Z ->
  (forall m d : Z,
     (1 <= m <= 12)%Z -> (1 <= d <= days_in_month (julian_leap y) m)%Z ->
     DayOfYearFromJulianDay_date (JulianDayEx y m (double_of_Z d)) =
       (double_of_Z y, double_of_Z m, double_of_Z d) /\
     DayOfYearFromJulianDay (JulianDayEx y m (double_of_Z d)) =
       Some (double_of_Z (day_number (gregorian_leap y) m d))) /\
  (julian_leap y = true -> gregorian_leap y = false ->
     DayOfYearFromJulianDay (JulianDayEx y 2 (double_of_Z 29)) = Some 60 /\
     DayOfYearFromJulianDay (JulianDayEx y 3 (double_of_Z 1)) = Some 60 /\
     DayOfYearFromJulianDay (JulianDayEx y 12 (double_of_Z 31)) = Some 365 /\
     JulianDayEx y 12 (double_of_Z 31) = JulianDayEx y 1 1 + 365).
Proof.
  intros Hy.
  destruct (check_year_sound false y (check_year_julian y Hy)) as [_ H]; try lia.
  cbv zeta in H.
  split.
  - intros m d Hm Hd. destruct (H m d Hm Hd) as (_ & H1 & H2). split; assumption.
  - intros HJ HG. rewrite HJ, HG in H.
    destruct (H 2%Z 29%Z ltac:(lia) ltac:(cbv; split; discriminate)) as (_ & _ & H1).
    destruct (H 3%Z 1%Z ltac:(lia) ltac:(cbv; split; discriminate)) as (_ & _ & H2).
    destruct (H 12%Z 31%Z ltac:(lia) ltac:(cbv; split; discriminate)) as (H4 & _ & H3).
    repeat split; assumption.
Qed.

(** X6 at the year 1500. *)
Lemma DayOfYearFromJulianDay_julian_witness :
  DayOfYearFromJulianDay (JulianDayEx 1500 2 (double_of_Z 29)) = Some 60 /\
  DayOfYearFromJulianDay (JulianDayEx 1500 3 (double_of_Z 1)) = Some 60 /\
  DayOfYearFromJulianDay (JulianDayEx 1500 12 (double_of_Z 31)) = Some 365 /\
  JulianDayEx 1500 12 (double_of_Z 31) = JulianDayEx 1500 1 1 + 365.
Proof.
  apply (proj2 (DayOfYearFromJulianDay_julian 1500%Z ltac:(lia))); reflexivity.
Defined.

End CalendarRoundTrips.

(** ** Edges of the calendar functions *)

Section CalendarEdges.
Local Open Scope float_scope.

Lemma october_1582_check :
  forallb (fun d => feq (JulianDayEx 1582 10 (double_of_Z d))
                        (JulianDayEx 1582 10 (double_of_Z (d + 10))))
          (seqZ 5 10) = true.
Proof. vm_compute. reflexivity. Qed.

(** X7. The reform of October 1582: 15 October comes one day after
    4 October (their day numbers are 277 and 288), and the ten dates in
    between, which never existed, are accepted and read as Julian-calendar
    dates: each gets the Julian Day of the date ten days later. *)
Theorem JulianDayEx_october_1582 :
  JulianDayEx 1582 10 15 = JulianDayEx 1582 10 4 + 1 /\
  (forall d : Z, (5 <= d <= 14)%Z ->
     JulianDayEx 1582 10 (double_of_Z d) = JulianDayEx 1582 10 (double_of_Z (d + 10))) /\
  DayOfYearFromJulianDay (JulianDayEx 1582 10 4) = Some 277 /\
  DayOfYearFromJulianDay (JulianDayEx 1582 10 15) = Some 288.
Proof.
  split; [vm_compute; reflexivity|]. split; [|split; vm_compute; reflexivity].
  intros d Hd. apply feq_eq.
  apply (proj1 (forallb_forall _ _) october_1582_check d).
  apply In_seqZ. lia.
Qed.

(** X7 at 5 October 1582. *)
Lemma JulianDayEx_october_1582_witness :
  JulianDayEx 1582 10 (double_of_Z 5) = JulianDayEx 1582 10 (double_of_Z (5 + 10)).
Proof.
  apply (proj1 (proj2 JulianDayEx_october_1582) 5%Z). lia.
Defined.

(** X8. A NaN day gives a NaN Julian Day, whatever the year and the month,
    and [DayOfYearFromJulianDay] has no defined result on it, nor on an
    infinity, nor on a Julian Day as large as 1e13: the year it hands to
    [IsLeapYear] does not fit an [int]. *)
Theorem JulianDayEx_nan (y m : Z) :
  JulianDayEx y m nan = nan /\
  DayOfYearFromJulianDay (JulianDayEx y m nan) = None /\
  DayOfYearFromJulianDay infinity = None /\
  DayOfYearFromJulianDay neg_infinity = None /\
  DayOfYearFromJulianDay 1e13 = None /\
  DayOfYearFromJulianDay (-1e13) = None.
Proof.
  assert (JulianDayEx y m nan = nan) as H.
  { unfold JulianDayEx. destruct (JulianDayEx_shift y m) as [y' m'].
    rewrite add_nan_r, add_nan_l, sub_nan_l. reflexivity. }
  rewrite H. repeat split; vm_compute; reflexivity.
Qed.

(** X9. At 0 h 0 min 0 s, [JulianDay] is [JulianDayEx] of the same year and
    month and of the day converted to [double], for every [int] day. *)
Theorem JulianDay_midnight (year month day : Z) :
  (- 2 ^ 31 <= day < 2 ^ 31)%Z ->
  JulianDay year month day 0 0 0 = JulianDayEx year month (double_of_Z day).
Proof.
  intros Hd. unfold JulianDay.
  change (double_of_Z 0 / 24.0) with 0.
  change (double_of_Z 0 / MIN_PER_DAY) with 0.
  change (double_of_Z 0 / (MIN_PER_DAY * 60.0)) with 0.
  assert (Prim2SF (double_of_Z day) <> S754_zero true) as Hnz.
  { apply double_of_Z_not_neg_zero.
    change (2 ^ 31)%Z with 2147483648%Z in Hd. change (2 ^ 53)%Z with 9007199254740992%Z. lia. }
  rewrite !(add_zero_r (double_of_Z day) Hnz). reflexivity.
Qed.

(** X9 at 2000-01-01. *)
Lemma JulianDay_midnight_witness :
  JulianDay 2000 1 1 0 0 0 = JulianDayEx 2000 1 (double_of_Z 1).
Proof. apply JulianDay_midnight. lia. Defined.

End CalendarEdges.

(** ** Fixed points and special values of [NormalizeDegrees] *)

Section NormalizeDegreesEdges.
Local Open Scope float_scope.

(** Swapping the operands of a comparison reverses its outcome. *)
Lemma SFcompare_antisym (X Y : spec_float) :
  SFcompare Y X = option_map CompOpp (SFcompare X Y).
Proof.
  destruct X as [sx|sx| |sx mx ex], Y as [sy|sy| |sy my ey]; try reflexivity;
    try (destruct sx; reflexivity); try (destruct sy; reflexivity);
    try (destruct sx, sy; reflexivity).
  assert (Pos.compare_cont Eq my mx = CompOpp (Pos.compare_cont Eq mx my)) as Hm
    by (symmetry; apply (Pos.compare_cont_antisym mx my Eq)).
  unfold SFcompare, option_map. f_equal.
  rewrite (Z.compare_antisym ex ey), Hm.
  destruct sx, sy, (ex ?= ey)%Z; cbn [CompOpp]; try reflexivity;
    rewrite ?CompOpp_involutive; reflexivity.
Qed.

Lemma leb_not_ltb (x y : float) : (x <=? y) = true -> (y <? x) = false.
Proof.
  rewrite FloatAxioms.leb_spec, FloatAxioms.ltb_spec.
  unfold SFleb, SFltb. rewrite (SFcompare_antisym (Prim2SF x) (Prim2SF y)).
  destruct (SFcompare (Prim2SF x) (Prim2SF y)) as [[| |]|]; cbn; congruence.
Qed.

(** More fuel never changes a result. *)
Lemma NormalizeDegrees_fuel (n k : nat) (x r : float) :
  (n <= k)%nat -> NormalizeDegrees n x = Some r -> NormalizeDegrees k x = Some r.
Proof.
  intros Hnk. unfold NormalizeDegrees.
  destruct (NormalizeDegrees_while_gt n x) as [x'|] eqn:E; [|discriminate].
  rewrite (NormalizeDegrees_while_gt_fuel n k x x' Hnk E).
  apply NormalizeDegrees_while_lt_fuel. exact Hnk.
Qed.

Lemma NormalizeDegrees_in_range (x : float) (n : nat) :
  (0 <=? x) = true -> (x <=? 360) = true -> NormalizeDegrees (S n) x = Some x.
Proof.
  intros H0 H360. unfold NormalizeDegrees.
  rewrite NormalizeDegrees_while_gt_double, (leb_not_ltb x 360 H360).
  rewrite NormalizeDegrees_while_lt_double, (leb_not_ltb 0 x H0). reflexivity.
Qed.

(** X10. [NormalizeDegrees] returns an angle already in [0, 360] unchanged,
    bit for bit; so normalising twice is normalising once, for every input of
    magnitude at most 1e18. *)
Theorem NormalizeDegrees_idempotent :
  (forall (x : float) (n : nat),
     (0 <=? x) = true -> (x <=? 360) = true -> NormalizeDegrees (S n) x = Some x) /\
  (forall (x r : float) (fuel n : nat),
     (abs x <=? 1e18) = true -> NormalizeDegrees fuel x = Some r ->
     NormalizeDegrees (S n) r = Some r).
Proof.
  split; [exact NormalizeDegrees_in_range|].
  intros x r fuel n Hx Hr.
  destruct (NormalizeDegrees_binary64_range x Hx) as (fuel0 & r0 & Hr0 & H0 & H360).
  assert (r = r0) as ->.
  { apply (NormalizeDegrees_fuel fuel (Nat.max fuel fuel0)) in Hr; [|lia].
    apply (NormalizeDegrees_fuel fuel0 (Nat.max fuel fuel0)) in Hr0; [|lia].
    congruence. }
  apply NormalizeDegrees_in_range; assumption.
Qed.

(** X10 at 90 degrees, and at 400 degrees, which normalises to 40. *)
Lemma NormalizeDegrees_idempotent_witness :
  NormalizeDegrees 1 90 = Some 90 /\
  NormalizeDegrees 1 40 = Some 40.
Proof.
  split.
  - apply (proj1 NormalizeDegrees_idempotent 90 0%nat); reflexivity.
  - apply (proj2 NormalizeDegrees_idempotent 400 40 2%nat 0%nat); reflexivity.
Defined.

(** A state the addition does not change keeps the second loop running. *)
Lemma NormalizeDegrees_while_lt_stuck (x : float) :
  (x <? 0) = true -> x + 360 = x ->
  forall fuel, NormalizeDegrees_while_lt fuel x = None.
Proof.
  intros Hlt Hadd fuel. induction fuel as [|fuel IH]; [reflexivity|].
  rewrite NormalizeDegrees_while_lt_double, Hlt, Hadd. exact IH.
Qed.

(** X11. On the special values: a NaN and the negative zero are returned as
    they are; on either infinity the function does not terminate. *)
Theorem NormalizeDegrees_special_values :
  (forall n : nat, NormalizeDegrees (S n) nan = Some nan) /\
  (forall n : nat, NormalizeDegrees (S n) (-0) = Some (-0)) /\
  (forall fuel : nat, NormalizeDegrees fuel infinity = None) /\
  (forall fuel : nat, NormalizeDegrees fuel neg_infinity = None).
Proof.
  split; [|split; [|split]].
  - intros n. reflexivity.
  - intros n. reflexivity.
  - intros fuel. unfold NormalizeDegrees.
    rewrite (NormalizeDegrees_while_gt_stuck infinity) by reflexivity. reflexivity.
  - intros [|fuel]; [reflexivity|]. unfold NormalizeDegrees.
    rewrite NormalizeDegrees_while_gt_double.
    change (360 <? neg_infinity) with false. cbv iota.
    apply NormalizeDegrees_while_lt_stuck; reflexivity.
Qed.

End NormalizeDegreesEdges.

(** ** The solver on a NaN date *)

Section SolverEdges.
Local Open Scope float_scope.
Context {libm : Libm}.

(** X12. For every C library, a NaN Julian Day gives a NaN time, in one pass
    and in two. *)
Theorem UTCForSolarAngle_nan_date (rise : Z) (latitude angle : float) :
  UTCForSolarAngleAux rise nan (DEG2RAD latitude) (DEG2RAD angle) = nan /\
  UTCForSolarAngle rise nan latitude angle = nan.
Proof.
  split.
  - apply UTCForSolarAngleAux_nan_jd.
  - apply UTCForSolarAngle_nan_first_pass. apply UTCForSolarAngleAux_nan_jd.
Qed.

End SolverEdges.

(** ** The text of a time *)

Section FormatMinutesFacts.
Local Open Scope float_scope.

Lemma string_length_append (s t : string) :
  String.length (s ++ t) = (String.length s + String.length t)%nat.
Proof. induction s as [|c s IH]; cbn; [reflexivity | rewrite IH; reflexivity]. Qed.

Lemma substring_0_length (n : nat) :
  forall s : string, (n <= String.length s)%nat -> String.length (substring 0 n s) = n.
Proof.
  induction n as [|n IH]; intros [|c s] H; cbn in *; try reflexivity; try lia.
  rewrite IH by lia. reflexivity.
Qed.

Lemma fmt_02d_length (n : Z) : (2 <= String.length (Main.fmt_02d n))%nat.
Proof.
  unfold Main.fmt_02d.
  destruct (Nat.ltb_spec (String.length (NilZero.string_of_int (Z.to_int n))) 2) as [H | H];
    [|exact H].
  cbn [String.length].
  assert (1 <= String.length (NilZero.string_of_int (Z.to_int n)))%nat; [|lia].
  destruct (Z.to_int n) as [d | d]; destruct d; cbn; lia.
Qed.

(** The formatted text for each number of minutes from 0 to 5999. *)
Lemma FormatMinutes_check :
  forallb (fun n => String.eqb
             (Main.snprintf_6 (Main.fmt_02d (n ÷ 60) ++ " " ++ Main.fmt_02d (Z.rem n 60)))
             (hh_mm n))
          (seqZ 0 (Z.to_nat 6000)) = true.
Proof. vm_compute. reflexivity. Qed.

(** What [round] then [(int)] give on a number that is neither NaN nor
    negative is not negative. *)
Lemma int_of_round_nonneg (x : float) (n : Z) :
  (x <? 0) = false -> int_of_double (Main.round x) = Some n -> (0 <= n)%Z.
Proof.
  intros Hneg. unfold int_of_double, signed_of_double.
  destruct (Z_of_double (Main.round x)) as [q|] eqn:Hq; [|discriminate].
  assert (0 <= q)%Z as Hq0.
  { revert Hq. unfold Main.round.
    destruct (Prim2SF x) as [s | s | | s m e] eqn:HP.
    - unfold Z_of_double. rewrite HP. intros [= <-]. lia.
    - unfold Z_of_double. rewrite HP. discriminate.
    - unfold Z_of_double. rewrite HP. discriminate.
    - rewrite (ltb_zero_sign x s m e HP) in Hneg. subst s.
      pose proof (Prim2SF_valid x) as Hv. rewrite HP in Hv.
      destruct (bounded_mantissa m e Hv) as (He & Hm & _).
      destruct (Z.leb_spec 0 e) as [He0 | He0].
      + unfold Z_of_double. rewrite HP.
        destruct (Z.leb_spec 0 e); [|lia]. intros [= <-].
        assert (0 < 2 ^ e)%Z by (apply Z.pow_pos_nonneg; lia).
        destruct (2 ^ e)%Z; lia.
      + assert (0 < 2 ^ (- e))%Z as Hpow by (apply Z.pow_pos_nonneg; lia).
        assert (2 <= 2 ^ (- e))%Z as Hpow2.
        { change 2%Z with (2 ^ 1)%Z at 1. apply Z.pow_le_mono_r; lia. }
        assert (0 <= Z.pos m / 2 ^ (- e) < 2 ^ 52)%Z as Hdiv.
        { split; [apply Z.div_pos; lia|].
          apply Z.div_lt_upper_bound; [lia|].
          change (2 ^ 53)%Z with 9007199254740992%Z in Hm.
          change (2 ^ 52)%Z with 4503599627370496%Z. nia. }
        set (q' := if (2 ^ (- e) <=? 2 * (Z.pos m mod 2 ^ (- e)))%Z
                   then (Z.pos m / 2 ^ (- e) + 1)%Z else (Z.pos m / 2 ^ (- e))%Z).
        assert (0 <= q' <= 2 ^ 52)%Z as Hq'.
        { unfold q'. destruct (_ <=? _)%Z; lia. }
        rewrite Z_of_double_of_Z
          by (change (2 ^ 52)%Z with 4503599627370496%Z in Hq';
              change (2 ^ 53)%Z with 9007199254740992%Z; lia).
        intros [= <-]. lia. }
  destruct (_ && _); [|discriminate]. intros [= <-]. exact Hq0.
Qed.

(** X13. [FormatMinutes] always leaves exactly five characters.  They are
    [" N/A "] for a NaN and for every negative number of minutes (also one
    that would round to zero); otherwise, when the rounded number of minutes
    is below 6000, they are [HH MM], two digits of hours and two of
    minutes. *)
Theorem FormatMinutes_text (minutesd : float) :
  (is_nan minutesd = true \/ (minutesd <? 0) = true ->
   Main.FormatMinutes minutesd = Some " N/A "%string) /\
  (forall n : Z,
     is_nan minutesd = false -> (minutesd <? 0) = false ->
     int_of_double (Main.round minutesd) = Some n -> (n < 6000)%Z ->
     Main.FormatMinutes minutesd = Some (hh_mm n)) /\
  (forall s : string, Main.FormatMinutes minutesd = Some s -> String.length s = 5%nat).
Proof.
  unfold Main.FormatMinutes. split; [|split].
  - intros [H | H]; rewrite H; [reflexivity | apply orb_true_r || idtac].
    destruct (is_nan minutesd); reflexivity.
  - intros n Hnan Hneg Hn Hlt. rewrite Hnan, Hneg, Hn. cbn [orb]. f_equal.
    pose proof (int_of_round_nonneg minutesd n Hneg Hn) as H0.
    apply String.eqb_eq.
    apply (proj1 (forallb_forall _ _) FormatMinutes_check n).
    apply In_seqZ. lia.
  - intros s. destruct (is_nan minutesd || (minutesd <? 0)).
    + intros [= <-]. reflexivity.
    + destruct (int_of_double (Main.round minutesd)) as [n|]; [|discriminate].
      intros [= <-]. unfold Main.snprintf_6. apply substring_0_length.
      rewrite !string_length_append.
      pose proof (fmt_02d_length (n ÷ 60)). pose proof (fmt_02d_length (Z.rem n 60)).
      cbn [String.length]. lia.
Qed.

(** X13 at NaN and at 31.23 minutes. *)
Lemma FormatMinutes_text_witness :
  Main.FormatMinutes nan = Some " N/A "%string /\
  Main.FormatMinutes 31.234575949732346 = Some (hh_mm 31) /\
  String.length " N/A " = 5%nat.
Proof.
  split; [|split].
  - apply (proj1 (FormatMinutes_text nan)). left. reflexivity.
  - apply (proj1 (proj2 (FormatMinutes_text 31.234575949732346)) 31%Z); reflexivity.
  - apply (proj2 (proj2 (FormatMinutes_text nan)) " N/A "%string). reflexivity.
Defined.

End FormatMinutesFacts.

Section SunRiseTable.

Local Open Scope float_scope.

Context {libm : Libm}.

(** The cosine of the hour angle in the first pass of [UTCForSolarAngle]. *)
Lemma FormatMinutes_no_crossing (C99 : LibmC99 libm) (rise : Z) (jd latitude angle : float) :
  outside_unit (cosHA (DEG2RAD latitude)
     (SunDeclinationRad (JulianCenturyFromJulianDay jd)) (DEG2RAD angle)) = true ->
  Main.FormatMinutes (UTCForSolarAngle rise jd latitude angle) = Some " N/A "%string.
Proof.
  intros H.
  rewrite (UTCForSolarAngle_nan_first_pass rise jd latitude angle); [reflexivity|].
  apply UTCForSolarAngleAux_nan_hour_angle.
  unfold LocalHourAngleSunRad. cbv zeta. apply acos_domain.
  apply orb_true_iff. exact H.
Qed.

(** X14. With a C library that follows C99 for [acos]: whenever the cosine
    of the hour angle at [jd] lies outside [-1, 1] for one of the three
    zenith angles (the sun does not cross that altitude), the row of
    [SunRiseTest] shows [" N/A "] in both columns of that event, the morning
    one and the evening one. *)
Theorem SunRiseTest_row_not_available (C99 : LibmC99 libm) (jd latitude : float) :
  let no_crossing angle :=
    outside_unit (cosHA (DEG2RAD latitude)
       (SunDeclinationRad (JulianCenturyFromJulianDay jd)) (DEG2RAD angle)) = true in
  let cell k := nth k (Main.SunRiseTest_row jd latitude) None in
  (no_crossing kNauticalTwilight ->
     cell 0%nat = Some " N/A "%string /\ cell 5%nat = Some " N/A "%string) /\
  (no_crossing kCivilTwilight ->
     cell 1%nat = Some " N/A "%string /\ cell 4%nat = Some " N/A "%string) /\
  (no_crossing kRiseOrSet ->
     cell 2%nat = Some " N/A "%string /\ cell 3%nat = Some " N/A "%string).
Proof.
  intros no_crossing cell. unfold cell, Main.SunRiseTest_row. cbv zeta. cbn [nth].
  repeat split; apply (FormatMinutes_no_crossing C99); assumption.
Qed.

End SunRiseTable.

Section SunRiseTableAtLatitude72.

Local Open Scope float_scope.

#[local] Existing Instance Libm_sampled.

(** X14 for nautical twilight on 1994-05-08 at latitude 72 degrees. *)
Lemma SunRiseTest_row_not_available_witness :
  nth 0 (Main.SunRiseTest_row (JulianDayEx 1994 5 8.0) 72.0) None = Some " N/A "%string /\
  nth 5 (Main.SunRiseTest_row (JulianDayEx 1994 5 8.0) 72.0) None = Some " N/A "%string.
Proof.
  apply (proj1 (SunRiseTest_row_not_available Libm_sampled_C99 (JulianDayEx 1994 5 8.0) 72.0)).
  vm_compute. reflexivity.
Defined.

End SunRiseTableAtLatitude72.

(** ** The built-in tests of [main.c] *)

Section SelfTests.
Local Open Scope float_scope.

(** X15. The five checks whose results [main] sums all return 0 in binary64:
    the fourteen rows of [gJulianDayTestInfo] are met bit for bit, and so are
    the expected values of the four other tests.  None of them calls the
    C library's trigonometry. *)
Theorem Main_tests_return_zero :
  Main.JulianDayTests = 0%Z /\
  Main.D2DMSTest = Some 0%Z /\
  Main.ObliquityTest = Some 0%Z /\
  (forall fuel : nat, (8 <= fuel)%nat -> Main.GeometricMeanLongitudeSunTest fuel = Some 0%Z) /\
  (forall fuel : nat, (8 <= fuel)%nat -> Main.GeometricMeanAnomalySunTest fuel = Some 0%Z).
Proof.
  split; [vm_compute; reflexivity|].
  split; [vm_compute; reflexivity|].
  split; [vm_compute; reflexivity|].
  split; intros fuel Hfuel.
  - unfold Main.GeometricMeanLongitudeSunTest.
    rewrite (NormalizeDegrees_fuel 8 fuel _ 201.80719650670744 Hfuel)
      by (vm_compute; reflexivity).
    vm_compute. reflexivity.
  - unfold Main.GeometricMeanAnomalySunTest.
    rewrite (NormalizeDegrees_fuel 8 fuel _ 278.9939664315975 Hfuel)
      by (vm_compute; reflexivity).
    vm_compute. reflexivity.
Qed.

(** X15 with eight turns of fuel. *)
Lemma Main_tests_return_zero_witness :
  Main.GeometricMeanLongitudeSunTest 8 = Some 0%Z /\
  Main.GeometricMeanAnomalySunTest 8 = Some 0%Z.
Proof.
  split.
  - apply (proj1 (proj2 (proj2 (proj2 Main_tests_return_zero))) 8%nat). lia.
  - apply (proj2 (proj2 (proj2 (proj2 Main_tests_return_zero))) 8%nat). lia.
Defined.

End SelfTests.

(** ** Degrees, minutes and seconds of any angle *)

Section Truncation.
Local Open Scope Z_scope.

(** The integer a [double] truncates to is that of its [trunc]. *)
Lemma Z_of_double_trunc (x : float) : Z_of_double (trunc x) = Z_of_double x.
Proof.
  unfold trunc. destruct (Prim2SF x) as [s | s | | s m e] eqn:HP; try reflexivity.
  destruct (Z.leb_spec 0 e) as [He | He]; [reflexivity|].
  pose proof (Prim2SF_valid x) as Hv. rewrite HP in Hv.
  destruct (bounded_mantissa m e Hv) as (_ & Hm & _).
  assert (0 < 2 ^ (- e)) as Hpow by (apply Z.pow_pos_nonneg; lia).
  assert (0 <= Z.pos m / 2 ^ (- e) < 2 ^ 53) as Hq.
  { split; [apply Z.div_pos; lia|].
    apply Z.div_lt_upper_bound; [lia|]. nia. }
  unfold Z_of_double at 2. rewrite HP.
  destruct (Z.leb_spec 0 e) as [|_]; [lia|].
  destruct s.
  - destruct (Z.eqb_spec (Z.pos m / 2 ^ (- e)) 0) as [E | E].
    + rewrite E. reflexivity.
    + apply Z_of_double_of_Z. lia.
  - apply Z_of_double_of_Z. lia.
Qed.

Lemma int_of_double_trunc (x : float) :
  int_of_double (trunc x) =
  match Z_of_double x with
  | Some q => if (- 2 ^ 31 <=? q) && (q <? 2 ^ 31) then Some q else None
  | None => None
  end.
Proof.
  unfold int_of_double, signed_of_double. rewrite Z_of_double_trunc. reflexivity.
Qed.

End Truncation.

Section Fraction.
Local Open Scope Z_scope.

Lemma double_of_Z_finite (s : bool) (q : positive) :
  Z.pos q < 2 ^ 53 ->
  exists (m : positive) (e : Z),
    Prim2SF (double_of_Z (cond_Zopp s (Z.pos q))) = S754_finite s m e /\
    -52 <= e <= 0 /\ Z.pos m = Z.pos q * 2 ^ (- e) /\ 2 ^ 52 <= Z.pos m < 2 ^ 53.
Proof.
  intros Hq. destruct (Prim2SF_of_pos q Hq) as (m & e & HP & He & Hm & Hb).
  exists m, e. split; [|auto].
  destruct s; unfold double_of_Z; cbn [cond_Zopp Z.opp Z.ltb Z.compare].
  - rewrite FloatAxioms.opp_spec, HP. reflexivity.
  - exact HP.
Qed.

(** Two normalised mantissas of the same integer have the same exponent. *)
Lemma same_shift (q a b : Z) :
  0 <= a -> 0 <= b ->
  2 ^ 52 <= q * 2 ^ a < 2 ^ 53 -> 2 ^ 52 <= q * 2 ^ b < 2 ^ 53 -> a = b.
Proof.
  assert (forall u v, 0 <= u -> u < v ->
            2 ^ 52 <= q * 2 ^ u < 2 ^ 53 -> 2 ^ 52 <= q * 2 ^ v < 2 ^ 53 -> False) as H.
  { intros u v Hu Huv H1 H2.
    replace v with (u + (v - u)) in H2 by lia. rewrite Z.pow_add_r in H2 by lia.
    assert (2 ^ 1 <= 2 ^ (v - u)) as Hp by (apply Z.pow_le_mono_r; lia).
    change (2 ^ 1) with 2 in Hp.
    assert (0 < 2 ^ u) as Hpos by (apply Z.pow_pos_nonneg; lia).
    change (2 ^ 52) with 4503599627370496 in *.
    change (2 ^ 53) with 9007199254740992 in *.
    revert H1 H2 Hp Hpos. generalize (2 ^ u) (2 ^ (v - u)). intros A B H1 H2 Hp Hpos. nia. }
  intros Ha Hb H1 H2.
  destruct (Z.lt_trichotomy a b) as [Hlt | [Heq | Hgt]]; [exfalso | exact Heq | exfalso].
  - exact (H a b Ha Hlt H1 H2).
  - exact (H b a Hb Hgt H2 H1).
Qed.

(** [x - (double) trunc(x)] is computed exactly: it is a zero or has the sign
    of [x] and a magnitude below one. *)
Lemma sub_trunc_fraction (x : float) (s : bool) (m : positive) (e : Z) :
  Prim2SF x = S754_finite s m e -> e < 0 ->
  below_one s (Prim2SF (x - double_of_Z (cond_Zopp s (Z.pos m / 2 ^ (- e))))%float).
Proof.
  intros HP He.
  pose proof (Prim2SF_valid x) as Hv. rewrite HP in Hv.
  destruct (bounded_mantissa m e Hv) as (Hemin & Hm & Hnorm).
  assert (0 < 2 ^ (- e)) as Hpow by (apply Z.pow_pos_nonneg; lia).
  pose proof (Z.div_mod (Z.pos m) (2 ^ (- e)) ltac:(lia)) as Hdm.
  pose proof (Z.mod_pos_bound (Z.pos m) (2 ^ (- e)) Hpow) as Hmod.
  rewrite FloatAxioms.sub_spec, HP.
  destruct (Z.pos m / 2 ^ (- e)) as [|q|q] eqn:Hq.
  - (* the integer part is zero *)
    replace (cond_Zopp s 0) with 0 by (destruct s; reflexivity).
    change (Prim2SF (double_of_Z 0)) with (S754_zero false).
    right. exists m, e. split; [reflexivity|]. lia.
  - assert (Z.pos q < 2 ^ 53) as Hq53 by nia.
    destruct (double_of_Z_finite s q Hq53) as (mq & eq & HQ & Heq & Hmq & Hbq).
    rewrite HQ.
    assert (- e <= 52) as He52.
    { destruct (Z.le_gt_cases (- e) 52) as [|Hgt]; [assumption|exfalso].
      assert (2 ^ 53 <= 2 ^ (- e)) by (apply Z.pow_le_mono_r; lia). nia. }
    assert (2 ^ 52 <= Z.pos m) as Hm52 by (apply Hnorm; lia).
    assert (2 ^ 52 <= Z.pos q * 2 ^ (- e)) as Hlow.
    { assert (2 ^ 52 = 2 ^ (52 + e) * 2 ^ (- e)) as H52
        by (rewrite <- Z.pow_add_r by lia; f_equal; lia).
      assert (2 ^ (52 + e) <= Z.pos q).
      { rewrite <- Hq. apply Z.div_le_lower_bound; [lia|]. rewrite Z.mul_comm, <- H52. lia. }
      rewrite H52. apply Z.mul_le_mono_nonneg_r; lia. }
    assert (- eq = - e) as Hsame.
    { apply (same_shift (Z.pos q)); lia. }
    assert (eq = e) by lia. subst eq. clear Hsame.
    unfold SF64sub, SFsub. rewrite Z.min_id. unfold shl_align. rewrite Z.sub_diag.
    cbn [fst].
    replace (cond_Zopp s (Z.pos m) - cond_Zopp s (Z.pos mq))
      with (cond_Zopp s (Z.pos m mod 2 ^ (- e)))
      by (destruct s; unfold cond_Zopp; lia).
    destruct (Z.pos m mod 2 ^ (- e)) as [|r|r] eqn:Hr; [| |lia].
    + left. exists false. destruct s; reflexivity.
    + replace (binary_normalize prec emax (cond_Zopp s (Z.pos r)) e false)
        with (binary_round prec emax s r e) by (destruct s; reflexivity).
      pose proof (digits2_pos_bounds r) as Hd.
      assert (Z.pos (digits2_pos r) <= 52) as Hd52.
      { destruct (Z.le_gt_cases (Z.pos (digits2_pos r)) 52) as [|Hgt]; [assumption|exfalso].
        assert (2 ^ 52 <= 2 ^ (Z.pos (digits2_pos r) - 1)) by (apply Z.pow_le_mono_r; lia).
        assert (2 ^ (- e) <= 2 ^ 52) by (apply Z.pow_le_mono_r; lia). lia. }
      destruct (binary_round_normal s r e) as (mf & ef & HR & Hmf & Hcase); try lia.
      destruct Hcase as [(_ & Hef & Hval) | (Hgt & _)]; [|lia].
      right. exists mf, ef. split; [exact HR|].
      rewrite Hval, Hef.
      replace (- (Z.pos (digits2_pos r) + e - 53)) with ((53 - Z.pos (digits2_pos r)) + - e)
        by lia.
      rewrite Z.pow_add_r by lia. rewrite Z.mul_comm.
      apply Z.mul_lt_mono_pos_l; [apply Z.pow_pos_nonneg; lia | lia].
  - exfalso. assert (0 <= Z.pos m / 2 ^ (- e)) by (apply Z.div_pos; lia). lia.
Qed.

End Fraction.

Section Product.
Local Open Scope Z_scope.

(** A number below [2 ^ k] has at most [k] digits. *)
Lemma Zdigits2_le (z k : Z) : 0 <= k -> 0 <= z < 2 ^ k -> Zdigits2 z <= k.
Proof.
  intros Hk [Hz0 Hz]. destruct z as [|p|p]; [cbn; lia | | lia].
  cbn [Zdigits2]. pose proof (digits2_pos_bounds p) as [Hd _].
  destruct (Z.le_gt_cases (Z.pos (digits2_pos p)) k) as [|Hgt]; [assumption|exfalso].
  assert (2 ^ k <= 2 ^ (Z.pos (digits2_pos p) - 1)) by (apply Z.pow_le_mono_r; lia). lia.
Qed.

(** Rounding a value far below one: the result is a zero or has an exponent
    of at most -53. *)
Lemma binary_round_aux_tiny (s : bool) (P : positive) (E : Z) :
  E <= -1074 -> Z.pos (digits2_pos P) + E <= -1 ->
  binary_round_aux prec emax s (Z.pos P) E loc_Exact = S754_zero s \/
  exists (m : positive) (e : Z),
    binary_round_aux prec emax s (Z.pos P) E loc_Exact = S754_finite s m e /\ e <= -53.
Proof.
  intros HE Hd.
  pose proof (digits2_pos_bounds P) as [Dlo Dhi].
  set (d := Z.pos (digits2_pos P)) in *.
  assert (1 <= d) as Hd1 by (unfold d; lia).
  unfold binary_round_aux, shr_fexp.
  change (Zdigits2 (Z.pos P)) with d.
  set (t := fexp prec emax (d + E)).
  assert (t = Z.max (d + E - 53) (-1074)) as Ht by reflexivity.
  assert (E <= t /\ t <= -54 /\ d + E - 53 <= t) as (Ht1 & Ht2 & Ht3) by lia.
  assert (forall (m1 : Z), 0 <= m1 <= 2 ^ 53 ->
            let '(mrs, e) := shr (shr_record_of_loc m1 loc_Exact) t
                                 (fexp prec emax (Zdigits2 m1 + t) - t) in
            0 <= shr_m mrs /\ e <= t + 1) as Hsecond.
  { intros m1 Hm1.
    assert (Zdigits2 m1 <= 54) as Hdig.
    { apply Zdigits2_le; [lia|]. change (2 ^ 54) with 18014398509481984.
      change (2 ^ 53) with 9007199254740992 in Hm1. lia. }
    assert (fexp prec emax (Zdigits2 m1 + t) - t <= 1) as Hn
      by (unfold fexp, SpecFloat.emin, prec, emax; lia).
    unfold shr. destruct (fexp prec emax (Zdigits2 m1 + t) - t) as [|n|n] eqn:En.
    - cbn [shr_record_of_loc shr_m]. lia.
    - assert (n = 1%positive) as -> by lia.
      cbn [SpecFloat.iter_pos]. split; [|lia].
      apply shr_1_nonneg. cbn [shr_record_of_loc shr_m]. lia.
    - cbn [shr_record_of_loc shr_m]. lia. }
  assert (forall (m1 : Z), 0 <= m1 <= 2 ^ 53 ->
            (let '(mrs'', e'') := shr (shr_record_of_loc m1 loc_Exact) t
                                      (fexp prec emax (Zdigits2 m1 + t) - t) in
             match shr_m mrs'' with
             | 0 => S754_zero s
             | Z.pos m => if e'' <=? emax - prec then S754_finite s m e'' else S754_infinity s
             | Z.neg _ => S754_nan
             end) = S754_zero s \/
            exists (m : positive) (e : Z),
              (let '(mrs'', e'') := shr (shr_record_of_loc m1 loc_Exact) t
                                        (fexp prec emax (Zdigits2 m1 + t) - t) in
               match shr_m mrs'' with
               | 0 => S754_zero s
               | Z.pos m => if e'' <=? emax - prec then S754_finite s m e'' else S754_infinity s
               | Z.neg _ => S754_nan
               end) = S754_finite s m e /\ e <= -53) as Hfinal.
  { intros m1 Hm1. specialize (Hsecond m1 Hm1).
    destruct (shr (shr_record_of_loc m1 loc_Exact) t
                  (fexp prec emax (Zdigits2 m1 + t) - t)) as [mrs'' e''].
    destruct Hsecond as [Hnn He''].
    destruct (shr_m mrs'') as [|m|m]; [left; reflexivity | | lia].
    right. exists m, e''.
    destruct (Z.leb_spec e'' (emax - prec)) as [_|Hgt];
      [split; [reflexivity | lia] | unfold emax, prec in Hgt; lia]. }
  destruct (shr (shr_record_of_loc (Z.pos P) loc_Exact) E (t - E)) as [mrs' e'] eqn:Hfirst.
  assert (e' = t /\ 0 <= shr_m mrs' < 2 ^ 53) as [-> Hb].
  { unfold shr in Hfirst. destruct (t - E) as [|n|n] eqn:En; [| |lia].
    - injection Hfirst as <- <-. split; [lia|]. cbn [shr_record_of_loc shr_m].
      assert (d <= 53) by lia.
      assert (2 ^ d <= 2 ^ 53) by (apply Z.pow_le_mono_r; lia). lia.
    - injection Hfirst as <- <-. split; [lia|].
      rewrite iter_shr_1_div by (cbn; lia). cbn [shr_record_of_loc shr_m].
      assert (0 < 2 ^ Z.pos n) as Hpn by (apply Z.pow_pos_nonneg; lia).
      split; [apply Z.div_pos; lia|].
      apply Z.div_lt_upper_bound; [lia|].
      rewrite <- Z.pow_add_r by lia.
      assert (2 ^ d <= 2 ^ (Z.pos n + 53)) by (apply Z.pow_le_mono_r; lia). lia. }
  pose proof (round_nearest_even_bounds (shr_m mrs') (loc_of_shr_record mrs')) as Hr.
  apply Hfinal. lia.
Qed.

End Product.

Section Milliseconds.
Local Open Scope Z_scope.

(** Truncation of a number with a negative exponent. *)
Lemma Z_of_double_SF (y : float) (s : bool) (m : positive) (e : Z) :
  Prim2SF y = S754_finite s m e -> e < 0 ->
  Z_of_double y = Some (cond_Zopp s (Z.pos m / 2 ^ (- e))).
Proof.
  intros HY He. unfold Z_of_double. rewrite HY.
  destruct (Z.leb_spec 0 e); [lia|]. destruct s; reflexivity.
Qed.

(** The largest fraction, [1 - 2 ^ -53], gives 3599999 milliseconds. *)
Lemma mul_3600000_largest (f : float) (s : bool) :
  Prim2SF f = S754_finite s 9007199254740991 (-53) ->
  Z_of_double (f * 3600000)%float = Some (cond_Zopp s 3599999).
Proof.
  intros HF. destruct s.
  - assert (f = (-0x1.fffffffffffffp-1)%float) as ->
      by (apply Prim2SF_inj; rewrite HF; reflexivity).
    vm_compute. reflexivity.
  - assert (f = 0x1.fffffffffffffp-1%float) as ->
      by (apply Prim2SF_inj; rewrite HF; reflexivity).
    vm_compute. reflexivity.
Qed.

(** The general case: the fraction leaves at least two units below one, or
    its product with 3600000 has 105 digits. *)
Lemma mul_3600000_general (f : float) (s : bool) (mf : positive) (ef : Z) :
  Prim2SF f = S754_finite s mf ef ->
  Prim2SF (f * 3600000)%float =
    binary_round_aux prec emax s (Z.pos (mf * mantissa_3600000)) (ef + -31) loc_Exact ->
  -1043 <= ef -> 53 <= - ef ->
  2 ^ 52 <= Z.pos mf -> Z.pos mf + 2 <= 2 ^ (- ef) ->
  exists ms : Z,
    Z_of_double (f * 3600000)%float = Some (cond_Zopp s ms) /\ 0 <= ms <= 3599999.
Proof.
  intros HF HY Hbig Hef53 Hmf52 Hgap.
  assert (Z.pos (mf * mantissa_3600000) = Z.pos mf * 7730941132800000) as HP by reflexivity.
  assert (Z.pos mf < 2 ^ 53) as Hmf.
  { pose proof (Prim2SF_valid f) as Hv. rewrite HF in Hv.
    destruct (bounded_mantissa mf ef Hv) as (_ & H & _). exact H. }
  assert (exists n : positive,
            (n = 52%positive \/ n = 53%positive) /\
            2 ^ (52 + Z.pos n) <= Z.pos (mf * mantissa_3600000) < 2 ^ (53 + Z.pos n))
    as (n & Hn & Hrange).
  { rewrite HP.
    change (2 ^ 52) with 4503599627370496 in Hmf52.
    change (2 ^ 53) with 9007199254740992 in Hmf.
    destruct (Z.lt_ge_cases (Z.pos mf * 7730941132800000) (2 ^ 105)) as [Hlt | Hge].
    - exists 52%positive. split; [left; reflexivity|].
      change (2 ^ (52 + 52)) with 20282409603651670423947251286016.
      change (2 ^ (53 + 52)) with (2 ^ 105). lia.
    - exists 53%positive. split; [right; reflexivity|].
      change (2 ^ (52 + 53)) with (2 ^ 105).
      change (2 ^ (53 + 53)) with (9007199254740992 * 9007199254740992). nia. }
  destruct (binary_round_aux_cut s (mf * mantissa_3600000) n (ef + -31))
    as (m & er & HR & Hm & Her & Hval); try lia.
  rewrite <- HY in HR.
  assert (er < 0) as Her0 by lia.
  rewrite (Z_of_double_SF _ s m er HR Her0).
  exists (Z.pos m / 2 ^ (- er)). split; [reflexivity|].
  assert (0 < 2 ^ (- er)) as Hpow by (apply Z.pow_pos_nonneg; lia).
  split; [apply Z.div_pos; lia|].
  assert (Z.pos m / 2 ^ (- er) < 3600000); [|lia].
  apply Z.div_lt_upper_bound; [lia|].
  (* units of 2 ^ (ef - 31) *)
  assert (0 < 2 ^ Z.pos n) as Hpn by (apply Z.pow_pos_nonneg; lia).
  assert (Z.pos (mf * mantissa_3600000) / 2 ^ Z.pos n * 2 ^ Z.pos n
          <= Z.pos (mf * mantissa_3600000)) as Hfloor
    by (rewrite Z.mul_comm; apply Z.mul_div_le; lia).
  assert (2 ^ Z.pos n <= 2 ^ 53) as Hn53 by (apply Z.pow_le_mono_r; lia).
  assert (2 ^ Z.pos n <= 2 ^ 52 \/ Z.pos mf + 2 <= 2 ^ (- ef)) as Hcases by (right; exact Hgap).
  assert (Z.pos m * 2 ^ (er - (ef + -31)) < 7730941132800000 * 2 ^ (- ef)) as Hlt.
  { rewrite HP in *.
    change (2 ^ 53) with 9007199254740992 in *.
    revert Hval Hfloor Hn53 Hpn Hgap.
    generalize (Z.pos mf * 7730941132800000 / 2 ^ Z.pos n) (2 ^ Z.pos n) (2 ^ (- ef))
               (Z.pos m * 2 ^ (er - (ef + -31))).
    intros Q N G V Hval Hfloor Hn53 Hpn Hgap. nia. }
  assert (2 ^ (- ef) * 2147483648 = 2 ^ (er - (ef + -31)) * 2 ^ (- er)) as Hsplit.
  { change 2147483648 with (2 ^ 31). rewrite <- !Z.pow_add_r by lia. f_equal. lia. }
  assert (0 < 2 ^ (er - (ef + -31))) as HA by (apply Z.pow_pos_nonneg; lia).
  revert Hlt Hsplit HA Hpow.
  generalize (2 ^ (er - (ef + -31))) (2 ^ (- er)) (2 ^ (- ef)).
  intros A B G Hlt Hsplit HA HB.
  assert (Z.pos m * A < 3600000 * (A * B)) by nia.
  nia.
Qed.

(** A fraction times 3600000.0 truncates to fewer than 3600000 milliseconds,
    of the sign of the fraction. *)
Lemma mul_3600000_bound (f : float) (s : bool) :
  below_one s (Prim2SF f) ->
  exists ms : Z,
    Z_of_double (f * 3600000)%float = Some (cond_Zopp s ms) /\ 0 <= ms <= 3599999.
Proof.
  intros [[sz Hz] | (mf & ef & HF & Hlt)].
  - exists 0. split; [|lia].
    unfold Z_of_double. rewrite FloatAxioms.mul_spec, Hz.
    change (Prim2SF 3600000) with (S754_finite false mantissa_3600000 (-31)).
    cbn. destruct s; reflexivity.
  - pose proof (Prim2SF_valid f) as Hv. rewrite HF in Hv.
    destruct (bounded_mantissa mf ef Hv) as (Hemin & Hmf & Hnorm).
    assert (ef < 0) as Hef.
    { destruct (Z.lt_ge_cases ef 0) as [|Hge]; [assumption|exfalso].
      assert (2 ^ (- ef) <= 2 ^ 0) by (apply Z.pow_le_mono_r; lia).
      change (2 ^ 0) with 1 in *. lia. }
    assert (Prim2SF (f * 3600000)%float =
            binary_round_aux prec emax s (Z.pos (mf * mantissa_3600000)) (ef + -31) loc_Exact)
      as HY.
    { rewrite FloatAxioms.mul_spec, HF.
      change (Prim2SF 3600000) with (S754_finite false mantissa_3600000 (-31)).
      unfold SF64mul, SFmul. rewrite xorb_false_r. reflexivity. }
    assert (Z.pos (mf * mantissa_3600000) = Z.pos mf * 7730941132800000) as HP by reflexivity.
    destruct (Z.le_gt_cases (-1043) ef) as [Hbig | Htiny].
    + (* the product is a normal number *)
      assert (2 ^ 52 <= Z.pos mf) as Hmf52 by (apply Hnorm; lia).
      assert (53 <= - ef) as Hef53.
      { destruct (Z.le_gt_cases 53 (- ef)) as [|Hgt]; [assumption|exfalso].
        assert (2 ^ (- ef) <= 2 ^ 52) by (apply Z.pow_le_mono_r; lia). lia. }
      destruct (Z.eq_dec ef (-53)) as [E53 | E53];
        [destruct (Z.eq_dec (Z.pos mf) 9007199254740991) as [Emax | Emax] |].
      * (* the largest fraction *)
        exists 3599999. split; [|lia].
        apply mul_3600000_largest. rewrite HF. f_equal; [|exact E53].
        injection Emax as ->. reflexivity.
      * apply (mul_3600000_general f s mf ef); try assumption.
        subst ef. change (2 ^ (- -53)) with 9007199254740992 in *. lia.
      * apply (mul_3600000_general f s mf ef); try assumption.
        assert (2 ^ 54 <= 2 ^ (- ef)) by (apply Z.pow_le_mono_r; lia).
        change (2 ^ 54) with 18014398509481984 in *.
        change (2 ^ 53) with 9007199254740992 in *. lia.
    + (* the product is far below one *)
      exists 0. split; [|lia].
      replace (cond_Zopp s 0) with 0 by (destruct s; reflexivity).
      assert (Z.pos (digits2_pos (mf * mantissa_3600000)) <= 106) as Hdig.
      { apply (Zdigits2_le (Z.pos (mf * mantissa_3600000)) 106); [lia|].
        rewrite HP. change (2 ^ 106) with (9007199254740992 * 9007199254740992).
        change (2 ^ 53) with 9007199254740992 in Hmf. nia. }
      destruct (binary_round_aux_tiny s (mf * mantissa_3600000) (ef + -31))
        as [HR | (m & e & HR & He)]; try lia.
      * unfold Z_of_double. rewrite HY, HR. reflexivity.
      * rewrite <- HY in HR.
        pose proof (Prim2SF_valid (f * 3600000)%float) as Hvy. rewrite HR in Hvy.
        destruct (bounded_mantissa m e Hvy) as (_ & Hm & _).
        rewrite (Z_of_double_SF _ s m e HR) by lia.
        assert (2 ^ 53 <= 2 ^ (- e)) by (apply Z.pow_le_mono_r; lia).
        rewrite Z.div_small by lia. destruct s; reflexivity.
Qed.

End Milliseconds.

Section D2DMSFacts.
Local Open Scope Z_scope.

(** X16. [D2DMS] is defined exactly when its argument is finite and its
    integer part fits an [int].  Then the degrees are the argument truncated
    toward zero, the minutes lie between -59 and 59, the seconds are a whole
    number [r] of milliseconds, of magnitude at most 59999, divided by
    1000.0, and [60000 * minutes + r] is the truncation of the fraction times
    3600000.0; the three parts are all non-negative when the argument is not
    below zero, and all non-positive when it is. *)
Theorem D2DMS_total (x : float) :
  (Z_of_double x = None -> D2DMS x = None) /\
  (forall deg : Z,
     Z_of_double x = Some deg -> ~ (- 2 ^ 31 <= deg < 2 ^ 31) -> D2DMS x = None) /\
  (forall deg : Z,
     Z_of_double x = Some deg -> - 2 ^ 31 <= deg < 2 ^ 31 ->
     exists minutes r : Z,
       D2DMS x = Some (deg, minutes, (double_of_Z r / 1000)%float) /\
       Z_of_double ((x - double_of_Z deg) * 3600000)%float = Some (60000 * minutes + r) /\
       ((x <? 0)%float = false -> 0 <= deg /\ 0 <= minutes <= 59 /\ 0 <= r <= 59999) /\
       ((x <? 0)%float = true -> deg <= 0 /\ -59 <= minutes <= 0 /\ -59999 <= r <= 0)).
Proof.
  split; [|split].
  - intros H. unfold D2DMS. rewrite int_of_double_trunc, H. reflexivity.
  - intros deg H Hrange. unfold D2DMS. rewrite int_of_double_trunc, H.
    destruct (Z.leb_spec (- 2 ^ 31) deg); [|reflexivity].
    destruct (Z.ltb_spec deg (2 ^ 31)); [lia | reflexivity].
  - intros deg H Hrange.
    assert (int_of_double (trunc x) = Some deg) as Hint.
    { rewrite int_of_double_trunc, H.
      destruct (Z.leb_spec (- 2 ^ 31) deg); [|lia].
      destruct (Z.ltb_spec deg (2 ^ 31)); [reflexivity | lia]. }
    unfold D2DMS. rewrite Hint.
    change (double_of_Z (3600 * 1000)) with 3600000%float.
    assert (exists ms0 : Z,
              Z_of_double ((x - double_of_Z deg) * 3600000)%float
                = Some (if (x <? 0)%float then - ms0 else ms0) /\
              0 <= ms0 <= 3599999 /\
              (if (x <? 0)%float then deg <= 0 else 0 <= deg)) as (ms0 & Hms & Hb & Hsign).
    { destruct (Prim2SF x) as [sz | si | | s m e] eqn:HP.
      - (* a zero *)
        assert (deg = 0) as -> by (unfold Z_of_double in H; rewrite HP in H; congruence).
        exists 0. destruct sz.
        + assert (x = (-0)%float) as -> by (apply Prim2SF_inj; rewrite HP; reflexivity).
          change (-0 <? 0)%float with false. cbv iota.
          split; [reflexivity | lia].
        + assert (x = 0%float) as -> by (apply Prim2SF_inj; rewrite HP; reflexivity).
          change (0 <? 0)%float with false. cbv iota.
          split; [reflexivity | lia].
      - unfold Z_of_double in H. rewrite HP in H. discriminate.
      - unfold Z_of_double in H. rewrite HP in H. discriminate.
      - pose proof (Prim2SF_valid x) as Hv. rewrite HP in Hv.
        destruct (bounded_mantissa m e Hv) as (Hemin & Hm & Hnorm).
        rewrite (ltb_zero_sign x s m e HP).
        destruct (Z.lt_ge_cases e 0) as [He | He].
        + rewrite (Z_of_double_SF x s m e HP He) in H. injection H as <-.
          destruct (mul_3600000_bound _ s (sub_trunc_fraction x s m e HP He))
            as (ms0 & Hms & Hb).
          exists ms0. split; [|split; [exact Hb|]].
          * rewrite Hms. destruct s; reflexivity.
          * assert (0 <= Z.pos m / 2 ^ (- e)) as Hq
              by (apply Z.div_pos; [lia | apply Z.pow_pos_nonneg; lia]).
            revert Hq. generalize (Z.pos m / 2 ^ (- e)). intros q Hq.
            clear - Hq. destruct s; unfold cond_Zopp; lia.
        + exfalso. unfold Z_of_double in H. rewrite HP in H.
          destruct (Z.leb_spec 0 e); [|lia].
          assert (2 ^ 52 <= Z.pos m) as Hm52 by (apply Hnorm; lia).
          assert (1 <= 2 ^ e) as Hp by (change 1 with (2 ^ 0); apply Z.pow_le_mono_r; lia).
          change (2 ^ 52) with 4503599627370496 in *.
          change (2 ^ 31) with 2147483648 in *.
          apply (f_equal (fun o => match o with Some z => z | None => 0 end)) in H.
          cbv beta iota in H.
          revert H Hp Hm52 Hrange. generalize (2 ^ e). clear. intros p H Hp Hm52 Hrange.
          destruct s; nia. }
    unfold long_of_double, signed_of_double. rewrite Hms.
    assert (forall v : Z, - 3599999 <= v <= 3599999 ->
              (- 2 ^ (64 - 1) <=? v) && (v <? 2 ^ (64 - 1)) = true) as Hlong.
    { intros v Hv. apply andb_true_iff.
      change (2 ^ (64 - 1)) with 9223372036854775808.
      split; [apply Z.leb_le | apply Z.ltb_lt]; lia. }
    destruct (x <? 0)%float.
    + rewrite Hlong by lia.
      exists ((- ms0) ÷ (60 * 1000)), (- ms0 - (- ms0) ÷ (60 * 1000) * 60 * 1000).
      split; [reflexivity|]. split; [f_equal; lia|].
      split; [discriminate|]. intros _.
      change (60 * 1000) with 60000.
      clear - Hb Hsign. Z.quot_rem_to_equations. lia.
    + rewrite Hlong by lia.
      exists (ms0 ÷ (60 * 1000)), (ms0 - ms0 ÷ (60 * 1000) * 60 * 1000).
      split; [reflexivity|]. split; [f_equal; lia|].
      split; [|discriminate]. intros _.
      change (60 * 1000) with 60000.
      clear - Hb Hsign. Z.quot_rem_to_equations. lia.
Qed.

(** X16 at 1e10, which has no integer part in [int]. *)
Lemma D2DMS_total_witness : D2DMS 1e10 = None.
Proof.
  apply (proj1 (proj2 (D2DMS_total 1e10)) 10000000000); [reflexivity|].
  change (2 ^ 31) with 2147483648. lia.
Defined.

End D2DMSFacts.
